(** * Keyboard input decoding of the kilocode CLI

    A shallow embedding of [KeyboardProvider] (the keypress handler, the raw
    data handler, the paste and drag completion callbacks and the two timers)
    and of the [EventEmitter] of the host-editor shim, with the properties the
    specification states about them. After them come the other code of the
    two files: the cleanup of the provider's effect and its choice of the
    keypress stream, the welcome messages, and of the shim the positions,
    ranges and selections, the kinds of code actions, the text and workspace
    edits, the text documents with their lines and the way edits are applied
    to them, the mementos and the configuration of the workspace, the
    diagnostic collections, the commands and the disposables.

    The provider is embedded as the handlers of its effect and the renders
    of the component. Its state is the [useRef] cells of the component, the
    keyboard atoms of the store, the timers that are pending, and the values
    that the last render read from the store ([pasteBuffer], [dragBuffer],
    [kittyBuffer], [isKittyEnabled]): a handler, a callback and the cleanup
    hold these, not what the atoms hold when they run. A handler is a
    function of that state which also tells what it broadcasts and what it
    writes to the keypress stream. The four values are dependencies of the
    effect, so a render that reads other values than the last one runs the
    cleanup of the effect and the effect anew; the inputs between two
    renders are one tick. The logging is not part of the embedding, nor is
    what readline makes of the bytes of the keypress stream: a keypress is
    the key record that the handler is given. A string is a sequence of
    characters, and a chunk of raw data is its text. *)

From Stdlib Require Import String Ascii List Bool Arith NArith Lia.
From Stdlib Require Import ZArith DecimalString DecimalNat DecimalPos DecimalZ Permutation Sorted.
Import ListNotations.
Local Open Scope string_scope.
Local Open Scope list_scope.

(** ** JavaScript strings

    A string is a sequence of characters; the handler only compares, joins,
    measures, searches and cuts them. *)
Module Js.

(** [if (s)] on a string: the empty string is the only falsy one. *)
Definition truthy (s : string) : bool := negb (s =? "")%string.

(** [s.slice(n)] for [0 <= n]. *)
Fixpoint sliceFrom (n : nat) (s : string) : string :=
  match n, s with
  | 0, _ => s
  | S _, EmptyString => EmptyString
  | S n', String _ t => sliceFrom n' t
  end.

Fixpoint take (n : nat) (s : string) : string :=
  match n, s with
  | 0, _ => EmptyString
  | S _, EmptyString => EmptyString
  | S n', String c t => String c (take n' t)
  end.

(** [s.slice(a, b)] for [0 <= a] and [0 <= b]. *)
Definition slice (a b : nat) (s : string) : string := take (b - a) (sliceFrom a s).

(** [s.startsWith(p)]. *)
Fixpoint startsWith (p s : string) : bool :=
  match p with
  | EmptyString => true
  | String a p' =>
      match s with
      | EmptyString => false
      | String b s' => (Ascii.eqb a b && startsWith p' s')%bool
      end
  end.

(** [s.indexOf(pat, pos)] for a pattern that is not empty and [0 <= pos];
    [None] stands for [-1]. *)
Fixpoint indexOf (pat : string) (pos : nat) (s : string) : option nat :=
  match pos, s with
  | 0, EmptyString => if startsWith pat s then Some 0 else None
  | 0, String _ t => if startsWith pat s then Some 0 else option_map S (indexOf pat 0 t)
  | S _, EmptyString => None
  | S pos', String _ t => option_map S (indexOf pat pos' t)
  end.

Definition CR : ascii := "013"%char.
Definition LF : ascii := "010"%char.

(** [s.replace(/\r\n/g, "\n")]: matches are found left to right and do not
    overlap. *)
Fixpoint replaceCRLF (s : string) : string :=
  match s with
  | EmptyString => EmptyString
  | String c t =>
      match t with
      | String d u =>
          if (Ascii.eqb c CR && Ascii.eqb d LF)%bool
          then String LF (replaceCRLF u)
          else String c (replaceCRLF t)
      | EmptyString => String c EmptyString
      end
  end.

(** [s.replace(/\r/g, "\n")]. *)
Fixpoint replaceCR (s : string) : string :=
  match s with
  | EmptyString => EmptyString
  | String c t => String (if Ascii.eqb c CR then LF else c) (replaceCR t)
  end.

(** The normalisation as the specification words it: in one pass, a
    carriage return with the line feed after it becomes a line feed, and so
    does a carriage return alone. *)
Fixpoint normalizePastedText (s : string) : string :=
  match s with
  | EmptyString => EmptyString
  | String c t =>
      if Ascii.eqb c CR then
        match t with
        | String d u => if Ascii.eqb d LF then String LF (normalizePastedText u)
                        else String LF (normalizePastedText t)
        | EmptyString => String LF EmptyString
        end
      else String c (normalizePastedText t)
  end.

(** Whether a carriage return occurs in [s]. *)
Fixpoint hasCR (s : string) : bool :=
  match s with
  | EmptyString => false
  | String c t => (Ascii.eqb c CR || hasCR t)%bool
  end.

End Js.

(** ** Key events and the key parsing helpers *)
Module Keys.

(** The key record handed to the subscribers ([Key] of types/keyboard). *)
Record Key := mkKey {
  name : string;
  sequence : string;
  ctrl : bool;
  meta : bool;
  shift : bool;
  paste : bool
}.

(** [{ ...k, shift: true }] *)
Definition withShift (k : Key) : Key :=
  mkKey (name k) (sequence k) (ctrl k) (meta k) true (paste k).

(** [{ ...k, name: n, meta: true }] *)
Definition withAltName (n : string) (k : Key) : Key :=
  mkKey n (sequence k) (ctrl k) true (shift k) (paste k).

(** Modelled from the spec: [ESC] of constants/keyboard, which is missing.
    The escape character. *)
Definition ESC : string := String "027"%char EmptyString.

(** Modelled from the spec: [BACKSLASH] of constants/keyboard, which is
    missing. The backslash character. *)
Definition BACKSLASH : string := String "092"%char EmptyString.

(** Modelled from the spec: [PASTE_MODE_PREFIX] of constants/keyboard, which
    is missing. The start marker of a bracketed paste; the provider's own
    comment gives it as [ESC[200~]. *)
Definition PASTE_MODE_PREFIX : string := (ESC ++ "[200~")%string.

(** Modelled from the spec: [PASTE_MODE_SUFFIX] of constants/keyboard, which
    is missing. The end marker of a bracketed paste; the provider's own
    comment gives it as [ESC[201~]. *)
Definition PASTE_MODE_SUFFIX : string := (ESC ++ "[201~")%string.

(** ESC with a carriage return, and ESC with a line feed (source line
    319). *)
Definition ESC_CR : string := String "027"%char (String Js.CR EmptyString).
Definition ESC_LF : string := String "027"%char (String Js.LF EmptyString).

(** Modelled from the spec: [createPasteKey] of utils/keyParsing, which is
    not among the sources. A paste event has no key name, carries the text
    as its sequence and has [paste] set. *)
Definition createPasteKey (text : string) : Key :=
  mkKey "" text false false false true.

(** Modelled from the spec: [createSpecialKey] of utils/keyParsing, which is
    not among the sources. A literal key event with the given name and
    sequence and no modifier. *)
Definition createSpecialKey (n sequence : string) : Key :=
  mkKey n sequence false false false false.

Record PasteBoundary := { isStart : bool; isEnd : bool }.
Record FocusEvent := { isFocusIn : bool; isFocusOut : bool }.
Record KittyResult := { key : option Key; consumedLength : nat }.

(** The classifiers of utils/keyParsing and the length bound of
    constants/keyboard are not among the sources: the provider is embedded
    over any implementation of them. *)
Class KeyParsing := {
  parseKittySequence : string -> KittyResult;
  isPasteModeBoundary : string -> PasteBoundary;
  isFocusEvent : string -> FocusEvent;
  mapAltKeyCharacter : string -> option string;
  isDragStart : string -> bool;
  MAX_KITTY_SEQUENCE_LENGTH : nat
}.

End Keys.

(** ** The provider *)
Module KeyboardProvider.
Import Keys.

Definition TimerId := nat.

(** What a pending [setTimeout] will run. The callback of the drag timer
    calls the [completeDrag] of the render that made the effect, which
    holds the [dragBuffer] of that render (source lines 186-193). *)
Inductive TimerCallback :=
| CompleteDrag (dragBuffer : string)
| BackslashTimeout (parsedKey : Key).

(** The [useRef] cells of the component. A timer cell holds the handle of
    the last timer stored in it. *)
Record Refs := mkRefs {
  isPasteRef : bool;
  pasteBufferRef : string;
  isDraggingRef : bool;
  dragTimerRef : option TimerId;
  backslashTimerRef : option TimerId;
  waitingForEnterRef : bool
}.

(** The keyboard atoms of the store that the provider reads and writes. *)
Record Atoms := mkAtoms {
  isPasteMode : bool;
  pasteBuffer : string;
  isDragMode : bool;
  dragBuffer : string;
  kittySequenceBuffer : string;
  kittyProtocolEnabled : bool
}.

(** The timers of the runtime that were set and have neither fired nor been
    cleared. *)
Record Timers := mkTimers {
  pending : list (TimerId * TimerCallback);
  nextTimerId : TimerId
}.

(** The values that the last render of the component read from the store:
    [pasteBuffer], [dragBuffer], [kittyBuffer] and [isKittyEnabled] of source
    lines 135-138. The handlers, the callbacks and the cleanup of the effect
    that this render made hold these values, whatever the atoms hold by
    now. *)
Record Rendered := mkRendered {
  renderedPasteBuffer : string;
  renderedDragBuffer : string;
  renderedKittyBuffer : string;
  renderedKittyEnabled : bool
}.

Record State := mkState {
  refs : Refs;
  atoms : Atoms;
  timers : Timers;
  rendered : Rendered
}.

(** What a handler does to the outside: it broadcasts a key to the
    subscribers or writes bytes to the keypress stream. *)
Inductive Effect :=
| Broadcast (k : Key)
| Write (chunk : string).

(** A handler body: it reads and updates the state, performs effects in
    order, and returns, or ([None]) never returns. *)
Definition M (A : Type) : Type := State -> option (A * State * list Effect).

Definition ret {A} (a : A) : M A := fun st => Some (a, st, []).

Definition bind {A B} (m : M A) (f : A -> M B) : M B :=
  fun st =>
    match m st with
    | None => None
    | Some (a, st1, out1) =>
        match f a st1 with
        | None => None
        | Some (b, st2, out2) => Some (b, st2, out1 ++ out2)
        end
    end.

Definition diverge {A} : M A := fun _ => None.

Definition gets {A} (f : State -> A) : M A := fun st => Some (f st, st, []).
Definition modify (f : State -> State) : M unit := fun st => Some (tt, f st, []).
Definition emit (e : Effect) : M unit := fun st => Some (tt, st, [e]).
Definition when (b : bool) (m : M unit) : M unit := if b then m else ret tt.

Declare Scope handler_scope.
Delimit Scope handler_scope with handler.
Notation "x <- m ;; k" := (bind m (fun x => k))
  (at level 61, m at next level, right associativity) : handler_scope.
Notation "' pat <- m ;; k" := (bind m (fun x => match x with pat => k end))
  (at level 61, pat pattern, m at next level, right associativity) : handler_scope.
Notation "m ;; k" := (bind m (fun _ => k))
  (at level 61, right associativity) : handler_scope.
Local Open Scope handler_scope.

(** *** Cells *)

Definition onRefs (f : Refs -> Refs) : M unit :=
  modify (fun st => mkState (f (refs st)) (atoms st) (timers st) (rendered st)).
Definition onAtoms (f : Atoms -> Atoms) : M unit :=
  modify (fun st => mkState (refs st) (f (atoms st)) (timers st) (rendered st)).
Definition onTimers (f : Timers -> Timers) : M unit :=
  modify (fun st => mkState (refs st) (atoms st) (f (timers st)) (rendered st)).
Definition set_rendered (values : Rendered) : M unit :=
  modify (fun st => mkState (refs st) (atoms st) (timers st) values).

Definition set_isPasteRef (v : bool) : M unit :=
  onRefs (fun r => mkRefs v (pasteBufferRef r) (isDraggingRef r) (dragTimerRef r)
                          (backslashTimerRef r) (waitingForEnterRef r)).
Definition set_pasteBufferRef (v : string) : M unit :=
  onRefs (fun r => mkRefs (isPasteRef r) v (isDraggingRef r) (dragTimerRef r)
                          (backslashTimerRef r) (waitingForEnterRef r)).
Definition set_isDraggingRef (v : bool) : M unit :=
  onRefs (fun r => mkRefs (isPasteRef r) (pasteBufferRef r) v (dragTimerRef r)
                          (backslashTimerRef r) (waitingForEnterRef r)).
Definition set_dragTimerRef (v : option TimerId) : M unit :=
  onRefs (fun r => mkRefs (isPasteRef r) (pasteBufferRef r) (isDraggingRef r) v
                          (backslashTimerRef r) (waitingForEnterRef r)).
Definition set_backslashTimerRef (v : option TimerId) : M unit :=
  onRefs (fun r => mkRefs (isPasteRef r) (pasteBufferRef r) (isDraggingRef r)
                          (dragTimerRef r) v (waitingForEnterRef r)).
Definition set_waitingForEnterRef (v : bool) : M unit :=
  onRefs (fun r => mkRefs (isPasteRef r) (pasteBufferRef r) (isDraggingRef r)
                          (dragTimerRef r) (backslashTimerRef r) v).

(** The write atoms of state/atoms/keyboard are not among the sources; each
    is modelled from what the specification says of the decoder state. *)

(** Modelled from the spec: [setPasteModeAtom], which is missing. The paste
    mode atom holds the flag it is given. *)
Definition setPasteMode (v : bool) : M unit :=
  onAtoms (fun a => mkAtoms v (pasteBuffer a) (isDragMode a) (dragBuffer a)
                            (kittySequenceBuffer a) (kittyProtocolEnabled a)).

(** Modelled from the spec: [setDragModeAtom], which is missing. The drag
    mode atom holds the flag it is given. *)
Definition setDragMode (v : bool) : M unit :=
  onAtoms (fun a => mkAtoms (isPasteMode a) (pasteBuffer a) v (dragBuffer a)
                            (kittySequenceBuffer a) (kittyProtocolEnabled a)).

(** Modelled from the spec: [appendToPasteBufferAtom], which is missing. The
    text is added at the end of the paste accumulator. *)
Definition appendToPasteBuffer (text : string) : M unit :=
  onAtoms (fun a => mkAtoms (isPasteMode a) (pasteBuffer a ++ text)%string (isDragMode a)
                            (dragBuffer a) (kittySequenceBuffer a) (kittyProtocolEnabled a)).

(** Modelled from the spec: [appendToDragBufferAtom], which is missing. The
    text is added at the end of the drag accumulator. *)
Definition appendToDragBuffer (text : string) : M unit :=
  onAtoms (fun a => mkAtoms (isPasteMode a) (pasteBuffer a) (isDragMode a)
                            (dragBuffer a ++ text)%string (kittySequenceBuffer a)
                            (kittyProtocolEnabled a)).

(** Modelled from the spec: [appendToKittyBufferAtom], which is missing. The
    text is added at the end of the extended-sequence accumulator. *)
Definition appendToKittyBuffer (text : string) : M unit :=
  onAtoms (fun a => mkAtoms (isPasteMode a) (pasteBuffer a) (isDragMode a) (dragBuffer a)
                            (kittySequenceBuffer a ++ text)%string (kittyProtocolEnabled a)).

(** Modelled from the spec: [clearKittyBufferAtom], which is missing. The
    extended-sequence accumulator is emptied. *)
Definition clearKittyBuffer : M unit :=
  onAtoms (fun a => mkAtoms (isPasteMode a) (pasteBuffer a) (isDragMode a) (dragBuffer a)
                            "" (kittyProtocolEnabled a)).

(** Modelled from the spec: [clearBuffersAtom], which is missing. The
    paste, drag and extended-sequence accumulators are emptied. *)
Definition clearBuffers : M unit :=
  onAtoms (fun a => mkAtoms (isPasteMode a) "" (isDragMode a) "" "" (kittyProtocolEnabled a)).

(** Modelled from the spec: [broadcastKeyEventAtom], which is missing. The
    key is delivered to the subscribers; here it is the effect of the
    handler. *)
Definition broadcastKey (k : Key) : M unit := emit (Broadcast k).

(** *** Timers *)

Definition removeTimer (id : TimerId) (l : list (TimerId * TimerCallback)) :=
  filter (fun p => negb (Nat.eqb (fst p) id)) l.

Fixpoint findTimer (id : TimerId) (l : list (TimerId * TimerCallback)) : option TimerCallback :=
  match l with
  | [] => None
  | (i, cb) :: rest => if Nat.eqb i id then Some cb else findTimer id rest
  end.

Definition setTimeout (cb : TimerCallback) : M TimerId :=
  fun st =>
    let id := nextTimerId (timers st) in
    Some (id,
          mkState (refs st) (atoms st) (mkTimers (pending (timers st) ++ [(id, cb)]) (S id))
                  (rendered st),
          []).

Definition clearTimeout (id : TimerId) : M unit :=
  onTimers (fun t => mkTimers (removeTimer id (pending t)) (nextTimerId t)).

(** [clearDragTimer], source lines 155-160. *)
Definition clearDragTimer : M unit :=
  h <- gets (fun st => dragTimerRef (refs st)) ;;
  match h with
  | Some id => clearTimeout id ;; set_dragTimerRef None
  | None => ret tt
  end.

(** [clearBackslashTimer], source lines 163-168. *)
Definition clearBackslashTimer : M unit :=
  h <- gets (fun st => backslashTimerRef (refs st)) ;;
  match h with
  | Some id => clearTimeout id ;; set_backslashTimerRef None
  | None => ret tt
  end.

(** *** Completion callbacks *)

(** [completePaste], source lines 171-183. *)
Definition completePaste : M unit :=
  currentBuffer <- gets (fun st => pasteBufferRef (refs st)) ;;
  isPaste <- gets (fun st => isPasteRef (refs st)) ;;
  if (isPaste && Js.truthy currentBuffer)%bool then
    let normalizedBuffer := Js.replaceCR (Js.replaceCRLF currentBuffer) in
    broadcastKey (createPasteKey normalizedBuffer) ;;
    setPasteMode false ;;
    set_isPasteRef false ;;
    set_pasteBufferRef ""
  else ret tt.

(** [completeDrag], source lines 186-193. [dragBuffer] is the value that
    the render which made the callback read from the drag buffer atom. *)
Definition completeDrag (dragBuffer : string) : M unit :=
  isDragging <- gets (fun st => isDraggingRef (refs st)) ;;
  (if (isDragging && Js.truthy dragBuffer)%bool then
     broadcastKey (createPasteKey dragBuffer) ;;
     setDragMode false ;;
     set_isDraggingRef false
   else ret tt) ;;
  clearDragTimer.

(** *** The effect and its renders *)

(** What the cleanup of the effect does to the cells, the store and the
    timers, source lines 517-524. The [completeDrag] it calls is the one of
    the render that made the effect. *)
Definition flushPending : M unit :=
  dragBuffer <- gets (fun st => renderedDragBuffer (rendered st)) ;;
  clearDragTimer ;;
  clearBackslashTimer ;;
  completePaste ;;
  completeDrag dragBuffer ;;
  clearBuffers.

(** The values that a render reads from the store (source lines 135-138). *)
Definition readAtoms (a : Atoms) : Rendered :=
  mkRendered (pasteBuffer a) (dragBuffer a) (kittySequenceBuffer a) (kittyProtocolEnabled a).

Definition sameRendered (x y : Rendered) : bool :=
  ((renderedPasteBuffer x =? renderedPasteBuffer y)%string
   && (renderedDragBuffer x =? renderedDragBuffer y)%string
   && (renderedKittyBuffer x =? renderedKittyBuffer y)%string
   && Bool.eqb (renderedKittyEnabled x) (renderedKittyEnabled y))%bool.

(** A render of the component and the commit that follows it. The render
    reads the atoms; the four values are dependencies of the effect (source
    lines 538-541, and line 544 for [completeDrag], which changes with
    [dragBuffer]), so when one of them differs from what the last render
    read, the cleanup of the effect runs, with the values it holds, and the
    effect runs anew with the values just read. The handlers that are
    attached from then on hold the new values. What the cleanup and the new
    run of the effect do to the terminal, to readline and to the listeners
    (source lines 197-243 and 494-515) leaves the cells, the store and the
    timers as they are; the protocol detection of the new run is taken to
    give the answer it gave before. The debug flag, the fifth value a render
    reads, only switches the logging and is left out with it. *)
Definition render : M unit :=
  values <- gets (fun st => readAtoms (atoms st)) ;;
  held <- gets rendered ;;
  if sameRendered values held then ret tt
  else flushPending ;; set_rendered values.

Section Handlers.
Context {parsing : KeyParsing}.

(** Whether the provider intercepts raw bytes ([usePassthrough], source
    lines 226-231); fixed for the session. *)
Variable usePassthrough : bool.

(** The [while (buffer)] loop of source lines 368-390. Every turn that
    goes on shortens [buffer], except a parse that reports a key and a
    consumed length of zero: the loop then runs for ever on the same
    buffer. [fuel] bounds the number of turns. *)
Fixpoint kittyLoop (fuel : nat) (buffer : string) (parsedAny : bool) : M (string * bool) :=
  match fuel with
  | 0 => diverge
  | S fuel' =>
      if negb (Js.truthy buffer) then ret (buffer, parsedAny)
      else
        let bufferResult := parseKittySequence buffer in
        match key bufferResult with
        | None =>
            match Js.indexOf ESC 1 buffer with
            | Some nextStart =>
                if Nat.ltb 0 nextStart
                then kittyLoop fuel' (Js.sliceFrom nextStart buffer) parsedAny
                else ret (buffer, parsedAny)
            | None => ret (buffer, parsedAny)
            end
        | Some k =>
            if Nat.eqb (consumedLength bufferResult) 0 then diverge
            else
              broadcastKey k ;;
              kittyLoop fuel' (Js.sliceFrom (consumedLength bufferResult) buffer) true
        end
  end.

(** Source lines 347-409. [kittyBuffer] and [isKittyEnabled] are the
    values the handler holds: those of the render that made it. The
    result tells whether
    the handler has returned ([true]) or goes on to the Ctrl+C check. *)
Definition handleKittySequence (isKittyEnabled : bool) (kittyBuffer : string)
           (parsedKey : Key) : M bool :=
  if (isKittyEnabled && Js.startsWith ESC (sequence parsedKey))%bool then
    let result := parseKittySequence (sequence parsedKey) in
    match key result with
    | Some k => broadcastKey k ;; ret true
    | None =>
        appendToKittyBuffer (sequence parsedKey) ;;
        let buffer0 := (kittyBuffer ++ sequence parsedKey)%string in
        '(buffer, parsedAny) <- kittyLoop (S (String.length buffer0)) buffer0 false ;;
        if parsedAny : bool then
          clearKittyBuffer ;;
          when (Js.truthy buffer) (appendToKittyBuffer buffer) ;;
          ret true
        else if Nat.ltb MAX_KITTY_SEQUENCE_LENGTH (String.length kittyBuffer) then
          clearKittyBuffer ;; ret false
        else ret true
    end
  else ret false.

(** Source lines 347-417: the extended-protocol stage, then the Ctrl+C
    check and the broadcast of the unit as it is. *)
Definition handleSequence (isKittyEnabled : bool) (kittyBuffer : string)
           (parsedKey : Key) : M unit :=
  returned <- handleKittySequence isKittyEnabled kittyBuffer parsedKey ;;
  if returned : bool then ret tt
  else
    when (ctrl parsedKey && (name parsedKey =? "c")%string)%bool clearBuffers ;;
    broadcastKey parsedKey.

(** Source lines 306-417: what the handler does with a unit that is
    neither a focus report nor paste or drag framing nor an Alt letter. *)
Definition handleKey (isKittyEnabled : bool) (kittyBuffer : string)
           (parsedKey : Key) : M unit :=
  waiting <- gets (fun st => waitingForEnterRef (refs st)) ;;
  if ((name parsedKey =? "return")%string && waiting)%bool then
    clearBackslashTimer ;;
    set_waitingForEnterRef false ;;
    broadcastKey (withShift parsedKey)
  else if ((sequence parsedKey =? ESC_CR)%string
           || (sequence parsedKey =? ESC_LF)%string)%bool then
    broadcastKey (mkKey "return" (sequence parsedKey) false false true false)
  else if ((sequence parsedKey =? BACKSLASH)%string
           && negb (Js.truthy (name parsedKey)))%bool then
    set_waitingForEnterRef true ;;
    id <- setTimeout (BackslashTimeout parsedKey) ;;
    set_backslashTimerRef (Some id)
  else
    when (waiting && negb (name parsedKey =? "return")%string)%bool
         (clearBackslashTimer ;;
          set_waitingForEnterRef false ;;
          broadcastKey (createSpecialKey "" BACKSLASH)) ;;
    handleSequence isKittyEnabled kittyBuffer parsedKey.

(** [handleKeypress], source lines 244-418, on the key record that
    [parseReadlineKey] made of the readline key. *)
Definition handleKeypress (parsedKey : Key) : M unit :=
  isKittyEnabled <- gets (fun st => renderedKittyEnabled (rendered st)) ;;
  kittyBuffer <- gets (fun st => renderedKittyBuffer (rendered st)) ;;
  dragBuffer <- gets (fun st => renderedDragBuffer (rendered st)) ;;
  let focus := isFocusEvent (sequence parsedKey) in
  if (isFocusIn focus || isFocusOut focus)%bool then ret tt
  else
    let paste := isPasteModeBoundary (sequence parsedKey) in
    if isStart paste then
      set_isPasteRef true ;;
      set_pasteBufferRef "" ;;
      setPasteMode true
    else if isEnd paste then completePaste
    else
      isPaste <- gets (fun st => isPasteRef (refs st)) ;;
      if isPaste : bool then
        when (negb usePassthrough)
             (pb <- gets (fun st => pasteBufferRef (refs st)) ;;
              set_pasteBufferRef (pb ++ sequence parsedKey)%string ;;
              appendToPasteBuffer (sequence parsedKey))
      else
        isDragging <- gets (fun st => isDraggingRef (refs st)) ;;
        if (isDragStart (sequence parsedKey) || isDragging)%bool then
          set_isDraggingRef true ;;
          appendToDragBuffer (sequence parsedKey) ;;
          clearDragTimer ;;
          id <- setTimeout (CompleteDrag dragBuffer) ;;
          set_dragTimerRef (Some id)
        else
          match mapAltKeyCharacter (sequence parsedKey) with
          | Some mappedLetter =>
              if (Js.truthy mappedLetter && negb (meta parsedKey))%bool then
                broadcastKey (withAltName mappedLetter parsedKey)
              else handleKey isKittyEnabled kittyBuffer parsedKey
          | None => handleKey isKittyEnabled kittyBuffer parsedKey
          end.

(** The choice of source lines 432-442 between the two markers found
    from [pos] on: the position of the next marker and whether it is the
    start marker. *)
Definition nextMarker (prefixPos suffixPos : option nat) : option (nat * bool) :=
  match prefixPos, suffixPos with
  | Some p, None => Some (p, true)
  | Some p, Some s => if Nat.ltb p s then Some (p, true) else Some (s, false)
  | None, Some s => Some (s, false)
  | None, None => None
  end.

(** What source lines 446-454 and 460-468 do with a stretch of data that
    holds no marker: into the paste buffer during a paste, to the keypress
    stream otherwise. *)
Definition accumulateOrForward (chunk : string) : M unit :=
  isPaste <- gets (fun st => isPasteRef (refs st)) ;;
  if isPaste : bool then
    pb <- gets (fun st => pasteBufferRef (refs st)) ;;
    set_pasteBufferRef (pb ++ chunk)%string ;;
    appendToPasteBuffer chunk
  else emit (Write chunk).

(** The [while (pos < dataStr.length)] loop of source lines 427-483.
    Every turn that goes on moves [pos] past a marker; [fuel] bounds the
    number of turns. *)
Fixpoint scanRawData (fuel : nat) (dataStr : string) (pos : nat) : M unit :=
  match fuel with
  | 0 => diverge
  | S fuel' =>
      if Nat.ltb pos (String.length dataStr) then
        let prefixPos := Js.indexOf PASTE_MODE_PREFIX pos dataStr in
        let suffixPos := Js.indexOf PASTE_MODE_SUFFIX pos dataStr in
        match nextMarker prefixPos suffixPos with
        | None => accumulateOrForward (Js.sliceFrom pos dataStr)
        | Some (nextMarkerPos, isPrefixNext) =>
            when (Nat.ltb pos nextMarkerPos)
                 (accumulateOrForward (Js.slice pos nextMarkerPos dataStr)) ;;
            if isPrefixNext : bool then
              set_isPasteRef true ;;
              set_pasteBufferRef "" ;;
              setPasteMode true ;;
              scanRawData fuel' dataStr (nextMarkerPos + String.length PASTE_MODE_PREFIX)
            else
              completePaste ;;
              scanRawData fuel' dataStr (nextMarkerPos + String.length PASTE_MODE_SUFFIX)
        end
      else ret tt
  end.

(** [handleRawData], source lines 421-484, on the text of the chunk. The
    chunk is taken to hold characters of one byte each, so that a position
    in its text is the same position in its bytes: source lines 453 and 467
    cut the bytes at positions of the text. *)
Definition handleRawData (dataStr : string) : M unit :=
  if negb usePassthrough then ret tt
  else scanRawData (S (String.length dataStr)) dataStr 0.

(** *** The runtime *)

(** The body of a timer: source lines 289-291 and 333-336. *)
Definition runCallback (cb : TimerCallback) : M unit :=
  match cb with
  | CompleteDrag dragBuffer => completeDrag dragBuffer
  | BackslashTimeout parsedKey =>
      set_waitingForEnterRef false ;;
      broadcastKey parsedKey
  end.

(** The runtime runs a pending timer once; a timer that was cleared, or
    has run, does nothing. *)
Definition fireTimer (id : TimerId) : M unit :=
  p <- gets (fun st => pending (timers st)) ;;
  match findTimer id p with
  | Some cb =>
      onTimers (fun t => mkTimers (removeTimer id (pending t)) (nextTimerId t)) ;;
      runCallback cb
  | None => ret tt
  end.

(** What happens to the provider: a keypress of the keypress stream, a
    chunk of raw data of the terminal, a timer that has run out, or a render
    of the component. The inputs between two renders are handled in one
    tick, by the handlers of one run of the effect. *)
Inductive Input :=
| Keypress (parsedKey : Key)
| RawData (dataStr : string)
| TimerFires (id : TimerId)
| Render.

Definition step (i : Input) : M unit :=
  match i with
  | Keypress parsedKey => handleKeypress parsedKey
  | RawData dataStr => handleRawData dataStr
  | TimerFires id => fireTimer id
  | Render => render
  end.

Fixpoint run (inputs : list Input) : M unit :=
  match inputs with
  | [] => ret tt
  | i :: rest => step i ;; run rest
  end.

(** *** The precedence of the handler, read off a unit *)

(** The unit is a focus report (source lines 255-258). *)
Definition isFocusReport (parsedKey : Key) : bool :=
  (isFocusIn (isFocusEvent (sequence parsedKey))
   || isFocusOut (isFocusEvent (sequence parsedKey)))%bool.

(** The unit is neither a focus report nor a paste marker: during a
    paste it is captured (source lines 275-281). *)
Definition isPasteContent (parsedKey : Key) : bool :=
  (negb (isFocusReport parsedKey)
   && negb (isStart (isPasteModeBoundary (sequence parsedKey)))
   && negb (isEnd (isPasteModeBoundary (sequence parsedKey))))%bool.

(** The Alt letter test of source lines 296-297 succeeds. *)
Definition isAltLetter (parsedKey : Key) : bool :=
  match mapAltKeyCharacter (sequence parsedKey) with
  | Some mappedLetter => (Js.truthy mappedLetter && negb (meta parsedKey))%bool
  | None => false
  end.

(** The unit opens a paste (source lines 262-267), or closes one (source
    lines 268-271). *)
Definition isPasteStart (parsedKey : Key) : bool :=
  (negb (isFocusReport parsedKey)
   && isStart (isPasteModeBoundary (sequence parsedKey)))%bool.
Definition isPasteEnd (parsedKey : Key) : bool :=
  (negb (isFocusReport parsedKey)
   && negb (isStart (isPasteModeBoundary (sequence parsedKey)))
   && isEnd (isPasteModeBoundary (sequence parsedKey)))%bool.

(** Outside paste and drag capture the unit gets past source line 304:
    it is no focus report, no paste marker, no drag start and no Alt
    letter. *)
Definition reachesHandleKey (parsedKey : Key) : bool :=
  (isPasteContent parsedKey
   && negb (isDragStart (sequence parsedKey))
   && negb (isAltLetter parsedKey))%bool.

(** The unit is one of the three that source lines 307-338 answer
    whatever is pending: a Return, ESC with CR or LF, a lone backslash. *)
Definition isReturn (parsedKey : Key) : bool := (name parsedKey =? "return")%string.
Definition isEscapedEnter (parsedKey : Key) : bool :=
  ((sequence parsedKey =? ESC_CR)%string || (sequence parsedKey =? ESC_LF)%string)%bool.
Definition isLoneBackslash (parsedKey : Key) : bool :=
  ((sequence parsedKey =? BACKSLASH)%string && negb (Js.truthy (name parsedKey)))%bool.

(** No complete sequence can be parsed at any position of [buffer]. *)
Definition nothingParses (buffer : string) : Prop :=
  forall n, key (parseKittySequence (Js.sliceFrom n buffer)) = None.

(** The unit is one that source lines 340-417 handle: not a Return that
    answers a pending backslash, not ESC with CR or LF, not a lone
    backslash. *)
Definition isOrdinary (waiting : bool) (parsedKey : Key) : bool :=
  (negb (isReturn parsedKey && waiting)
   && negb (isEscapedEnter parsedKey)
   && negb (isLoneBackslash parsedKey))%bool.

(** The unit reaches the extended-protocol stage with nothing pending,
    starts with ESC, and nothing of it can be parsed behind [kittyBuffer]. *)
Definition isUnparsedUnit (kittyBuffer : string) (parsedKey : Key) : Prop :=
  reachesHandleKey parsedKey = true
  /\ isOrdinary false parsedKey = true
  /\ Js.startsWith ESC (sequence parsedKey) = true
  /\ nothingParses (kittyBuffer ++ sequence parsedKey).

(** A parse that reports a key has consumed something. *)
Definition parserProgress : Prop :=
  forall buffer k,
    key (parseKittySequence buffer) = Some k ->
    0 < consumedLength (parseKittySequence buffer).

(** Neither marker occurs anywhere in [s]. *)
Definition markerFree (s : string) : bool :=
  match Js.indexOf PASTE_MODE_PREFIX 0 s, Js.indexOf PASTE_MODE_SUFFIX 0 s with
  | None, None => true
  | _, _ => false
  end.

(** The unit is a Ctrl+C as source line 412 tests it. *)
Definition isCtrlC (parsedKey : Key) : bool :=
  (ctrl parsedKey && (name parsedKey =? "c")%string)%bool.

(** The extended-protocol stage of source lines 347-409 does not return
    on the unit: the handler goes on to the Ctrl+C check of line 412. *)
Definition passesKittyStage (parsedKey : Key) (st : State) : bool :=
  match handleKittySequence (renderedKittyEnabled (rendered st))
                            (renderedKittyBuffer (rendered st)) parsedKey st with
  | Some (returned, _, _) => negb returned
  | None => false
  end.

(** Outside paste and drag capture the unit reaches the Ctrl+C check of
    source line 412: the rules before line 340 leave it alone, and the
    extended-protocol stage lets it through. *)
Definition reachesCtrlCStep (parsedKey : Key) (st : State) : bool :=
  (reachesHandleKey parsedKey
   && isOrdinary (waitingForEnterRef (refs st)) parsedKey
   && passesKittyStage parsedKey st)%bool.

End Handlers.

(** Neither paste nor drag capture is going on. *)
Definition notCapturing (st : State) : bool :=
  (negb (isPasteRef (refs st)) && negb (isDraggingRef (refs st)))%bool.

(** The state once a paste has been opened: what source lines 263-265
    leave. *)
Definition pasteStarted (st : State) : State :=
  mkState (mkRefs true "" (isDraggingRef (refs st)) (dragTimerRef (refs st))
                  (backslashTimerRef (refs st)) (waitingForEnterRef (refs st)))
          (mkAtoms true (pasteBuffer (atoms st)) (isDragMode (atoms st))
                   (dragBuffer (atoms st)) (kittySequenceBuffer (atoms st))
                   (kittyProtocolEnabled (atoms st)))
          (timers st) (rendered st).

(** The state once [text] has been captured into the paste buffers: what
    source lines 277-278 leave. *)
Definition pasteCaptured (text : string) (st : State) : State :=
  mkState (mkRefs (isPasteRef (refs st)) (pasteBufferRef (refs st) ++ text)%string
                  (isDraggingRef (refs st)) (dragTimerRef (refs st))
                  (backslashTimerRef (refs st)) (waitingForEnterRef (refs st)))
          (mkAtoms (isPasteMode (atoms st)) (pasteBuffer (atoms st) ++ text)%string
                   (isDragMode (atoms st)) (dragBuffer (atoms st))
                   (kittySequenceBuffer (atoms st)) (kittyProtocolEnabled (atoms st)))
          (timers st) (rendered st).

(** The state once a paste has been flushed: what source lines 179-181
    leave. *)
Definition pasteCompleted (st : State) : State :=
  mkState (mkRefs false "" (isDraggingRef (refs st)) (dragTimerRef (refs st))
                  (backslashTimerRef (refs st)) (waitingForEnterRef (refs st)))
          (mkAtoms false (pasteBuffer (atoms st)) (isDragMode (atoms st))
                   (dragBuffer (atoms st)) (kittySequenceBuffer (atoms st))
                   (kittyProtocolEnabled (atoms st)))
          (timers st) (rendered st).

(** The paste event that is due when the cleanup of the effect runs, for
    the paste that is captured (source lines 172-177), and the one that is
    due for the drag (source lines 187-188). *)
Definition pasteIsDue (st : State) : bool :=
  (isPasteRef (refs st) && Js.truthy (pasteBufferRef (refs st)))%bool.
Definition dragIsDue (st : State) : bool :=
  (isDraggingRef (refs st) && Js.truthy (renderedDragBuffer (rendered st)))%bool.

Definition pendingPaste (st : State) : list Key :=
  if (isPasteRef (refs st) && Js.truthy (pasteBufferRef (refs st)))%bool
  then [createPasteKey (Js.replaceCR (Js.replaceCRLF (pasteBufferRef (refs st))))]
  else [].

Definition pendingDrag (st : State) : list Key :=
  if (isDraggingRef (refs st) && Js.truthy (renderedDragBuffer (rendered st)))%bool
  then [createPasteKey (renderedDragBuffer (rendered st))]
  else [].

(** The pending timers without the one that a timer cell holds. *)
Definition withoutTimer (handle : option TimerId) (l : list (TimerId * TimerCallback))
  : list (TimerId * TimerCallback) :=
  match handle with
  | Some id => removeTimer id l
  | None => l
  end.

(** The state that the cleanup of the effect leaves, source lines 517-524:
    the two timers cleared, the paste and the drag that were due flushed,
    and the buffers of the store emptied. *)
Definition flushed (st : State) : State :=
  mkState (mkRefs (if pasteIsDue st then false else isPasteRef (refs st))
                  (if pasteIsDue st then "" else pasteBufferRef (refs st))
                  (if dragIsDue st then false else isDraggingRef (refs st))
                  None None (waitingForEnterRef (refs st)))
          (mkAtoms (if pasteIsDue st then false else isPasteMode (atoms st)) ""
                   (if dragIsDue st then false else isDragMode (atoms st)) "" ""
                   (kittyProtocolEnabled (atoms st)))
          (mkTimers (withoutTimer (backslashTimerRef (refs st))
                       (withoutTimer (dragTimerRef (refs st)) (pending (timers st))))
                    (nextTimerId (timers st)))
          (rendered st).

(** The state with the values of a new render. *)
Definition withRendered (values : Rendered) (st : State) : State :=
  mkState (refs st) (atoms st) (timers st) values.

(** The broadcasts of keys, as effects. *)
Definition broadcastAll (keys : list Key) : list Effect := map Broadcast keys.

(** The text of a run of units, in the order they came. *)
Fixpoint capturedText (content : list Key) : string :=
  match content with
  | [] => EmptyString
  | k :: rest => (sequence k ++ capturedText rest)%string
  end.

(** The state once the pending backslash is given up: what source lines
    341-342 (and 308-309) leave. *)
Definition backslashCancelled (st : State) : State :=
  match (clearBackslashTimer ;; set_waitingForEnterRef false)%handler st with
  | Some (_, st', _) => st'
  | None => st
  end.

(** The state once a lone backslash has armed its timer: what source lines
    332-336 leave. *)
Definition backslashArmed (parsedKey : Key) (st : State) : State :=
  match (set_waitingForEnterRef true ;;
         id <- setTimeout (BackslashTimeout parsedKey) ;;
         set_backslashTimerRef (Some id))%handler st with
  | Some (_, st', _) => st'
  | None => st
  end.

(** The event is a Return with Shift. *)
Definition isShiftReturn (ev : Key) : bool :=
  ((name ev =? "return")%string && shift ev)%bool.

(** Every pending timer was handed out by [setTimeout]. *)
Definition timersOk (st : State) : Prop :=
  Forall (fun p => fst p < nextTimerId (timers st)) (pending (timers st)).

(** The timers stay such. *)
Definition keepsTimersOk (st st' : State) : Prop := timersOk st -> timersOk st'.

(** A handler body returns, whatever the state it starts in. *)
Definition returns {A} (m : M A) : Prop := forall st, exists r, m st = Some r.

(** A handler body keeps a relation between the state it starts in and the
    state it returns in. *)
Definition preserves {A} (R : State -> State -> Prop) (m : M A) : Prop :=
  forall st a st' out, m st = Some (a, st', out) -> R st st'.

(** Neither capture flag has changed. *)
Definition sameCapture (st st' : State) : Prop :=
  isPasteRef (refs st') = isPasteRef (refs st)
  /\ isDraggingRef (refs st') = isDraggingRef (refs st).

(** Drag capture has not changed. *)
Definition sameDrag (st st' : State) : Prop :=
  isDraggingRef (refs st') = isDraggingRef (refs st).

(** Paste capture has not changed and drag capture has not begun. *)
Definition noNewDrag (st st' : State) : Prop :=
  isPasteRef (refs st') = isPasteRef (refs st)
  /\ (isDraggingRef (refs st') = true -> isDraggingRef (refs st) = true).

(** Drag capture has not begun. *)
Definition noDragStarted (st st' : State) : Prop :=
  isDraggingRef (refs st') = true -> isDraggingRef (refs st) = true.

(** The state with the extended-sequence buffer replaced. *)
Definition withKittyBuffer (buffer : string) (st : State) : State :=
  mkState (refs st)
          (mkAtoms (isPasteMode (atoms st)) (pasteBuffer (atoms st)) (isDragMode (atoms st))
                   (dragBuffer (atoms st)) buffer (kittyProtocolEnabled (atoms st)))
          (timers st) (rendered st).

(** The state once [clearBuffers] has run. *)
Definition buffersCleared (st : State) : State :=
  mkState (refs st)
          (mkAtoms (isPasteMode (atoms st)) "" (isDragMode (atoms st)) "" ""
                   (kittyProtocolEnabled (atoms st)))
          (timers st) (rendered st).

(** A result with one more effect in front of its own. *)
Definition emitFirst {A} (e : Effect) (r : option (A * State * list Effect))
  : option (A * State * list Effect) :=
  match r with
  | Some (a, st, out) => Some (a, st, e :: out)
  | None => None
  end.

(** The keys broadcast among the effects, in order. *)
Fixpoint broadcasts (out : list Effect) : list Key :=
  match out with
  | [] => []
  | Broadcast k :: rest => k :: broadcasts rest
  | Write _ :: rest => broadcasts rest
  end.

(** The state of a provider that has just been mounted, once the protocol
    detection has set [kittyProtocolEnabled] and the component has rendered
    with it. *)
Definition initialState (kitty : bool) : State :=
  mkState (mkRefs false "" false None None false)
          (mkAtoms false "" false "" "" kitty)
          (mkTimers [] 0)
          (mkRendered "" "" "" kitty).

(** The effects of a handler that returns. *)
Definition output {A} (r : option (A * State * list Effect)) : option (list Effect) :=
  match r with Some (_, _, out) => Some out | None => None end.

End KeyboardProvider.

(** ** A key parsing instance

    Modelled from the spec: utils/keyParsing and constants/keyboard, which are
    not among the sources. The paste markers and the focus reports are matched
    as whole sequences, Alt with a letter arrives as ESC and the letter, and
    the accumulator bound is 256. Where the specification names no sequence,
    the usual ones of terminals are taken: the focus reports are [ESC[I] and
    [ESC[O], a drag starts with a quote character, and an extended-protocol
    sequence is [ESC [ code u] or [ESC [ code ; modifiers u]. The theorems
    hold for every instance; this one serves to run the provider on concrete
    input. *)
Module Reference.
Import Keys.

(** Modelled from the spec: the focus report sequences of
    constants/keyboard, which are missing. *)
Definition FOCUS_IN : string := (ESC ++ "[I")%string.
Definition FOCUS_OUT : string := (ESC ++ "[O")%string.

(** Modelled from the spec: the drag framing prefixes of constants/keyboard,
    which are missing. *)
Definition SINGLE_QUOTE : string := String "039"%char EmptyString.
Definition DOUBLE_QUOTE : string := String "034"%char EmptyString.

(** A decimal digit, and a small letter. *)
Definition isDigit (c : ascii) : bool :=
  (Nat.leb 48 (nat_of_ascii c) && Nat.leb (nat_of_ascii c) 57)%bool.

Definition isLetter (c : ascii) : bool :=
  (Nat.leb 97 (nat_of_ascii c) && Nat.leb (nat_of_ascii c) 122)%bool.

(** The decimal number at the front of [s]: its value, the number of digits
    read, and what follows. *)
Fixpoint readNumber (s : string) (value : N) (digits : nat) : N * nat * string :=
  match s with
  | String c t =>
      if isDigit c then readNumber t (10 * value + (N_of_ascii c - 48))%N (S digits)
      else (value, digits, s)
  | EmptyString => (value, digits, s)
  end.

(** The name of the key with the given code point. *)
Definition keyName (code : N) : string :=
  match code with
  | 9%N => "tab"
  | 13%N => "return"
  | 27%N => "escape"
  | 127%N => "backspace"
  | _ => String (ascii_of_N code) EmptyString
  end.

(** The key of a complete sequence: the modifiers are one more than the bits
    of Shift, Alt and Ctrl. *)
Definition kittyKey (code modifiers : N) (consumed : nat) (buffer : string) : KittyResult :=
  let bits := (modifiers - 1)%N in
  {| key := Some (mkKey (keyName code) (Js.take consumed buffer)
                        (N.testbit bits 2) (N.testbit bits 1) (N.testbit bits 0) false);
     consumedLength := consumed |}.

(** The buffer holds no complete sequence at its front. *)
Definition noKey : KittyResult := {| key := None; consumedLength := 0 |}.

(** Modelled from the spec: [parseKittySequence] of utils/keyParsing, which
    is missing. One complete sequence [ESC [ code u] or
    [ESC [ code ; modifiers u] is parsed from the front of the buffer; an
    incomplete or unrecognized buffer gives no key. *)
Definition parseKittySequence (buffer : string) : KittyResult :=
  match buffer with
  | String e (String b rest) =>
      if (Ascii.eqb e "027"%char && Ascii.eqb b "["%char)%bool then
        match readNumber rest 0 0 with
        | (_, 0, _) => noKey
        | (code, n1, String c rest1) =>
            if Ascii.eqb c "u"%char then kittyKey code 1 (2 + n1 + 1) buffer
            else if Ascii.eqb c ";"%char then
              match readNumber rest1 0 0 with
              | (_, 0, _) => noKey
              | (modifiers, n2, String d _) =>
                  if Ascii.eqb d "u"%char
                  then kittyKey code modifiers (2 + n1 + 1 + n2 + 1) buffer
                  else noKey
              | (_, _, EmptyString) => noKey
              end
            else noKey
        | (_, _, EmptyString) => noKey
        end
      else noKey
  | _ => noKey
  end.

(** Modelled from the spec: [isPasteModeBoundary] of utils/keyParsing, which
    is missing. The sequence is matched against the two marker strings. *)
Definition isPasteModeBoundary (sequence : string) : PasteBoundary :=
  {| isStart := (sequence =? PASTE_MODE_PREFIX)%string;
     isEnd := (sequence =? PASTE_MODE_SUFFIX)%string |}.

(** Modelled from the spec: [isFocusEvent] of utils/keyParsing, which is
    missing. The sequence is matched against the two focus reports. *)
Definition isFocusEvent (sequence : string) : FocusEvent :=
  {| isFocusIn := (sequence =? FOCUS_IN)%string;
     isFocusOut := (sequence =? FOCUS_OUT)%string |}.

(** Modelled from the spec: [mapAltKeyCharacter] of utils/keyParsing, which
    is missing. Alt with a letter arrives as ESC and the letter; the letter is
    recovered. *)
Definition mapAltKeyCharacter (sequence : string) : option string :=
  match sequence with
  | String e (String c EmptyString) =>
      if (Ascii.eqb e "027"%char && isLetter c)%bool
      then Some (String c EmptyString) else None
  | _ => None
  end.

(** Modelled from the spec: [isDragStart] of utils/keyParsing, which is
    missing. The sequence is matched against the drag framing prefixes. *)
Definition isDragStart (sequence : string) : bool :=
  ((sequence =? SINGLE_QUOTE)%string || (sequence =? DOUBLE_QUOTE)%string)%bool.

(** Modelled from the spec: the helpers together, with
    [MAX_KITTY_SEQUENCE_LENGTH] of constants/keyboard, which is missing, at
    256. *)
#[export] Instance parsing : KeyParsing := {|
  Keys.parseKittySequence := parseKittySequence;
  Keys.isPasteModeBoundary := isPasteModeBoundary;
  Keys.isFocusEvent := isFocusEvent;
  Keys.mapAltKeyCharacter := mapAltKeyCharacter;
  Keys.isDragStart := isDragStart;
  Keys.MAX_KITTY_SEQUENCE_LENGTH := 256
|}.

(** Keys as readline reports them. *)
Definition plainKey (n sequence : string) : Key := mkKey n sequence false false false false.
Definition returnKey : Key := plainKey "return" (String Js.CR EmptyString).
Definition backslashKey : Key := plainKey "" BACKSLASH.
Definition ctrlC : Key := mkKey "c" (String "003"%char EmptyString) true false false false.
Definition letterA : Key := plainKey "a" "a".
Definition pasteStartKey : Key := plainKey "" PASTE_MODE_PREFIX.
Definition pasteEndKey : Key := plainKey "" PASTE_MODE_SUFFIX.
Definition focusInKey : Key := plainKey "" FOCUS_IN.
Definition quoteKey : Key := plainKey "" SINGLE_QUOTE.
Definition escapedCarriageReturn : Key := mkKey "return" ESC_CR false true false false.
Definition escapedLineFeed : Key := mkKey "enter" ESC_LF false true false false.
Definition altLetterB : Key := plainKey "" (ESC ++ "b")%string.

(** An extended-protocol sequence, the letter a, and its two halves. *)
Definition kittyLetterA : string := (ESC ++ "[97u")%string.
Definition kittyFirstHalf : Key := plainKey "" (ESC ++ "[9")%string.
Definition kittySecondHalf : Key := plainKey "" "7u".

(** Ctrl+C as the extended protocol writes it. *)
Definition kittyCtrlC : Key := mkKey "c" (ESC ++ "[99;5u")%string true false false false.

(** Whether nothing can be parsed at any position of [buffer], by trying
    each. *)
Definition nothingParsesb (buffer : string) : bool :=
  forallb (fun n => match key (parseKittySequence (Js.sliceFrom n buffer)) with
                    | None => true
                    | Some _ => false
                    end)
          (seq 0 (S (String.length buffer))).

End Reference.

(** ** The event emitter of the host-editor shim *)
Module Vscode.

Section Emitter.
(** The type of the events and the state of the application the
    listeners act on. *)
Variables T W : Type.

(** How a call ends: it returns, or it throws. *)
Inductive Completion :=
| Returned (w : W)
| Threw (w : W).

(** The state of the application after a call, however it ended. *)
Definition stateOf (c : Completion) : W :=
  match c with
  | Returned w => w
  | Threw w => w
  end.

(** A listener is a function object: the set tells two of them apart by
    identity. *)
Definition Listener := nat.

(** What is done to an emitter between two fires, and what a listener may
    do to the emitter that is calling it: [event], the [dispose] of the
    disposable that [event] returned, and the [dispose] of the emitter. *)
Inductive Op :=
| Subscribe (fn : Listener)
| Unsubscribe (fn : Listener)
| DisposeAll.

(** What the call of a listener does, given the event and the state of the
    application: how it ends, and the operations it has carried out on the
    emitter meanwhile, in their order. A listener is taken not to fire the
    emitter that is calling it. *)
Definition Behaviour := Listener -> T -> W -> Completion * list Op.

(** [#listeners], a [Set]: its entries in insertion order. The entry of a
    member that was deleted stays in its place, empty, which is how a
    running iteration of the set sees the deletion. *)
Record EventEmitter := mkEmitter { entries : list (option Listener) }.

Definition isEntry (fn : Listener) (entry : option Listener) : bool :=
  match entry with
  | Some member => Nat.eqb fn member
  | None => false
  end.

(** [Set.prototype.has] *)
Definition setHas (fn : Listener) (s : list (option Listener)) : bool :=
  existsb (isEntry fn) s.

(** [Set.prototype.add] *)
Definition setAdd (fn : Listener) (s : list (option Listener)) : list (option Listener) :=
  if setHas fn s then s else s ++ [Some fn].

(** [Set.prototype.delete] *)
Definition setDelete (fn : Listener) (s : list (option Listener)) : list (option Listener) :=
  map (fun entry => if isEntry fn entry then None else entry) s.

(** [Set.prototype.clear] *)
Definition setClear (s : list (option Listener)) : list (option Listener) :=
  map (fun _ => None) s.

(** The members of the set, in insertion order. *)
Definition members (s : list (option Listener)) : list Listener :=
  flat_map (fun entry => match entry with Some member => [member] | None => [] end) s.

Definition listeners (em : EventEmitter) : list Listener := members (entries em).

Definition newEmitter : EventEmitter := mkEmitter [].

(** [event], source lines 30-44: [fn] is the listener once bound; the
    disposable it returns is told by the listener it removes. *)
Definition event (fn : Listener) (em : EventEmitter) : EventEmitter :=
  mkEmitter (setAdd fn (entries em)).

(** [dispose] of the disposable that [event fn] returned. *)
Definition disposeListener (fn : Listener) (em : EventEmitter) : EventEmitter :=
  mkEmitter (setDelete fn (entries em)).

(** [dispose], source lines 65-67. *)
Definition dispose (em : EventEmitter) : EventEmitter :=
  mkEmitter (setClear (entries em)).

Definition apply (em : EventEmitter) (op : Op) : EventEmitter :=
  match op with
  | Subscribe fn => event fn em
  | Unsubscribe fn => disposeListener fn em
  | DisposeAll => dispose em
  end.

Definition after (ops : list Op) : EventEmitter := fold_left apply ops newEmitter.

(** [try { body } catch { }] *)
Definition tryCatchIgnore (body : Completion) : Completion :=
  match body with
  | Returned w => Returned w
  | Threw w => Returned w
  end.

(** What a fire has done when it ends: how it ended, the emitter it
    leaves, the listeners it called, in the order of the calls, and the
    operations these carried out on the emitter. *)
Record Fired := mkFired {
  completion : Completion;
  emitterAfter : EventEmitter;
  calls : list Listener;
  operations : list Op
}.

(** [for (const listener of this.#listeners) { try { listener(data) }
    catch { } }]: the iteration walks the entries of the set as they are
    when it reaches them, by position. It passes over an empty entry, it
    reaches the entries that are added while it runs, and it ends at the
    first position after the last entry. A body that throws would end the
    loop, and the loop would throw. [fuel] bounds the number of positions
    visited; [None] is a loop that has not ended within it. *)
Fixpoint forOf (call : Behaviour) (fuel : nat) (data : T) (index : nat)
         (em : EventEmitter) (w : W) (called : list Listener) (done : list Op)
  : option Fired :=
  match fuel with
  | 0 => None
  | S fuel' =>
      match nth_error (entries em) index with
      | None => Some (mkFired (Returned w) em called done)
      | Some None => forOf call fuel' data (S index) em w called done
      | Some (Some listener) =>
          let (c, ops) := call listener data w in
          match tryCatchIgnore c with
          | Returned w' =>
              forOf call fuel' data (S index) (fold_left apply ops em) w'
                    (called ++ [listener]) (done ++ ops)
          | Threw w' =>
              Some (mkFired (Threw w') (fold_left apply ops em)
                            (called ++ [listener]) (done ++ ops))
          end
      end
  end.

(** [fire], source lines 52-60. *)
Definition fire (call : Behaviour) (fuel : nat) (data : T) (em : EventEmitter) (w : W)
  : option Fired :=
  forOf call fuel data 0 em w [] [].

End Emitter.

Arguments Returned {W} w.
Arguments Threw {W} w.
Arguments stateOf {W} c.
Arguments tryCatchIgnore {W} body.
Arguments mkFired {W} completion emitterAfter calls operations.
Arguments completion {W} f.
Arguments emitterAfter {W} f.
Arguments calls {W} f.
Arguments operations {W} f.
Arguments forOf {T W} call fuel data index em w called done.
Arguments fire {T W} call fuel data em w.

End Vscode.

(** ** Positions, ranges and selections of the host-editor shim

    [line] and [character] are JavaScript numbers; they are taken to be
    integers, as the indices of lines and of columns are. The comparisons
    of the source are exact on them. *)
Module Position.

(** [Position], source lines 98-102. *)
Record Position := mkPosition { line : Z; character : Z }.

(** [isEqual], source lines 104-106. *)
Definition isEqual (this other : Position) : bool :=
  ((line this =? line other)%Z && (character this =? character other)%Z)%bool.

(** [isBefore], source lines 108-116. *)
Definition isBefore (this other : Position) : bool :=
  if (line this <? line other)%Z then true
  else if (line this =? line other)%Z then (character this <? character other)%Z
  else false.

(** [isBeforeOrEqual], source lines 118-120. *)
Definition isBeforeOrEqual (this other : Position) : bool :=
  (isBefore this other || isEqual this other)%bool.

(** [isAfter], source lines 122-124. *)
Definition isAfter (this other : Position) : bool :=
  negb (isBeforeOrEqual this other).

(** [isAfterOrEqual], source lines 126-128. *)
Definition isAfterOrEqual (this other : Position) : bool :=
  negb (isBefore this other).

(** [compareTo], source lines 130-144. *)
Definition compareTo (this other : Position) : Z :=
  if (line this <? line other)%Z then (-1)%Z
  else if (line this >? line other)%Z then 1%Z
  else if (character this <? character other)%Z then (-1)%Z
  else if (character this >? character other)%Z then 1%Z
  else 0%Z.

End Position.

Module Range.

(** [Range], source lines 178-197. The constructor keeps the two positions
    as they are given: it does not put them in order. *)
Record Range := mkRange { start : Position.Position; end_ : Position.Position }.

(** [new Range(startLine, startCharacter, endLine, endCharacter)], source
    lines 190-192. *)
Definition ofNumbers (startLine startCharacter endLine endCharacter : Z) : Range :=
  mkRange (Position.mkPosition startLine startCharacter)
          (Position.mkPosition endLine endCharacter).

(** [isEmpty], source lines 199-201. *)
Definition isEmpty (this : Range) : bool := Position.isEqual (start this) (end_ this).

(** [isSingleLine], source lines 203-205. *)
Definition isSingleLine (this : Range) : bool :=
  (Position.line (start this) =? Position.line (end_ this))%Z.

(** [contains] on a position, source line 211. *)
Definition containsPosition (this : Range) (position : Position.Position) : bool :=
  (Position.isAfterOrEqual position (start this)
   && Position.isBeforeOrEqual position (end_ this))%bool.

(** [contains], source lines 207-212: on a range, both of its ends are
    tested. *)
Definition contains (this : Range) (positionOrRange : Position.Position + Range) : bool :=
  match positionOrRange with
  | inr range => (containsPosition this (start range) && containsPosition this (end_ range))%bool
  | inl position => containsPosition this position
  end.

(** [isEqual], source lines 214-216. *)
Definition isEqual (this other : Range) : bool :=
  (Position.isEqual (start this) (start other)
   && Position.isEqual (end_ this) (end_ other))%bool.

(** [intersection], source lines 218-225; [None] is [undefined]. *)
Definition intersection (this other : Range) : option Range :=
  let start' := if Position.isAfter (start this) (start other) then start this else start other in
  let end' := if Position.isBefore (end_ this) (end_ other) then end_ this else end_ other in
  if Position.isAfter start' end' then None else Some (mkRange start' end').

(** [union], source lines 227-231. *)
Definition union (this other : Range) : Range :=
  let start' := if Position.isBefore (start this) (start other) then start this else start other in
  let end' := if Position.isAfter (end_ this) (end_ other) then end_ this else end_ other in
  mkRange start' end'.

(** The start of the range is not after its end. *)
Definition ordered (r : Range) : bool := Position.isBeforeOrEqual (start r) (end_ r).

End Range.

Module Selection.

(** [Selection], source lines 247-273: the range that [super(anchor,
    active)] makes starts at the anchor and ends at the active position. *)
Record Selection := mkSelection { anchor : Position.Position; active : Position.Position }.

(** The selection as the range it extends. *)
Definition toRange (s : Selection) : Range.Range := Range.mkRange (anchor s) (active s).

(** [isReversed], source lines 275-277. *)
Definition isReversed (this : Selection) : bool := Position.isAfter (anchor this) (active this).

End Selection.

(** ** Kinds of code actions *)
Module CodeActionKind.

(** [CodeActionKind], source lines 429-452. *)
Record CodeActionKind := mkKind { value : string }.

Definition Empty : CodeActionKind := mkKind "".
Definition QuickFix : CodeActionKind := mkKind "quickfix".
Definition Refactor : CodeActionKind := mkKind "refactor".
Definition RefactorExtract : CodeActionKind := mkKind "refactor.extract".
Definition RefactorInline : CodeActionKind := mkKind "refactor.inline".
Definition RefactorRewrite : CodeActionKind := mkKind "refactor.rewrite".
Definition Source : CodeActionKind := mkKind "source".
Definition SourceOrganizeImports : CodeActionKind := mkKind "source.organizeImports".

(** [append], source lines 441-443. *)
Definition append (this : CodeActionKind) (parts : string) : CodeActionKind :=
  mkKind (if Js.truthy (value this) then (value this ++ "." ++ parts)%string else parts).

(** [contains], source lines 449-451. *)
Definition contains (this other : CodeActionKind) : bool :=
  ((value this =? value other)%string
   || Js.startsWith (value this ++ ".")%string (value other))%bool.

(** [intersects], source lines 445-447. *)
Definition intersects (this other : CodeActionKind) : bool :=
  (contains this other || contains other this)%bool.

End CodeActionKind.

(** ** JavaScript maps with string keys

    A [Map<string, V>]: its entries in insertion order, no key twice. *)
Module JsMap.

Section Entries.
Variable V : Type.

Definition Map := list (string * V).

Definition empty : Map := [].

(** [m.get(k)]; [None] is [undefined]. *)
Fixpoint get (k : string) (m : Map) : option V :=
  match m with
  | [] => None
  | (k', v) :: rest => if (k' =? k)%string then Some v else get k rest
  end.

(** [m.has(k)] *)
Fixpoint has (k : string) (m : Map) : bool :=
  match m with
  | [] => false
  | (k', _) :: rest => if (k' =? k)%string then true else has k rest
  end.

(** [m.set(k, v)]: an entry that is there keeps its place. *)
Fixpoint set (k : string) (v : V) (m : Map) : Map :=
  match m with
  | [] => [(k, v)]
  | (k', v') :: rest => if (k' =? k)%string then (k', v) :: rest else (k', v') :: set k v rest
  end.

(** [m.delete(k)] *)
Definition delete (k : string) (m : Map) : Map :=
  filter (fun entry => negb (fst entry =? k)%string) m.

(** [m.size] *)
Definition size (m : Map) : nat := length m.

(** The keys, in insertion order. *)
Definition keys (m : Map) : list string := map fst m.

End Entries.

Arguments empty {V}.
Arguments get {V} k m.
Arguments has {V} k m.
Arguments set {V} k v m.
Arguments delete {V} k m.
Arguments size {V} m.
Arguments keys {V} m.

End JsMap.

(** ** Resource identifiers *)
Module Uri.

(** [Uri], source lines 476-489. *)
Record Uri := mkUri {
  scheme : string;
  authority : string;
  path : string;
  query : string;
  fragment : string
}.

(** [Uri.file], source lines 491-493. *)
Definition file (path : string) : Uri := mkUri "file" "" path "" "".

(** [fsPath], source lines 515-517. *)
Definition fsPath (this : Uri) : string := path this.

(** [toString], source lines 519-521. *)
Definition toString (this : Uri) : string :=
  (scheme this ++ "://" ++ authority this ++ path this
   ++ (if Js.truthy (query this) then "?" ++ query this else "")
   ++ (if Js.truthy (fragment this) then "#" ++ fragment this else ""))%string.

End Uri.

(** ** Text edits *)
Module TextEdit.

(** [TextEdit], source lines 333-340. *)
Record TextEdit := mkTextEdit { range : Range.Range; newText : string }.

(** [TextEdit.replace], source lines 342-344. *)
Definition replace (range : Range.Range) (newText : string) : TextEdit :=
  mkTextEdit range newText.

(** [TextEdit.insert], source lines 346-348. *)
Definition insert (position : Position.Position) (newText : string) : TextEdit :=
  mkTextEdit (Range.mkRange position position) newText.

(** [TextEdit.delete], source lines 350-352. *)
Definition delete (range : Range.Range) : TextEdit := mkTextEdit range "".

End TextEdit.

(** ** Workspace edits

    [_edits] maps the string of a resource identifier to the array of its
    edits. An array is an object: the map holds a reference to it, and
    whoever handed the array to [set] holds another, as may other keys of
    the map. [arrays] are the arrays of edits that there are, each told by
    its reference; they are changed by the methods of the workspace edit
    alone. *)
Module WorkspaceEdit.

Definition ArrayRef := nat.

(** [WorkspaceEdit], source lines 367-368, with the arrays that it and its
    callers hold. *)
Record WorkspaceEdit := mkWorkspaceEdit {
  _edits : JsMap.Map ArrayRef;
  arrays : list (list TextEdit.TextEdit)
}.

(** [new WorkspaceEdit()], when there is no array yet. *)
Definition new : WorkspaceEdit := mkWorkspaceEdit JsMap.empty [].

(** The edits that an array holds. *)
Definition read (ref : ArrayRef) (this : WorkspaceEdit) : list TextEdit.TextEdit :=
  nth ref (arrays this) [].

(** An array literal: a new array, with its reference. *)
Definition newArray (contents : list TextEdit.TextEdit) (this : WorkspaceEdit)
  : ArrayRef * WorkspaceEdit :=
  (length (arrays this), mkWorkspaceEdit (_edits this) (arrays this ++ [contents])).

(** [array.push(edit)], on the array of the reference. *)
Fixpoint pushOn (ref : ArrayRef) (edit : TextEdit.TextEdit)
         (arrays : list (list TextEdit.TextEdit)) : list (list TextEdit.TextEdit) :=
  match arrays, ref with
  | [], _ => []
  | array :: rest, 0 => (array ++ [edit]) :: rest
  | array :: rest, S ref' => array :: pushOn ref' edit rest
  end.

(** [set], source lines 370-372: the map keeps the array it is handed, not
    a copy of it. *)
Definition set (uri : Uri.Uri) (edits : ArrayRef) (this : WorkspaceEdit) : WorkspaceEdit :=
  mkWorkspaceEdit (JsMap.set (Uri.toString uri) edits (_edits this)) (arrays this).

(** [get], source lines 374-376, read: the edits of the array that it
    returns. An array is never falsy, so that the empty array of [||] is
    for a resource without entry. *)
Definition get (uri : Uri.Uri) (this : WorkspaceEdit) : list TextEdit.TextEdit :=
  match JsMap.get (Uri.toString uri) (_edits this) with
  | Some edits => read edits this
  | None => []
  end.

(** [has], source lines 378-380. *)
Definition has (uri : Uri.Uri) (this : WorkspaceEdit) : bool :=
  JsMap.has (Uri.toString uri) (_edits this).

(** What [delete], [insert] and [replace] do with the edit they have made
    (source lines 383-387, 391-395 and 399-403): a new array is made for
    the key if it has none, and the edit is pushed on the array of the
    key. *)
Definition push (key : string) (edit : TextEdit.TextEdit) (this : WorkspaceEdit)
  : WorkspaceEdit :=
  let this := if negb (JsMap.has key (_edits this))
              then let (array, this') := newArray [] this in
                   mkWorkspaceEdit (JsMap.set key array (_edits this')) (arrays this')
              else this in
  match JsMap.get key (_edits this) with
  | Some array => mkWorkspaceEdit (_edits this) (pushOn array edit (arrays this))
  | None => this
  end.

(** [delete], source lines 382-388. *)
Definition delete (uri : Uri.Uri) (range : Range.Range) (this : WorkspaceEdit) : WorkspaceEdit :=
  push (Uri.toString uri) (TextEdit.delete range) this.

(** [insert], source lines 390-396. *)
Definition insert (uri : Uri.Uri) (position : Position.Position) (newText : string)
           (this : WorkspaceEdit) : WorkspaceEdit :=
  push (Uri.toString uri) (TextEdit.insert position newText) this.

(** [replace], source lines 398-404. *)
Definition replace (uri : Uri.Uri) (range : Range.Range) (newText : string)
           (this : WorkspaceEdit) : WorkspaceEdit :=
  push (Uri.toString uri) (TextEdit.replace range newText) this.

(** [size], source lines 406-408. *)
Definition size (this : WorkspaceEdit) : nat := JsMap.size (_edits this).

(** A call of one of the three methods that add an edit. *)
Inductive Call :=
| Delete (uri : Uri.Uri) (range : Range.Range)
| Insert (uri : Uri.Uri) (position : Position.Position) (newText : string)
| Replace (uri : Uri.Uri) (range : Range.Range) (newText : string).

Definition call (this : WorkspaceEdit) (c : Call) : WorkspaceEdit :=
  match c with
  | Delete uri range => delete uri range this
  | Insert uri position newText => insert uri position newText this
  | Replace uri range newText => replace uri range newText this
  end.

(** The resource a call names, and the edit it stands for. *)
Definition uriOf (c : Call) : Uri.Uri :=
  match c with
  | Delete uri _ => uri
  | Insert uri _ _ => uri
  | Replace uri _ _ => uri
  end.

Definition editOf (c : Call) : TextEdit.TextEdit :=
  match c with
  | Delete _ range => TextEdit.delete range
  | Insert _ position newText => TextEdit.insert position newText
  | Replace _ range newText => TextEdit.replace range newText
  end.

(** Two resource identifiers are the same key of the map. *)
Definition sameKey (a b : Uri.Uri) : bool := (Uri.toString a =? Uri.toString b)%string.

(** Every reference that the map holds is the reference of an array. *)
Definition holdsArrays (this : WorkspaceEdit) : Prop :=
  forall key array, JsMap.get key (_edits this) = Some array -> array < length (arrays this).

(** No two keys of the map hold the same array. *)
Definition sharesNoArray (this : WorkspaceEdit) : Prop :=
  forall key key' array,
    JsMap.get key (_edits this) = Some array ->
    JsMap.get key' (_edits this) = Some array -> key = key'.

(** Whether the edits of the second resource are in the array on which a
    call that names the first pushes its edit: the array that both keys
    hold, or, when the first has no entry, the array that the call makes
    for it. *)
Definition sameArray (a b : Uri.Uri) (this : WorkspaceEdit) : bool :=
  match JsMap.get (Uri.toString a) (_edits this) with
  | Some array =>
      match JsMap.get (Uri.toString b) (_edits this) with
      | Some array' => Nat.eqb array array'
      | None => false
      end
  | None => sameKey a b
  end.

End WorkspaceEdit.

(** ** Diagnostic collections

    The collection that [languages.createDiagnosticCollection] makes, source
    lines 1789-1840, over its map [diagnostics]; [D] is the type of the
    arrays of diagnostics. *)
Module DiagnosticCollection.

Section Collection.
Variable D : Type.

Definition Diagnostics := JsMap.Map D.

(** Source lines 1800-1804 and 1808-1812: [undefined] removes the entry. *)
Definition setOne (uri : Uri.Uri) (diags : option D) (diagnostics : Diagnostics) : Diagnostics :=
  match diags with
  | None => JsMap.delete (Uri.toString uri) diagnostics
  | Some d => JsMap.set (Uri.toString uri) d diagnostics
  end.

(** [set], source lines 1793-1814, on one resource or on an array of
    entries. *)
Definition set (uriOrEntries : Uri.Uri + list (Uri.Uri * option D))
           (diagnosticsOrUndefined : option D) (diagnostics : Diagnostics) : Diagnostics :=
  match uriOrEntries with
  | inr entries =>
      fold_left (fun acc entry => setOne (fst entry) (snd entry) acc) entries diagnostics
  | inl uri => setOne uri diagnosticsOrUndefined diagnostics
  end.

(** [delete], source lines 1815-1817. *)
Definition delete (uri : Uri.Uri) (diagnostics : Diagnostics) : Diagnostics :=
  JsMap.delete (Uri.toString uri) diagnostics.

(** [clear], source lines 1818-1820, and [dispose], source lines
    1835-1837. *)
Definition clear (diagnostics : Diagnostics) : Diagnostics := JsMap.empty.
Definition dispose (diagnostics : Diagnostics) : Diagnostics := JsMap.empty.

(** [get], source lines 1829-1831. *)
Definition get (uri : Uri.Uri) (diagnostics : Diagnostics) : option D :=
  JsMap.get (Uri.toString uri) diagnostics.

(** [has], source lines 1832-1834. *)
Definition has (uri : Uri.Uri) (diagnostics : Diagnostics) : bool :=
  JsMap.has (Uri.toString uri) diagnostics.

(** The last entry of the array that names the resource, if there is
    one. *)
Definition lastEntryFor (uri : Uri.Uri) (entries : list (Uri.Uri * option D))
  : option (Uri.Uri * option D) :=
  find (fun entry => WorkspaceEdit.sameKey (fst entry) uri) (rev entries).

End Collection.

Arguments setOne {D} uri diags diagnostics.
Arguments set {D} uriOrEntries diagnosticsOrUndefined diagnostics.
Arguments delete {D} uri diagnostics.
Arguments clear {D} diagnostics.
Arguments dispose {D} diagnostics.
Arguments get {D} uri diagnostics.
Arguments has {D} uri diagnostics.
Arguments lastEntryFor {D} uri entries.

End DiagnosticCollection.

(** ** Commands

    [CommandsAPI], source lines 1525-1562; [H] is the type of the
    handlers. *)
Module CommandsAPI.

Section Commands.
Variable H : Type.

Record CommandsAPI := mkCommands { commands : JsMap.Map H }.

(** [registerCommand], source lines 1528-1535. *)
Definition registerCommand (command : string) (callback : H) (this : CommandsAPI) : CommandsAPI :=
  mkCommands (JsMap.set command callback (commands this)).

(** [dispose] of the disposable that [registerCommand command] returned,
    source lines 1531-1533: it holds the name of the command. *)
Definition disposeCommand (command : string) (this : CommandsAPI) : CommandsAPI :=
  mkCommands (JsMap.delete command (commands this)).

(** What [executeCommand] does. *)
Inductive Execution :=
| CallsHandler (handler : H)
| ResolvesUndefined
| HandlesDiff
| WarnsAndResolvesUndefined.

(** The [switch] of source lines 1549-1561. *)
Definition builtIn (command : string) : Execution :=
  if ((command =? "workbench.action.files.saveFiles")%string
      || (command =? "workbench.action.closeWindow")%string
      || (command =? "workbench.action.reloadWindow")%string)%bool
  then ResolvesUndefined
  else if (command =? "vscode.diff")%string then HandlesDiff
  else WarnsAndResolvesUndefined.

(** [executeCommand], source lines 1537-1562. *)
Definition executeCommand (command : string) (this : CommandsAPI) : Execution :=
  match JsMap.get command (commands this) with
  | Some handler => CallsHandler handler
  | None => builtIn command
  end.

End Commands.

Arguments mkCommands {H} commands.
Arguments commands {H} c.
Arguments registerCommand {H} command callback this.
Arguments disposeCommand {H} command this.
Arguments CallsHandler {H} handler.
Arguments ResolvesUndefined {H}.
Arguments HandlesDiff {H}.
Arguments WarnsAndResolvesUndefined {H}.
Arguments builtIn {H} command.
Arguments executeCommand {H} command this.

End CommandsAPI.

(** ** Objects used as records of values

    A [Record<string, any>] is a plain object: a map of its own properties,
    with [Object.prototype] behind it. Reading a property finds the own one,
    or else the one that the object inherits. [Object.keys] lists the own
    keys: those that are array indices first, in ascending order, and the
    other keys after them in the order of their creation. *)
Module JsObject.

Definition isDigit (c : ascii) : bool :=
  (Nat.leb 48 (nat_of_ascii c) && Nat.leb (nat_of_ascii c) 57)%bool.

(** The number that a string of decimal digits writes. *)
Fixpoint digitsValue (acc : N) (s : string) : option N :=
  match s with
  | EmptyString => Some acc
  | String c t =>
      if isDigit c then digitsValue (10 * acc + (N_of_ascii c - 48))%N t else None
  end.

(** The array index that the key is the canonical string of: [0], or
    digits that do not start with a zero, below [2^32 - 1]. *)
Definition arrayIndex (k : string) : option N :=
  match k with
  | EmptyString => None
  | String c t =>
      if (Ascii.eqb c "0" && negb (t =? "")%string)%bool then None
      else match digitsValue 0 k with
           | Some n => if (n <? 4294967295)%N then Some n else None
           | None => None
           end
  end.

Fixpoint insertIndex (n : N) (k : string) (l : list (N * string)) : list (N * string) :=
  match l with
  | [] => [(n, k)]
  | (n', k') :: rest => if (n <? n')%N then (n, k) :: l else (n', k') :: insertIndex n k rest
  end.

Definition indexKeys (ks : list string) : list (N * string) :=
  fold_right (fun k acc => match arrayIndex k with
                           | Some n => insertIndex n k acc
                           | None => acc
                           end) [] ks.

Definition isIndexKey (k : string) : bool :=
  match arrayIndex k with Some _ => true | None => false end.

(** [Object.keys(o)] *)
Definition ownKeys {V} (o : JsMap.Map V) : list string :=
  map snd (indexKeys (JsMap.keys o)) ++ filter (fun k => negb (isIndexKey k)) (JsMap.keys o).

(** The names of the properties of [Object.prototype], which every plain
    object inherits. *)
Definition prototypeNames : list string :=
  ["constructor"; "__defineGetter__"; "__defineSetter__"; "hasOwnProperty";
   "__lookupGetter__"; "__lookupSetter__"; "isPrototypeOf"; "propertyIsEnumerable";
   "toString"; "valueOf"; "__proto__"; "toLocaleString"].

Definition isPrototypeName (k : string) : bool := existsb (String.eqb k) prototypeNames.

(** [o[k]]: the own property, or else the inherited one; [None] is
    [undefined]. [inherited] gives the value that a plain object inherits
    under a name of [Object.prototype]: a function, or for [__proto__] the
    prototype itself. *)
Definition lookup {V} (inherited : string -> V) (k : string) (o : JsMap.Map V) : option V :=
  match JsMap.get k o with
  | Some v => Some v
  | None => if isPrototypeName k then Some (inherited k) else None
  end.

(** [o[k] = v]: the own property is made or changed. Under the name
    [__proto__] the assignment goes to the setter that the object inherits
    and makes no property; the change of prototype that it brings about when
    the value is an object is outside the embedding. *)
Definition assign {V} (k : string) (v : V) (o : JsMap.Map V) : JsMap.Map V :=
  if (k =? "__proto__")%string then o else JsMap.set k v o.

End JsObject.

(** ** The state storage of the extension context

    [MemoryMemento], source lines 629-679. [V] is the type of the values,
    [undefined] apart, and [inherited] gives the values that the plain
    object [data] inherits from [Object.prototype]. The file to which
    [update] saves the data is not part of the embedding: [saveToFile]
    catches what it throws and leaves the data in memory as they are. *)
Module MemoryMemento.

Section Memento.
Variable V : Type.
Variable inherited : string -> V.

Record MemoryMemento := mkMemento { data : JsMap.Map V; filePath : string }.

(** [get], source lines 663-665; [None] is [undefined]. *)
Definition get (key : string) (defaultValue : option V) (this : MemoryMemento) : option V :=
  match JsObject.lookup inherited key (data this) with
  | Some v => Some v
  | None => defaultValue
  end.

(** [update], source lines 667-674. *)
Definition update (key : string) (value : option V) (this : MemoryMemento) : MemoryMemento :=
  mkMemento (match value with
             | None => JsMap.delete key (data this)
             | Some v => JsObject.assign key v (data this)
             end)
            (filePath this).

(** [keys], source lines 676-678. *)
Definition keys (this : MemoryMemento) : list string := JsObject.ownKeys (data this).

End Memento.

Arguments mkMemento {V} data filePath.
Arguments data {V} m.
Arguments filePath {V} m.
Arguments get {V} inherited key defaultValue this.
Arguments update {V} key value this.
Arguments keys {V} this.

End MemoryMemento.

(** ** The configuration of the workspace

    [MockWorkspaceConfiguration], source lines 1086-1218. Every
    configuration object that [getConfiguration] makes holds the two
    mementos of the extension context: they are the state, and a
    configuration object is its section. [isNull] tells the value [null],
    and [inherited] gives the values that the data of a memento inherit
    from [Object.prototype]. *)
Module MockWorkspaceConfiguration.

(** [ConfigurationTarget], source lines 69-73. *)
Inductive ConfigurationTarget := Global | Workspace | WorkspaceFolder.

Section Configuration.
Variable V : Type.
Variable isNull : V -> bool.
Variable inherited : string -> V.

Record Mementos := mkMementos {
  globalMemento : MemoryMemento.MemoryMemento V;
  workspaceMemento : MemoryMemento.MemoryMemento V
}.

(** [fullSection], source lines 1122, 1141, 1146 and 1164. *)
Definition fullSection (thisSection : option string) (section : string) : string :=
  match thisSection with
  | Some s => if Js.truthy s then (s ++ "." ++ section)%string else section
  | None => section
  end.

(** [value !== undefined && value !== null] *)
Definition isValue (value : option V) : bool :=
  match value with
  | Some v => negb (isNull v)
  | None => false
  end.

(** [get], source lines 1121-1138. *)
Definition get (thisSection : option string) (section : string) (defaultValue : option V)
           (st : Mementos) : option V :=
  let workspaceValue := MemoryMemento.get inherited (fullSection thisSection section) None
                                          (workspaceMemento st) in
  if isValue workspaceValue then workspaceValue
  else
    let globalValue := MemoryMemento.get inherited (fullSection thisSection section) None
                                         (globalMemento st) in
    if isValue globalValue then globalValue else defaultValue.

Definition isDefined (value : option V) : bool :=
  match value with Some _ => true | None => false end.

(** [has], source lines 1140-1143. *)
Definition has (thisSection : option string) (section : string) (st : Mementos) : bool :=
  (isDefined (MemoryMemento.get inherited (fullSection thisSection section) None (workspaceMemento st))
   || isDefined (MemoryMemento.get inherited (fullSection thisSection section) None (globalMemento st)))%bool.

(** What [inspect] returns; its [defaultValue] and [workspaceFolderValue]
    are always [undefined]. *)
Record Inspection := mkInspection {
  key : string;
  globalValue : option V;
  workspaceValue : option V
}.

(** [inspect], source lines 1145-1161. *)
Definition inspect (thisSection : option string) (section : string) (st : Mementos)
  : option Inspection :=
  let workspaceValue := MemoryMemento.get inherited (fullSection thisSection section) None
                                          (workspaceMemento st) in
  let globalValue := MemoryMemento.get inherited (fullSection thisSection section) None
                                       (globalMemento st) in
  if (isDefined workspaceValue || isDefined globalValue)%bool
  then Some (mkInspection (fullSection thisSection section) globalValue workspaceValue)
  else None.

(** [configurationTarget === ConfigurationTarget.Workspace] *)
Definition isWorkspace (configurationTarget : option ConfigurationTarget) : bool :=
  match configurationTarget with
  | Some Workspace => true
  | _ => false
  end.

(** [update], source lines 1163-1186. *)
Definition update (thisSection : option string) (section : string) (value : option V)
           (configurationTarget : option ConfigurationTarget) (st : Mementos) : Mementos :=
  if isWorkspace configurationTarget
  then mkMementos (globalMemento st)
                  (MemoryMemento.update (fullSection thisSection section) value
                                        (workspaceMemento st))
  else mkMementos (MemoryMemento.update (fullSection thisSection section) value
                                        (globalMemento st))
                  (workspaceMemento st).

(** The loops of source lines 1201-1206 and 1209-1214. *)
Definition addSettings (memento : MemoryMemento.MemoryMemento V) (allConfig : JsMap.Map V)
  : JsMap.Map V :=
  fold_left (fun acc key =>
               match MemoryMemento.get inherited key None memento with
               | Some value => if negb (isNull value) then JsObject.assign key value acc else acc
               | None => acc
               end)
            (MemoryMemento.keys memento) allConfig.

(** [getAllConfig], source lines 1195-1217. *)
Definition getAllConfig (st : Mementos) : JsMap.Map V :=
  addSettings (workspaceMemento st) (addSettings (globalMemento st) JsMap.empty).

End Configuration.

Arguments mkMementos {V} globalMemento workspaceMemento.
Arguments globalMemento {V} m.
Arguments workspaceMemento {V} m.
Arguments isValue {V} isNull value.
Arguments isDefined {V} value.
Arguments get {V} isNull inherited thisSection section defaultValue st.
Arguments has {V} inherited thisSection section st.
Arguments inspect {V} inherited thisSection section st.
Arguments update {V} thisSection section value configurationTarget st.
Arguments addSettings {V} isNull inherited memento allConfig.
Arguments getAllConfig {V} isNull inherited st.

End MockWorkspaceConfiguration.

(** ** JavaScript arrays of strings *)
Module JsArray.

(** [s.split("\n")]: the pieces between the line feeds; there is always
    one piece at least. *)
Fixpoint splitLines (s : string) : list string :=
  match s with
  | EmptyString => [EmptyString]
  | String c t =>
      if Ascii.eqb c Js.LF then EmptyString :: splitLines t
      else match splitLines t with
           | piece :: rest => String c piece :: rest
           | [] => [String c EmptyString]
           end
  end.

Definition NEWLINE : string := String Js.LF EmptyString.

(** [a.join("\n")] *)
Fixpoint joinLines (a : list string) : string :=
  match a with
  | [] => EmptyString
  | [x] => x
  | x :: rest => (x ++ NEWLINE ++ joinLines rest)%string
  end.

(** The lines of [a], each with the line feed after it, and each with the
    line feed before it: the text before a line of the joined array, and
    the text after one. *)
Fixpoint linesBefore (a : list string) : string :=
  match a with
  | [] => EmptyString
  | x :: rest => (x ++ NEWLINE ++ linesBefore rest)%string
  end.

Fixpoint linesAfter (a : list string) : string :=
  match a with
  | [] => EmptyString
  | x :: rest => (NEWLINE ++ x ++ linesAfter rest)%string
  end.

(** The place in an array of length [len] that [slice] and [splice] make
    of an index: a negative index counts from the end, and the result is
    kept within the array. *)
Definition relativeIndex (i : Z) (len : nat) : nat :=
  if (i <? 0)%Z then Z.to_nat (Z.max (Z.of_nat len + i) 0)
  else Nat.min (Z.to_nat i) len.

(** [a.slice(start, end)] *)
Definition slice {A} (start end_ : Z) (a : list A) : list A :=
  let k := relativeIndex start (length a) in
  let final := relativeIndex end_ (length a) in
  firstn (final - k) (skipn k a).

(** [a[i]]; [None] is [undefined]. *)
Definition at_ {A} (i : Z) (a : list A) : option A :=
  if (i <? 0)%Z then None else nth_error a (Z.to_nat i).

(** [x || ""] *)
Definition orEmpty (x : option string) : string :=
  match x with
  | Some s => s
  | None => EmptyString
  end.

(** [a[i] = v] for [0 <= i]: past the end the array grows, and the
    elements in between are holes. A hole reads as [undefined]; where the
    only readers are [|| ""] and [join], which make the empty string of it,
    it is kept as the empty string. *)
Fixpoint setAt (i : nat) (v : string) (a : list string) : list string :=
  match i, a with
  | 0, [] => [v]
  | 0, _ :: rest => v :: rest
  | S i', [] => EmptyString :: setAt i' v []
  | S i', x :: rest => x :: setAt i' v rest
  end.

(** [a[i] = v]: an index below zero names no element, and the array stays
    as it is. *)
Definition assign (i : Z) (v : string) (a : list string) : list string :=
  if (i <? 0)%Z then a else setAt (Z.to_nat i) v a.

(** [a.splice(start, deleteCount, item)] *)
Definition splice {A} (start deleteCount : Z) (item : A) (a : list A) : list A :=
  let actualStart := relativeIndex start (length a) in
  let actualDeleteCount :=
    Z.to_nat (Z.min (Z.max deleteCount 0) (Z.of_nat (length a) - Z.of_nat actualStart)) in
  firstn actualStart a ++ [item] ++ skipn (actualStart + actualDeleteCount) a.

(** [s.substring(0, n)] and [s.substring(n)]: a negative [n] counts as
    zero, and one past the end as the length. *)
Definition substringTo (n : Z) (s : string) : string := Js.take (Z.to_nat n) s.
Definition substringFrom (n : Z) (s : string) : string := Js.sliceFrom (Z.to_nat n) s.

(** [a.sort(compare)]: the sort is stable, and with a comparator that
    orders the elements its result is the one that insertion gives.
    Elements that compare equal stay in the order they had. *)
Fixpoint insertSorted {A} (compare : A -> A -> Z) (x : A) (sorted : list A) : list A :=
  match sorted with
  | [] => [x]
  | y :: rest =>
      if (compare x y <=? 0)%Z then x :: sorted else y :: insertSorted compare x rest
  end.

Definition sort {A} (compare : A -> A -> Z) (a : list A) : list A :=
  fold_right (insertSorted compare) [] a.

End JsArray.

(** ** Text documents

    The document that [openTextDocument] makes of the content of a file,
    source lines 937-984. *)
Module TextDocument.

Record TextDocument := mkTextDocument { uri : Uri.Uri; content : string }.

(** [lines], source line 937. *)
Definition lines (doc : TextDocument) : list string := JsArray.splitLines (content doc).

(** [lineCount], source line 945. *)
Definition lineCount (doc : TextDocument) : nat := length (lines doc).

(** [getText], source lines 946-951. *)
Definition getText (range : option Range.Range) (doc : TextDocument) : string :=
  match range with
  | None => content doc
  | Some r =>
      JsArray.joinLines
        (JsArray.slice (Position.line (Range.start r)) (Position.line (Range.end_ r) + 1)
                       (lines doc))
  end.

(** The loop of source lines 964-966: [i] is the index of the first of
    the lines that are left. *)
Fixpoint offsetLoop (rest : list string) (i line offset : Z) : Z :=
  match rest with
  | [] => offset
  | l :: rest' =>
      if (i <? line)%Z
      then offsetLoop rest' (i + 1) line (offset + (Z.of_nat (String.length l) + 1))
      else offset
  end.

(** [offsetAt], source lines 962-969. *)
Definition offsetAt (position : Position.Position) (doc : TextDocument) : Z :=
  (offsetLoop (lines doc) 0 (Position.line position) 0 + Position.character position)%Z.

(** The loop of source lines 972-978; [None] when it ends without
    returning. *)
Fixpoint positionLoop (rest : list string) (i currentOffset offset : Z)
  : option Position.Position :=
  match rest with
  | [] => None
  | l :: rest' =>
      let lineLength := (Z.of_nat (String.length l) + 1)%Z in
      if (currentOffset + lineLength >? offset)%Z
      then Some (Position.mkPosition i (offset - currentOffset))
      else positionLoop rest' (i + 1) (currentOffset + lineLength) offset
  end.

(** [positionAt], source lines 970-980. *)
Definition positionAt (offset : Z) (doc : TextDocument) : Position.Position :=
  match positionLoop (lines doc) 0 0 offset with
  | Some position => position
  | None =>
      Position.mkPosition (Z.of_nat (length (lines doc)) - 1)
                          (Z.of_nat (String.length (last (lines doc) EmptyString)))
  end.

(** The position names a place of the document: a line that is there,
    and a column within that line or at its end. *)
Definition isPlace (position : Position.Position) (doc : TextDocument) : bool :=
  ((0 <=? Position.line position)%Z
   && (Position.line position <? Z.of_nat (lineCount doc))%Z
   && (0 <=? Position.character position)%Z
   && (Position.character position
       <=? Z.of_nat (String.length
                       (nth (Z.to_nat (Position.line position)) (lines doc) EmptyString)))%Z)%bool.

End TextDocument.

(** ** Applying the edits of a file

    What [applyEdit] does with the content of one file and the edits of
    that file, source lines 1014-1043. Line numbers are array indices of
    [lines]: zero or more, and below [2^32 - 1]. *)
Module WorkspaceAPI.

(** The comparator of source lines 1015-1019. *)
Definition compareEdits (a b : TextEdit.TextEdit) : Z :=
  let lineDiff := (Position.line (Range.start (TextEdit.range b))
                   - Position.line (Range.start (TextEdit.range a)))%Z in
  if negb (lineDiff =? 0)%Z then lineDiff
  else (Position.character (Range.start (TextEdit.range b))
        - Position.character (Range.start (TextEdit.range a)))%Z.

(** The body of the loop of source lines 1022-1040. *)
Definition applyTextEdit (lines : list string) (textEdit : TextEdit.TextEdit) : list string :=
  let startLine := Position.line (Range.start (TextEdit.range textEdit)) in
  let startChar := Position.character (Range.start (TextEdit.range textEdit)) in
  let endLine := Position.line (Range.end_ (TextEdit.range textEdit)) in
  let endChar := Position.character (Range.end_ (TextEdit.range textEdit)) in
  if (startLine =? endLine)%Z then
    let line := JsArray.orEmpty (JsArray.at_ startLine lines) in
    JsArray.assign startLine
                   (JsArray.substringTo startChar line ++ TextEdit.newText textEdit
                    ++ JsArray.substringFrom endChar line)%string
                   lines
  else
    let firstLine := JsArray.orEmpty (JsArray.at_ startLine lines) in
    let lastLine := JsArray.orEmpty (JsArray.at_ endLine lines) in
    let newContent := (JsArray.substringTo startChar firstLine ++ TextEdit.newText textEdit
                       ++ JsArray.substringFrom endChar lastLine)%string in
    JsArray.splice startLine (endLine - startLine + 1) newContent lines.

(** Source lines 1014-1043: the new content of the file. *)
Definition applyTextEdits (content : string) (edits : list TextEdit.TextEdit) : string :=
  let sortedEdits := JsArray.sort compareEdits edits in
  let lines := JsArray.splitLines content in
  JsArray.joinLines (fold_left applyTextEdit sortedEdits lines).

(** The text with the stretch between two offsets replaced. *)
Definition replaceBetween (from to : Z) (newText : string) (text : string) : string :=
  (Js.take (Z.to_nat from) text ++ newText ++ Js.sliceFrom (Z.to_nat to) text)%string.

(** The content with the range of the edit, as the document tells its
    offsets, replaced by the new text of the edit. *)
Definition spliceAt (doc : TextDocument.TextDocument) (text : string)
           (textEdit : TextEdit.TextEdit) : string :=
  replaceBetween (TextDocument.offsetAt (Range.start (TextEdit.range textEdit)) doc)
                 (TextDocument.offsetAt (Range.end_ (TextEdit.range textEdit)) doc)
                 (TextEdit.newText textEdit) text.

(** The range of the edit lies in the document, its start not after its
    end. *)
Definition isEditOf (doc : TextDocument.TextDocument) (textEdit : TextEdit.TextEdit) : bool :=
  (TextDocument.isPlace (Range.start (TextEdit.range textEdit)) doc
   && TextDocument.isPlace (Range.end_ (TextEdit.range textEdit)) doc
   && Range.ordered (TextEdit.range textEdit))%bool.

(** Each edit of the list ends at or before the start of the edit that
    comes before it. *)
Fixpoint apart (edits : list TextEdit.TextEdit) : bool :=
  match edits with
  | [] => true
  | later :: rest =>
      (match rest with
       | [] => true
       | earlier :: _ =>
           Position.isBeforeOrEqual (Range.end_ (TextEdit.range earlier))
                                    (Range.start (TextEdit.range later))
       end && apart rest)%bool
  end.

(** The edit of the range from line [i], column [c] to line [j], column
    [d]. *)
Definition editAt (i c j d : nat) (t : string) : TextEdit.TextEdit :=
  TextEdit.mkTextEdit
    (Range.mkRange (Position.mkPosition (Z.of_nat i) (Z.of_nat c))
                   (Position.mkPosition (Z.of_nat j) (Z.of_nat d))) t.

(** The array [a] is the array [a0] up to the place [(i, c)]: the lines
    before line [i] are the same, and so are the first [c] characters of
    line [i]. *)
Definition sameUpTo (a0 a : list string) (i c : nat) : Prop :=
  firstn i a = firstn i a0
  /\ i < length a
  /\ i < length a0
  /\ Js.take c (nth i a EmptyString) = Js.take c (nth i a0 EmptyString)
  /\ c <= String.length (nth i a EmptyString)
  /\ c <= String.length (nth i a0 EmptyString).

End WorkspaceAPI.

(** ** Messages of the command line interface

    [createConfigErrorInstructions] and [createWelcomeMessage] of
    ui/utils/welcomeMessage, source lines 1-57. *)
Module WelcomeMessage.

(** [ValidationResult] of config/validation, as the function reads it: the
    flag, and the errors if there are any. *)
Record ValidationResult := mkValidationResult {
  valid : bool;
  errors : option (list string)
}.

(** The bullet character of source line 24. *)
Definition BULLET : string :=
  String "226"%char (String "128"%char (String "162"%char EmptyString)).

(** [createConfigErrorInstructions], source lines 13-37. [configPath] is
    what [getConfigPath()] returns; config/persistence is not among the
    sources. *)
Definition createConfigErrorInstructions (configPath : string) (validation : ValidationResult)
  : list string :=
  if valid validation then []
  else
    let instructions :=
      [("Configuration Error: config.json is incomplete or invalid." ++ JsArray.NEWLINE)%string;
       "Errors found:"] in
    let instructions :=
      match errors validation with
      | Some errs =>
          fold_left (fun instructions error =>
                       instructions ++ [("  " ++ BULLET ++ " " ++ error)%string])
                    errs instructions
      | None => instructions
      end in
    instructions
      ++ [(JsArray.NEWLINE ++ "To fix this issue:")%string;
          "  1. Run: kilocode config";
          ("  2. Or edit: " ++ configPath)%string;
          JsArray.NEWLINE;
          "The CLI will exit now. Please configure your Kilo Code and try again."].

(** The string of a number that is an integer, as a template literal
    writes it: in decimal digits, for the integers below [10^21] in size,
    as the times of the clock and the values of the counter are. *)
Definition numberToString (n : Z) : string := NilZero.string_of_int (Z.to_int n).

(** [messageCounter++]: numbers are doubles, and one added to [2^53] gives
    [2^53] again. *)
Definition increment (n : N) : N := if (n <? 9007199254740992)%N then (n + 1)%N else n.

(** [CliMessage] of types/cli, as [createWelcomeMessage] fills it; [O] is
    the type of the options. *)
Record CliMessage (O : Type) := mkCliMessage {
  id : string;
  type : string;
  content : string;
  ts : Z;
  welcomeOptions : option O
}.

Arguments mkCliMessage {O} id type content ts welcomeOptions.
Arguments id {O} c.
Arguments type {O} c.
Arguments content {O} c.
Arguments ts {O} c.
Arguments welcomeOptions {O} c.

(** [createWelcomeMessage], source lines 44-57. [now] is what
    [Date.now()] returns; the result comes with the new value of
    [messageCounter]. *)
Definition createWelcomeMessage {O} (options : option O) (now : Z) (messageCounter : N)
  : CliMessage O * N :=
  let timestamp := now in
  let id := ("welcome-" ++ numberToString timestamp ++ "-"
             ++ numberToString (Z.of_N messageCounter))%string in
  (mkCliMessage id "welcome" "" timestamp options, increment messageCounter).

(** The messages of a run of calls, each call with its options and the
    time at which it is made. *)
Fixpoint createWelcomeMessages {O} (calls : list (option O * Z)) (messageCounter : N)
  : list (CliMessage O) :=
  match calls with
  | [] => []
  | (options, now) :: rest =>
      let (message, messageCounter') := createWelcomeMessage options now messageCounter in
      message :: createWelcomeMessages rest messageCounter'
  end.

(** Whether the character [-] occurs in [s]. *)
Fixpoint hasDash (s : string) : bool :=
  match s with
  | EmptyString => false
  | String c t => (Ascii.eqb c "-" || hasDash t)%bool
  end.

End WelcomeMessage.

(** ** The cleanup of the provider's effect

    The function that the effect of [KeyboardProvider] returns, source
    lines 493-525, with what it does to the outside. The values of
    [isKittyEnabled] and [dragBuffer] that it holds are those of the render
    that made the effect. [unsubscribeKeyboard], which state/atoms/keyboard
    makes, is taken to leave the cells, the atoms and the timers of the
    embedding as they are. *)
Module KeyboardCleanup.
Import Keys KeyboardProvider.

(** What the cleanup does to the outside. *)
Inductive Action :=
| RemoveKeypressListener
| RemoveDataListener
| CloseReadline
| UnsubscribeKeyboard
| WriteToTerminal (text : string)
| DisableKittyProtocol
| SetRawMode (on : bool)
| Provider (e : Effect).

(** The sequence that ends the bracketed paste mode, source line 504. *)
Definition DISABLE_BRACKETED_PASTE : string := (ESC ++ "[?2004l")%string.

(** The cleanup, source lines 493-525. [wasRaw] is the raw mode that the
    effect found when it ran. *)
Definition cleanup (usePassthrough wasRaw : bool) (st : State) : option (State * list Action) :=
  let isKittyEnabled := renderedKittyEnabled (rendered st) in
  match flushPending st with
  | Some (_, st', out) =>
      Some (st',
            [RemoveKeypressListener]
              ++ (if usePassthrough then [RemoveDataListener] else [])
              ++ [CloseReadline; UnsubscribeKeyboard; WriteToTerminal DISABLE_BRACKETED_PASTE]
              ++ (if isKittyEnabled then [DisableKittyProtocol] else [])
              ++ (if wasRaw then [] else [SetRawMode false])
              ++ map Provider out)
  | None => None
  end.

(** The keys that the cleanup broadcasts, in order. *)
Fixpoint broadcastsOf (actions : list Action) : list Key :=
  match actions with
  | [] => []
  | Provider (Broadcast k) :: rest => k :: broadcastsOf rest
  | _ :: rest => broadcastsOf rest
  end.

End KeyboardCleanup.

(** ** The choice of the keypress stream

    Source lines 226-231: whether the provider reads the keys from a
    stream of its own, to which it passes the raw data on. A string is taken
    to hold characters with codes below 256. *)
Module Passthrough.

(** The white space that [parseInt] skips, among the characters with
    codes below 256: tab, line feed, vertical tab, form feed, carriage
    return, space and no-break space. *)
Definition isWhiteSpace (c : ascii) : bool :=
  let n := nat_of_ascii c in
  ((Nat.leb 9 n && Nat.leb n 13) || Nat.eqb n 32 || Nat.eqb n 160)%bool.

Fixpoint skipWhiteSpace (s : string) : string :=
  match s with
  | String c t => if isWhiteSpace c then skipWhiteSpace t else s
  | EmptyString => s
  end.

(** The number that the decimal digits at the start of [s] write, added
    to ten times [acc] for each digit, and whether there was a digit. *)
Fixpoint leadingDigits (acc : Z) (seen : bool) (s : string) : Z * bool :=
  match s with
  | String c t =>
      if JsObject.isDigit c
      then leadingDigits (10 * acc + (Z.of_nat (nat_of_ascii c) - 48))%Z true t
      else (acc, seen)
  | EmptyString => (acc, seen)
  end.

(** [parseInt(s, 10)]; [None] is [NaN]. The result is the integer that the
    digits write; the double that JavaScript makes of it is below 20
    exactly when the integer is. *)
Definition parseInt (s : string) : option Z :=
  let s := skipWhiteSpace s in
  let (negative, digits) :=
    match s with
    | String "-" t => (true, t)
    | String "+" t => (false, t)
    | _ => (false, s)
    end in
  match leadingDigits 0 false digits with
  | (n, true) => Some (if negative then (- n)%Z else n)
  | (_, false) => None
  end.

(** [version.split(".")[0]]: the text before the first dot. *)
Fixpoint firstPart (version : string) : string :=
  match version with
  | EmptyString => EmptyString
  | String c t => if Ascii.eqb c "." then EmptyString else String c (firstPart t)
  end.

(** [nodeMajorVersion], source lines 226-227. *)
Definition nodeMajorVersion (version : string) : option Z :=
  if Js.truthy (firstPart version) then parseInt (firstPart version) else Some 20%Z.

(** [usePassthrough], source lines 228-231, of the version of Node and of
    the environment variable [PASTE_WORKAROUND], which may not be set. *)
Definition usePassthrough (version : string) (PASTE_WORKAROUND : option string) : bool :=
  (match nodeMajorVersion version with
   | Some major => (major <? 20)%Z
   | None => false
   end
   || match PASTE_WORKAROUND with
      | Some value => (value =? "1")%string
      | None => false
      end
   || match PASTE_WORKAROUND with
      | Some value => (value =? "true")%string
      | None => false
      end)%bool.

(** The decimal string of a natural number. *)
Definition decimal (n : nat) : string := NilZero.string_of_uint (Nat.to_uint n).

End Passthrough.

(** ** Disposables

    [Disposable.from] of the shim, source lines 1745-1751. A disposable is
    an object with a [dispose] method; as for the listeners of an emitter,
    calling it acts on the state of the application and returns or
    throws. *)
Module Disposable.

Section From.
Variable W : Type.

Record Disposable := mkDisposable {
  identity : nat;
  dispose : W -> Vscode.Completion W
}.

(** The calls of [dispose] made so far. *)
Definition Trace := list nat.

(** [d.dispose()], recorded. *)
Definition invoke (d : Disposable) (w : W * Trace) : Vscode.Completion W * Trace :=
  (dispose d (fst w), snd w ++ [identity d]).

(** [disposables.forEach((d) => d.dispose())]: a call that throws ends
    the loop, and the loop throws. *)
Fixpoint forEach (disposables : list Disposable) (w : W * Trace)
  : Vscode.Completion W * Trace :=
  match disposables with
  | [] => (Vscode.Returned (fst w), snd w)
  | d :: rest =>
      match invoke d w with
      | (Vscode.Returned w', tr) => forEach rest (w', tr)
      | (Vscode.Threw w', tr) => (Vscode.Threw w', tr)
      end
  end.

(** [dispose] of the disposable that [Disposable.from(...disposables)]
    returns, source lines 1747-1749. *)
Definition from (disposables : list Disposable) (w : W * Trace)
  : Vscode.Completion W * Trace :=
  forEach disposables w.

(** [dispose] of the disposable returns whatever the state, or throws
    whatever the state. *)
Definition alwaysReturns (d : Disposable) : Prop :=
  forall w, exists w', dispose d w = Vscode.Returned w'.
Definition alwaysThrows (d : Disposable) : Prop :=
  forall w, exists w', dispose d w = Vscode.Threw w'.

End From.

Arguments mkDisposable {W} identity dispose.
Arguments identity {W} d.
Arguments dispose {W} d w.
Arguments invoke {W} d w.
Arguments forEach {W} disposables w.
Arguments from {W} disposables w.
Arguments alwaysReturns {W} d.
Arguments alwaysThrows {W} d.

End Disposable.

(** ** Membership of an emitter's set *)
Module Subscription.

(** Whether the listener is a member of the set of the emitter. *)
Definition isSubscribed (fn : Vscode.Listener) (em : Vscode.EventEmitter) : bool :=
  Vscode.setHas fn (Vscode.entries em).

(** Whether an operation takes the listener out of the set. *)
Definition removes (fn : Vscode.Listener) (op : Vscode.Op) : bool :=
  match op with
  | Vscode.Subscribe _ => false
  | Vscode.Unsubscribe gone => Nat.eqb fn gone
  | Vscode.DisposeAll => true
  end.

(** Whether the listener is left in the set by all of the operations. *)
Definition staysSubscribed (ops : list Vscode.Op) (fn : Vscode.Listener) : bool :=
  negb (existsb (removes fn) ops).

(** Whether the listener is a member of the set at the start of a fire and
    is left in it by the operations of the fire. *)
Definition keptThrough (start : list (option Vscode.Listener)) (ops : list Vscode.Op)
           (fn : Vscode.Listener) : bool :=
  (Vscode.setHas fn start && staysSubscribed ops fn)%bool.

(** The entries of the set along a fire, against those at its start: the
    first are those of the start, in their places, some of them emptied;
    the others were added meanwhile. [keeps] tells the listeners that no
    operation of the fire takes out. *)
Definition sameOrEmptied (keeps : Vscode.Listener -> bool)
           (start now : option Vscode.Listener) : Prop :=
  now = start \/ (now = None /\ forall fn, start = Some fn -> keeps fn = false).

Definition alongFire (keeps : Vscode.Listener -> bool)
           (start now : list (option Vscode.Listener)) : Prop :=
  exists first added,
    now = first ++ added
    /\ Forall2 (sameOrEmptied keeps) start first
    /\ Forall (fun entry => forall fn, entry = Some fn ->
                                       (Vscode.setHas fn start && keeps fn)%bool = false) added.

(** Whether no operation adds a listener to the set. *)
Definition subscribesNone (ops : list Vscode.Op) : bool :=
  forallb (fun op => match op with Vscode.Subscribe _ => false | _ => true end) ops.

(** The state of the application after the calls of the listeners, one
    after the other, whether they return or throw. *)
Definition stateAfterCalls {T W} (call : Vscode.Behaviour T W) (data : T)
           (called : list Vscode.Listener) (w : W) : W :=
  fold_left (fun w listener => Vscode.stateOf (fst (call listener data w))) called w.

End Subscription.

(** ** Drag capture *)
Module DragCapture.
Import Keys KeyboardProvider.

(** The state once a unit has been captured by the drag: what source
    lines 285-291 leave. *)
Definition dragCaptured (text : string) (st : State) : State :=
  match (set_isDraggingRef true ;;
         appendToDragBuffer text ;;
         clearDragTimer ;;
         id <- setTimeout (CompleteDrag (renderedDragBuffer (rendered st))) ;;
         set_dragTimerRef (Some id))%handler st with
  | Some (_, st', _) => st'
  | None => st
  end.

(** A drag is being captured and its timer is armed. *)
Definition dragArmed (st : State) : Prop :=
  isPasteRef (refs st) = false
  /\ isDraggingRef (refs st) = true
  /\ timersOk st
  /\ exists id,
       dragTimerRef (refs st) = Some id
       /\ findTimer id (pending (timers st))
          = Some (CompleteDrag (renderedDragBuffer (rendered st))).

End DragCapture.

(** ** The lines of a text document

    [lineAt] of the document that [openTextDocument] makes, source lines
    952-961. A string is taken to hold characters with codes below 256;
    among them the white space of the regular expression [\S] and of [trim]
    is the white space that [parseInt] skips. *)
Module TextLine.

(** [text.search(/\S/)]: the index of the first character that is not
    white space, counted from [i]; -1 if there is none. *)
Fixpoint search (i : Z) (text : string) : Z :=
  match text with
  | EmptyString => (-1)%Z
  | String c t => if Passthrough.isWhiteSpace c then search (i + 1) t else i
  end.

(** [text.trim()]: the white space at the end is taken off, and then the
    white space at the start. *)
Fixpoint trimEnd (text : string) : string :=
  match text with
  | EmptyString => EmptyString
  | String c t =>
      match trimEnd t with
      | EmptyString => if Passthrough.isWhiteSpace c then EmptyString else String c EmptyString
      | rest => String c rest
      end
  end.

Definition trim (text : string) : string := Passthrough.skipWhiteSpace (trimEnd text).

(** What [lineAt] returns. *)
Record TextLine := mkTextLine {
  text : string;
  range : Range.Range;
  rangeIncludingLineBreak : Range.Range;
  firstNonWhitespaceCharacterIndex : Z;
  isEmptyOrWhitespace : bool
}.

(** [lineAt], source lines 952-961. *)
Definition lineAt (line : Z) (doc : TextDocument.TextDocument) : TextLine :=
  let text := JsArray.orEmpty (JsArray.at_ line (TextDocument.lines doc)) in
  mkTextLine text
             (Range.mkRange (Position.mkPosition line 0)
                            (Position.mkPosition line (Z.of_nat (String.length text))))
             (Range.mkRange (Position.mkPosition line 0) (Position.mkPosition (line + 1) 0))
             (search 0 text)
             (Nat.eqb (String.length (trim text)) 0).

End TextLine.

(** ** Concrete values

    Ranges, a document, edits, settings and disposables for the concrete
    uses at the end of the development. *)
Module Samples.

Definition firstLines : Range.Range := Range.ofNumbers 0 0 1 5.
Definition nextLines : Range.Range := Range.ofNumbers 1 2 3 0.
Definition manyLines : Range.Range := Range.ofNumbers 0 0 9 9.
Definition backwards : Selection.Selection :=
  Selection.mkSelection (Position.mkPosition 4 0) (Position.mkPosition 2 7).

(** A document of three lines. *)
Definition threeLines : TextDocument.TextDocument :=
  TextDocument.mkTextDocument
    (Uri.file "/work/notes.txt")
    ("hello" ++ JsArray.NEWLINE ++ "world" ++ JsArray.NEWLINE ++ "!")%string.

Definition inSecondLine : Position.Position := Position.mkPosition 1 2.

Definition replaceInFirstLine : TextEdit.TextEdit :=
  TextEdit.replace (Range.ofNumbers 0 1 0 3) "EY".
Definition joinLastLines : TextEdit.TextEdit :=
  TextEdit.replace (Range.ofNumbers 1 4 2 0) " of mine".

(** Values: a number, [null], or what [Object.prototype] holds under one
    of its names. *)
Inductive Setting :=
| Number (n : nat)
| Null
| Builtin (name : string).

Definition isNull (v : Setting) : bool :=
  match v with
  | Null => true
  | _ => false
  end.

Definition someSettings : MockWorkspaceConfiguration.Mementos Setting :=
  MockWorkspaceConfiguration.mkMementos
    (MemoryMemento.mkMemento [("editor.tabSize", Number 4)] "/state/global-state.json")
    (MemoryMemento.mkMemento [("editor.tabSize", Number 2); ("editor.rulers", Null)]
                             "/state/workspace-state.json").

(** A workspace edit without entries, and one array of one edit that its
    caller holds. *)
Definition oneArray : WorkspaceEdit.WorkspaceEdit :=
  snd (WorkspaceEdit.newArray [replaceInFirstLine] WorkspaceEdit.new).

(** The result of a validation that has found two errors. *)
Definition twoErrors : WelcomeMessage.ValidationResult :=
  WelcomeMessage.mkValidationResult false (Some ["provider is missing"; "apiKey is empty"]).

(** Disposables that count how often one of them was disposed. *)
Definition counts : Disposable.Disposable nat :=
  Disposable.mkDisposable 1 (fun w => Vscode.Returned (S w)).
Definition breaks : Disposable.Disposable nat :=
  Disposable.mkDisposable 2 (fun w => Vscode.Threw w).
Definition countsToo : Disposable.Disposable nat :=
  Disposable.mkDisposable 3 (fun w => Vscode.Returned (S w)).

(** A listener that disposes the subscription of the listener after it,
    and listeners that do nothing to the emitter. *)
Definition disposesTheNext : Vscode.Behaviour nat nat :=
  fun listener data w =>
    if Nat.eqb listener 1 then (Vscode.Returned (w + data), [Vscode.Unsubscribe 2])
    else (Vscode.Threw (w + data), []).

(** Listeners each of which subscribes a listener that is not subscribed
    yet. *)
Definition subscribesTheNext : Vscode.Behaviour nat nat :=
  fun listener data w => (Vscode.Returned w, [Vscode.Subscribe (S listener)]).

(** Listeners that do nothing to the emitter; the second throws. *)
Definition secondThrows : Vscode.Behaviour nat nat :=
  fun listener data w =>
    if Nat.eqb listener 2 then (Vscode.Threw (w + 10), [])
    else (Vscode.Returned (w + data), []).

End Samples.


(** * Properties of the provider *)

Import Keys KeyboardProvider.

(** ** The laws of handler bodies *)
Section HandlerLaws.

Lemma bind_ret {A B} (a : A) (g : A -> M B) st : bind (ret a) g st = g a st.
Proof. unfold bind, ret. destruct (g a st) as [[[b st2] out2]|]; reflexivity. Qed.

Lemma bind_gets {A B} (f : State -> A) (g : A -> M B) st :
  bind (gets f) g st = g (f st) st.
Proof. unfold bind, gets. destruct (g (f st) st) as [[[b st2] out2]|]; reflexivity. Qed.

Lemma bind_modify {B} (f : State -> State) (g : unit -> M B) st :
  bind (modify f) g st = g tt (f st).
Proof. unfold bind, modify. destruct (g tt (f st)) as [[[b st2] out2]|]; reflexivity. Qed.

Lemma bind_emit {B} (e : Effect) (g : unit -> M B) st :
  bind (emit e) g st = emitFirst e (g tt st).
Proof. unfold bind, emit, emitFirst. destruct (g tt st) as [[[b st2] out2]|]; reflexivity. Qed.

Lemma bind_assoc {A B C} (m : M A) (f : A -> M B) (g : B -> M C) st :
  bind (bind m f) g st = bind m (fun a => bind (f a) g) st.
Proof.
  unfold bind. destruct (m st) as [[[a st1] o1]|]; [|reflexivity].
  destruct (f a st1) as [[[b st2] o2]|]; [|reflexivity].
  destruct (g b st2) as [[[c st3] o3]|]; [|reflexivity].
  now rewrite app_assoc.
Qed.

Lemma bind_unit_ret (m : M unit) st : bind m (fun _ => ret tt) st = m st.
Proof.
  unfold bind, ret. destruct (m st) as [[[[] st1] o1]|]; [|reflexivity].
  now rewrite app_nil_r.
Qed.

Lemma bind_some {A B} (m : M A) (f : A -> M B) st a st1 o1 :
  m st = Some (a, st1, o1) ->
  bind m f st = match f a st1 with
                | Some (b, st2, o2) => Some (b, st2, o1 ++ o2)
                | None => None
                end.
Proof. intros H. unfold bind. now rewrite H. Qed.

Lemma bind_inv {A B} (m : M A) (f : A -> M B) st b st2 out :
  bind m f st = Some (b, st2, out) ->
  exists a st1 o1 o2,
    m st = Some (a, st1, o1) /\ f a st1 = Some (b, st2, o2) /\ out = o1 ++ o2.
Proof.
  unfold bind. destruct (m st) as [[[a st1] o1]|]; [|discriminate].
  destruct (f a st1) as [[[b' st2'] o2]|] eqn:E; [|discriminate].
  intros [= <- <- <-]. now exists a, st1, o1, o2.
Qed.

End HandlerLaws.

(** ** Strings *)
Section StringFacts.

Lemma append_empty_r (s : string) : (s ++ "")%string = s.
Proof. induction s as [|c s IH]; cbn; [reflexivity | now rewrite IH]. Qed.

Lemma append_assoc (a b c : string) : ((a ++ b) ++ c)%string = (a ++ (b ++ c))%string.
Proof. induction a as [|x a IH]; cbn; [reflexivity | now rewrite IH]. Qed.

Lemma length_append (a b : string) :
  String.length (a ++ b) = String.length a + String.length b.
Proof. induction a as [|x a IH]; cbn; [reflexivity | now rewrite IH]. Qed.

Lemma truthy_false (s : string) : Js.truthy s = false <-> s = ""%string.
Proof.
  unfold Js.truthy. rewrite negb_false_iff. apply String.eqb_eq.
Qed.

Lemma truthy_true (s : string) : Js.truthy s = true <-> s <> ""%string.
Proof.
  unfold Js.truthy. rewrite negb_true_iff. apply String.eqb_neq.
Qed.

Lemma startsWith_ESC (s : string) :
  Js.startsWith ESC s = true <-> exists t, s = String "027"%char t.
Proof.
  unfold ESC. destruct s as [|c t]; cbn [Js.startsWith].
  - split; [discriminate | intros [t H]; discriminate].
  - rewrite andb_true_r, Ascii.eqb_eq. split.
    + intros <-. eauto.
    + intros [t' H]. now injection H as -> _.
Qed.

End StringFacts.

(** ** Single units *)
Section Units.
Context {parsing : KeyParsing}.
Variable usePassthrough : bool.

(** Outside capture, a unit that is no framing and no Alt letter is handled
    by source lines 306-417. *)
Lemma handleKeypress_reaches_handleKey k st :
  reachesHandleKey k = true -> notCapturing st = true ->
  handleKeypress usePassthrough k st
  = handleKey (renderedKittyEnabled (rendered st)) (renderedKittyBuffer (rendered st)) k st.
Proof.
  unfold reachesHandleKey, isPasteContent, isFocusReport, isAltLetter, notCapturing.
  intros Hk Hst.
  repeat (apply andb_prop in Hk; destruct Hk as [Hk ?]).
  apply andb_prop in Hst; destruct Hst as [Hp Hd].
  rewrite negb_true_iff in *.
  unfold handleKeypress.
  rewrite !bind_gets, Hk, H2, H1, bind_gets, Hp, bind_gets, Hd, H0.
  cbn [orb].
  destruct (mapAltKeyCharacter (sequence k)); [rewrite H|]; reflexivity.
Qed.

Lemma cancel_backslash st :
  bind clearBackslashTimer (fun _ => set_waitingForEnterRef false) st
  = Some (tt, backslashCancelled st, []).
Proof.
  unfold backslashCancelled.
  destruct st as [[ip pb idr dt [id|] w] a [pend next] rd]; reflexivity.
Qed.

Lemma backslashCancelled_refs st :
  isPasteRef (refs (backslashCancelled st)) = isPasteRef (refs st)
  /\ isDraggingRef (refs (backslashCancelled st)) = isDraggingRef (refs st)
  /\ waitingForEnterRef (refs (backslashCancelled st)) = false
  /\ backslashTimerRef (refs (backslashCancelled st)) = None
  /\ atoms (backslashCancelled st) = atoms st
  /\ rendered (backslashCancelled st) = rendered st.
Proof.
  destruct st as [[ip pb idr dt [id|] w] a [pend next] rd]; cbn; auto 10.
Qed.

Lemma findTimer_removeTimer id l : findTimer id (removeTimer id l) = None.
Proof.
  induction l as [|[i cb] l IH]; cbn; [reflexivity|].
  destruct (Nat.eqb i id) eqn:E; cbn; [assumption|]. now rewrite E.
Qed.

Lemma findTimer_fresh id l cb :
  Forall (fun p => fst p < id) l -> findTimer id (l ++ [(id, cb)]) = Some cb.
Proof.
  induction 1 as [|[i c] l Hi Hl IH]; cbn.
  - now rewrite Nat.eqb_refl.
  - cbn in Hi. destruct (Nat.eqb_spec i id); [lia | assumption].
Qed.

Lemma backslashCancelled_timer st id :
  backslashTimerRef (refs st) = Some id ->
  findTimer id (pending (timers (backslashCancelled st))) = None.
Proof.
  destruct st as [[ip pb idr dt bt w] a [pend next] rd]; cbn. intros ->. cbn.
  apply findTimer_removeTimer.
Qed.

Lemma return_while_waiting k st :
  reachesHandleKey k = true -> notCapturing st = true ->
  isReturn k = true -> waitingForEnterRef (refs st) = true ->
  handleKeypress usePassthrough k st
  = Some (tt, backslashCancelled st, [Broadcast (withShift k)]).
Proof.
  intros Hk Hst Hr Hw.
  rewrite handleKeypress_reaches_handleKey by assumption.
  unfold handleKey, isReturn in *. rewrite bind_gets, Hr, Hw. cbn [andb].
  rewrite <- bind_assoc.
  erewrite bind_some by apply cancel_backslash. reflexivity.
Qed.

Lemma flush_then {B} (rest : unit -> M B) st :
  bind (bind clearBackslashTimer
          (fun _ => bind (set_waitingForEnterRef false)
             (fun _ => broadcastKey (createSpecialKey "" BACKSLASH)))) rest st
  = emitFirst (Broadcast (createSpecialKey "" BACKSLASH)) (rest tt (backslashCancelled st)).
Proof.
  unfold backslashCancelled.
  destruct st as [[ip pb idr dt [id|] w] a [pend next] rd];
    unfold bind, emitFirst; cbn;
    match goal with |- context [rest tt ?s] => destruct (rest tt s) as [[[b st2] o2]|] end;
    reflexivity.
Qed.

Lemma lone_backslash_not_return k :
  isLoneBackslash k = true ->
  sequence k = BACKSLASH /\ name k = "" /\ isReturn k = false /\ isEscapedEnter k = false.
Proof.
  unfold isLoneBackslash, isReturn, isEscapedEnter. intros H.
  apply andb_prop in H. destruct H as [Hs Hn].
  apply String.eqb_eq in Hs. rewrite negb_true_iff in Hn. apply truthy_false in Hn.
  rewrite Hs, Hn. repeat split; reflexivity.
Qed.

Lemma lone_backslash k st :
  reachesHandleKey k = true -> notCapturing st = true -> isLoneBackslash k = true ->
  handleKeypress usePassthrough k st = Some (tt, backslashArmed k st, []).
Proof.
  intros Hk Hst Hb.
  destruct (lone_backslash_not_return k Hb) as (_ & _ & Hr & He).
  rewrite handleKeypress_reaches_handleKey by assumption.
  unfold handleKey, isReturn, isEscapedEnter, isLoneBackslash in *.
  rewrite bind_gets, Hr, He, Hb. cbn [andb].
  unfold backslashArmed.
  destruct st as [[ip pb idr dt bt w] a [pend next] rd]. reflexivity.
Qed.

Lemma backslashArmed_facts k st :
  timersOk st ->
  waitingForEnterRef (refs (backslashArmed k st)) = true
  /\ findTimer (nextTimerId (timers st)) (pending (timers (backslashArmed k st)))
     = Some (BackslashTimeout k)
  /\ isPasteRef (refs (backslashArmed k st)) = isPasteRef (refs st)
  /\ isDraggingRef (refs (backslashArmed k st)) = isDraggingRef (refs st)
  /\ backslashTimerRef (refs (backslashArmed k st)) = Some (nextTimerId (timers st)).
Proof.
  destruct st as [[ip pb idr dt bt w] a [pend next] rd]. unfold timersOk. cbn.
  intros H. repeat split. now apply findTimer_fresh.
Qed.

Lemma fireTimer_backslash id k st :
  findTimer id (pending (timers st)) = Some (BackslashTimeout k) ->
  exists st', fireTimer id st = Some (tt, st', [Broadcast k])
    /\ waitingForEnterRef (refs st') = false
    /\ findTimer id (pending (timers st')) = None
    /\ isPasteRef (refs st') = isPasteRef (refs st)
    /\ isDraggingRef (refs st') = isDraggingRef (refs st).
Proof.
  intros H. unfold fireTimer. rewrite bind_gets, H.
  destruct st as [[ip pb idr dt bt w] a [pend next] rd]. cbn.
  eexists. split; [reflexivity|]. cbn. repeat split. apply findTimer_removeTimer.
Qed.

Lemma escaped_enter k st :
  reachesHandleKey k = true -> notCapturing st = true -> isEscapedEnter k = true ->
  exists st' ev, handleKeypress usePassthrough k st = Some (tt, st', [Broadcast ev])
     /\ name ev = "return" /\ shift ev = true /\ sequence ev = sequence k.
Proof.
  intros Hk Hst Hseq.
  destruct (isReturn k && waitingForEnterRef (refs st))%bool eqn:E.
  - apply andb_prop in E. destruct E as [En Ew].
    rewrite return_while_waiting by assumption.
    do 2 eexists. split; [reflexivity|]. cbn. unfold isReturn in En.
    apply String.eqb_eq in En. auto.
  - rewrite handleKeypress_reaches_handleKey by assumption.
    unfold handleKey, isReturn, isEscapedEnter in *. rewrite bind_gets, E, Hseq.
    do 2 eexists. split; [reflexivity|]. cbn. auto.
Qed.

Lemma backslashArmed_refs k st :
  waitingForEnterRef (refs (backslashArmed k st)) = true
  /\ notCapturing (backslashArmed k st) = notCapturing st
  /\ backslashTimerRef (refs (backslashArmed k st)) = Some (nextTimerId (timers st)).
Proof. destruct st as [[ip pb idr dt bt w] a [pend next] rd]. cbn. auto. Qed.

Lemma notCapturing_cancelled st : notCapturing (backslashCancelled st) = notCapturing st.
Proof.
  unfold notCapturing. destruct (backslashCancelled_refs st) as (-> & -> & _). reflexivity.
Qed.

Lemma run_one i st : run usePassthrough [i] st = step usePassthrough i st.
Proof. cbn [run]. apply bind_unit_ret. Qed.

Lemma run_cons i rest st st1 o1 :
  step usePassthrough i st = Some (tt, st1, o1) ->
  run usePassthrough (i :: rest) st
  = match run usePassthrough rest st1 with
    | Some (u, st2, o2) => Some (u, st2, o1 ++ o2)
    | None => None
    end.
Proof. intros H. cbn [run]. rewrite (bind_some _ _ _ _ _ _ H). reflexivity. Qed.

(** C2. Each of the three raw encodings of Shift+Enter, ESC with CR, ESC
    with LF, and a lone backslash followed by a Return before the backslash
    timer has fired, makes the decoder broadcast exactly one event, a Return
    with Shift; in the third case the backslash itself is not broadcast, and
    its timer is no longer pending. *)
Theorem shift_enter_encodings (st : State) (escCR escLF bs ret : Key) :
  notCapturing st = true ->
  reachesHandleKey escCR = true -> sequence escCR = ESC_CR ->
  reachesHandleKey escLF = true -> sequence escLF = ESC_LF ->
  reachesHandleKey bs = true -> isLoneBackslash bs = true ->
  reachesHandleKey ret = true -> isReturn ret = true ->
  (exists st' ev, run usePassthrough [Keypress escCR] st = Some (tt, st', [Broadcast ev])
                  /\ isShiftReturn ev = true)
  /\ (exists st' ev, run usePassthrough [Keypress escLF] st = Some (tt, st', [Broadcast ev])
                     /\ isShiftReturn ev = true)
  /\ (exists st' ev,
        run usePassthrough [Keypress bs; Keypress ret] st = Some (tt, st', [Broadcast ev])
        /\ isShiftReturn ev = true
        /\ waitingForEnterRef (refs st') = false
        /\ findTimer (nextTimerId (timers st)) (pending (timers st')) = None).
Proof.
  intros Hst Hcr Scr Hlf Slf Hbs Lbs Hret Rret.
  assert (E : forall k, reachesHandleKey k = true -> isEscapedEnter k = true ->
              exists st' ev, run usePassthrough [Keypress k] st = Some (tt, st', [Broadcast ev])
                             /\ isShiftReturn ev = true).
  { intros k Hk He. rewrite run_one. cbn [step].
    destruct (escaped_enter k st Hk Hst He) as (st' & ev & -> & Hn & Hs & _).
    exists st', ev. split; [reflexivity|]. unfold isShiftReturn. now rewrite Hn, Hs. }
  split; [|split].
  - apply E; [assumption|]. unfold isEscapedEnter. rewrite Scr. reflexivity.
  - apply E; [assumption|]. unfold isEscapedEnter. rewrite Slf. reflexivity.
  - destruct (backslashArmed_refs bs st) as (Hw & Hc & Hr).
    erewrite run_cons by (cbn [step]; now apply lone_backslash).
    rewrite run_one. cbn [step].
    assert (Hc' : notCapturing (backslashArmed bs st) = true) by now rewrite Hc.
    rewrite (return_while_waiting ret _ Hret Hc' Rret Hw).
    do 2 eexists. split; [reflexivity|].
    destruct (backslashCancelled_refs (backslashArmed bs st)) as (_ & _ & Hw' & _).
    split; [|split].
    + unfold isShiftReturn, isReturn in *. cbn. now rewrite Rret.
    + assumption.
    + now apply backslashCancelled_timer.
Qed.

(** A lone backslash arms the backslash timer and broadcasts nothing, and
    it changes no atom, so that no render follows from it. When the timer
    fires next, no Return having come and no render having run the cleanup,
    the decoder broadcasts exactly one event, the backslash key itself,
    which is no Return, and nothing of the backslash stays pending. *)
Lemma lone_backslash_times_out (st : State) (bs : Key) :
  notCapturing st = true -> timersOk st ->
  reachesHandleKey bs = true -> isLoneBackslash bs = true ->
  exists st1 st2,
    handleKeypress usePassthrough bs st = Some (tt, st1, [])
    /\ waitingForEnterRef (refs st1) = true
    /\ run usePassthrough [Keypress bs; TimerFires (nextTimerId (timers st))] st
       = Some (tt, st2, [Broadcast bs])
    /\ sequence bs = BACKSLASH /\ name bs = ""%string /\ isReturn bs = false
    /\ waitingForEnterRef (refs st2) = false
    /\ findTimer (nextTimerId (timers st)) (pending (timers st2)) = None.
Proof.
  intros Hst Hok Hbs Lbs.
  destruct (backslashArmed_facts bs st Hok) as (Hw & Hf & _).
  destruct (fireTimer_backslash _ _ _ Hf) as (st2 & Hfire & Hw2 & Hf2 & _).
  destruct (lone_backslash_not_return bs Lbs) as (Hs & Hn & Hr & _).
  exists (backslashArmed bs st), st2.
  rewrite lone_backslash by assumption.
  erewrite run_cons by (cbn [step]; now apply lone_backslash).
  rewrite run_one. cbn [step]. rewrite Hfire. auto 10.
Qed.

Lemma not_ESC_not_escaped_enter k :
  Js.startsWith ESC (sequence k) = false -> isEscapedEnter k = false.
Proof.
  unfold isEscapedEnter. intros H.
  destruct (String.eqb_spec (sequence k) ESC_CR) as [E|_];
    [rewrite E in H; discriminate|].
  destruct (String.eqb_spec (sequence k) ESC_LF) as [E|_];
    [rewrite E in H; discriminate|]. reflexivity.
Qed.

Lemma flush_before_unit (st : State) (k : Key) :
  waitingForEnterRef (refs st) = true -> notCapturing st = true ->
  reachesHandleKey k = true ->
  isReturn k = false -> isEscapedEnter k = false -> isLoneBackslash k = false ->
  handleKeypress usePassthrough k st
  = emitFirst (Broadcast (createSpecialKey "" BACKSLASH))
              (handleKeypress usePassthrough k (backslashCancelled st)).
Proof.
  intros Hw Hst Hk Hr He Hb.
  destruct (backslashCancelled_refs st) as (_ & _ & Hw' & Ht' & _ & Ha).
  rewrite !handleKeypress_reaches_handleKey;
    try assumption; [|now rewrite notCapturing_cancelled].
  rewrite Ha. unfold handleKey, isReturn, isEscapedEnter, isLoneBackslash in *.
  rewrite !bind_gets, Hw, Hw', Hr, He, Hb. cbn [andb negb when].
  rewrite flush_then, bind_ret. reflexivity.
Qed.

(** C8, as the code has it. While a backslash is pending and nothing is
    being captured, a unit that the earlier rules leave alone (no focus
    report, no paste marker, no drag start, no Alt letter, no Return, no
    ESC with CR or LF, no lone backslash) cancels the pending timer, makes
    the decoder broadcast the literal backslash first, and is then handled
    exactly as it would be with nothing pending. *)
Theorem pending_backslash_flushes_first (st : State) (k : Key) :
  waitingForEnterRef (refs st) = true -> notCapturing st = true ->
  reachesHandleKey k = true ->
  isReturn k = false -> isEscapedEnter k = false -> isLoneBackslash k = false ->
  handleKeypress usePassthrough k st
  = emitFirst (Broadcast (createSpecialKey "" BACKSLASH))
              (handleKeypress usePassthrough k (backslashCancelled st))
  /\ waitingForEnterRef (refs (backslashCancelled st)) = false
  /\ backslashTimerRef (refs (backslashCancelled st)) = None
  /\ (forall id, backslashTimerRef (refs st) = Some id ->
                 findTimer id (pending (timers (backslashCancelled st))) = None).
Proof.
  intros Hw Hst Hk Hr He Hb.
  destruct (backslashCancelled_refs st) as (_ & _ & Hw' & Ht' & _).
  split; [now apply flush_before_unit|].
  split; [assumption | split; [assumption | apply backslashCancelled_timer]].
Qed.

(** A unit that source lines 340-417 handle: the pending backslash first,
    then the extended-protocol stage and what follows it. *)
Lemma ordinary_unit k st :
  notCapturing st = true -> reachesHandleKey k = true ->
  isOrdinary (waitingForEnterRef (refs st)) k = true ->
  handleKeypress usePassthrough k st
  = if waitingForEnterRef (refs st)
    then emitFirst (Broadcast (createSpecialKey "" BACKSLASH))
                   (handleSequence (renderedKittyEnabled (rendered st))
                                   (renderedKittyBuffer (rendered st)) k
                                   (backslashCancelled st))
    else handleSequence (renderedKittyEnabled (rendered st))
                        (renderedKittyBuffer (rendered st)) k st.
Proof.
  intros Hst Hk Ho. unfold isOrdinary in Ho.
  apply andb_prop in Ho. destruct Ho as [Ho Hb].
  apply andb_prop in Ho. destruct Ho as [Hr He].
  rewrite negb_true_iff in Hr, He, Hb.
  rewrite handleKeypress_reaches_handleKey by assumption.
  unfold handleKey, isReturn, isEscapedEnter, isLoneBackslash in *.
  rewrite bind_gets, Hr, He, Hb.
  destruct (waitingForEnterRef (refs st)).
  - rewrite andb_true_r in Hr. rewrite Hr. cbn [andb negb when].
    now rewrite flush_then.
  - cbn [andb when]. now rewrite bind_ret.
Qed.

(** *** Paste framing *)

Lemma paste_start k st :
  isPasteStart k = true ->
  handleKeypress usePassthrough k st = Some (tt, pasteStarted st, []).
Proof.
  unfold isPasteStart, isFocusReport. intros H.
  apply andb_prop in H. destruct H as [Hf Hs]. rewrite negb_true_iff in Hf.
  unfold handleKeypress. rewrite !bind_gets, Hf, Hs.
  destruct st as [[ip pb idr dt bt w] a t rd]. reflexivity.
Qed.

Lemma paste_end k st :
  isPasteEnd k = true -> handleKeypress usePassthrough k st = completePaste st.
Proof.
  unfold isPasteEnd, isFocusReport. intros H.
  apply andb_prop in H. destruct H as [H He].
  apply andb_prop in H. destruct H as [Hf Hs]. rewrite negb_true_iff in Hf, Hs.
  unfold handleKeypress. now rewrite !bind_gets, Hf, Hs, He.
Qed.

Lemma completePaste_flushes st :
  isPasteRef (refs st) = true -> pasteBufferRef (refs st) <> ""%string ->
  completePaste st
  = Some (tt, pasteCompleted st,
          [Broadcast (createPasteKey (Js.replaceCR (Js.replaceCRLF (pasteBufferRef (refs st)))))]).
Proof.
  intros Hp Hb. apply truthy_true in Hb.
  unfold completePaste. rewrite !bind_gets, Hp, Hb. cbn [andb].
  destruct st as [[ip pb idr dt bt w] a t rd]. reflexivity.
Qed.

Lemma completePaste_idle st :
  (isPasteRef (refs st) && Js.truthy (pasteBufferRef (refs st)))%bool = false ->
  completePaste st = Some (tt, st, []).
Proof. intros H. unfold completePaste. now rewrite !bind_gets, H. Qed.

Lemma paste_capture k st :
  isPasteRef (refs st) = true -> isPasteContent k = true ->
  handleKeypress usePassthrough k st
  = Some (tt, if usePassthrough then st else pasteCaptured (sequence k) st, []).
Proof.
  unfold isPasteContent, isFocusReport. intros Hp H.
  apply andb_prop in H. destruct H as [H He].
  apply andb_prop in H. destruct H as [Hf Hs]. rewrite negb_true_iff in Hf, Hs, He.
  unfold handleKeypress. rewrite !bind_gets, Hf, Hs, He, bind_gets, Hp.
  destruct usePassthrough; [reflexivity|].
  destruct st as [[ip pb idr dt bt w] a t rd]. reflexivity.
Qed.

Lemma pasteCaptured_empty st : pasteCaptured "" st = st.
Proof.
  destruct st as [[ip pb idr dt bt w] [pm b dm db kb ke] t rd].
  unfold pasteCaptured. cbn. now rewrite !append_empty_r.
Qed.

Lemma pasteCaptured_twice a b st :
  pasteCaptured b (pasteCaptured a st) = pasteCaptured (a ++ b) st.
Proof. unfold pasteCaptured. cbn. now rewrite !append_assoc. Qed.

Lemma run_app l1 l2 st st1 o1 :
  run usePassthrough l1 st = Some (tt, st1, o1) ->
  run usePassthrough (l1 ++ l2) st
  = match run usePassthrough l2 st1 with
    | Some (u, st2, o2) => Some (u, st2, o1 ++ o2)
    | None => None
    end.
Proof.
  revert st st1 o1. induction l1 as [|i l1 IH]; intros st st1 o1 H.
  - cbn in H. injection H as <- <-. cbn [app].
    destruct (run usePassthrough l2 st) as [[[[] s] o]|]; reflexivity.
  - cbn [run app] in *. apply bind_inv in H.
    destruct H as ([] & sa & oa & ob & Hs & Hr & ->).
    rewrite (bind_some _ _ _ _ _ _ Hs). rewrite (IH _ _ _ Hr).
    destruct (run usePassthrough l2 st1) as [[[[] s] o]|]; [|reflexivity].
    now rewrite app_assoc.
Qed.

End Units.

(** ** Renders *)
Section Renders.

(** The cleanup of the effect, as it acts on the provider. *)
Lemma flushPending_flushes (st : State) :
  flushPending st
  = Some (tt, flushed st, broadcastAll (pendingPaste st ++ pendingDrag st)).
Proof.
  unfold flushed, pendingPaste, pendingDrag, pasteIsDue, dragIsDue, broadcastAll.
  destruct st as [[ip pb idr dt bt w] [pm pbuf dm dbuf kbuf ke] [pend next]
                  [rpaste rdrag rkitty renabled]].
  destruct dt as [d|], bt as [b|], ip, idr, pb as [|c1 pb], rdrag as [|c2 rdrag];
    reflexivity.
Qed.

(** A render does nothing when the atoms hold what the last render read;
    otherwise the cleanup runs and the handlers get the new values. *)
Lemma render_runs_the_cleanup (st : State) :
  render st
  = if sameRendered (readAtoms (atoms st)) (rendered st) then Some (tt, st, [])
    else Some (tt, withRendered (readAtoms (atoms st)) (flushed st),
               broadcastAll (pendingPaste st ++ pendingDrag st)).
Proof.
  unfold render. rewrite !bind_gets.
  destruct (sameRendered (readAtoms (atoms st)) (rendered st)); [reflexivity|].
  rewrite (bind_some _ _ _ _ _ _ (flushPending_flushes st)).
  unfold set_rendered, modify, withRendered. now rewrite app_nil_r.
Qed.

Lemma sameRendered_refl (x : Rendered) : sameRendered x x = true.
Proof.
  unfold sameRendered. rewrite !String.eqb_refl. now destruct (renderedKittyEnabled x).
Qed.

Lemma sameRendered_eq (x y : Rendered) : sameRendered x y = true <-> x = y.
Proof.
  split; [|intros ->; apply sameRendered_refl].
  destruct x as [a b c d], y as [a' b' c' d']. unfold sameRendered. cbn.
  rewrite !andb_true_iff, !String.eqb_eq. intros [[[-> ->] ->] H].
  apply Bool.eqb_prop in H. now subst.
Qed.

(** After a render the handlers hold what the render read. *)
Lemma render_reads_the_atoms (st st' : State) (out : list Effect) :
  render st = Some (tt, st', out) -> rendered st' = readAtoms (atoms st).
Proof.
  rewrite render_runs_the_cleanup.
  destruct (sameRendered (readAtoms (atoms st)) (rendered st)) eqn:E;
    intros [= <- <-]; [|reflexivity].
  apply sameRendered_eq in E. now symmetry.
Qed.

End Renders.

(** ** Decoded-keypress mode *)
Section KeypressMode.
Context {parsing : KeyParsing}.

Lemma capture_run content st :
  isPasteRef (refs st) = true -> forallb isPasteContent content = true ->
  run false (map Keypress content) st
  = Some (tt, pasteCaptured (capturedText content) st, []).
Proof.
  revert st. induction content as [|k content IH]; intros st Hp Hc.
  - cbn. now rewrite pasteCaptured_empty.
  - cbn [forallb] in Hc. apply andb_prop in Hc. destruct Hc as [Hk Hc].
    cbn [map capturedText].
    erewrite run_cons by (cbn [step]; now apply paste_capture).
    rewrite IH by assumption. now rewrite pasteCaptured_twice.
Qed.

Lemma replaceCRLF_step c d u :
  Js.replaceCRLF (String c (String d u))
  = if (Ascii.eqb c Js.CR && Ascii.eqb d Js.LF)%bool
    then String Js.LF (Js.replaceCRLF u)
    else String c (Js.replaceCRLF (String d u)).
Proof. reflexivity. Qed.

Lemma normalizePastedText_step c d u :
  Js.normalizePastedText (String c (String d u))
  = if Ascii.eqb c Js.CR
    then (if Ascii.eqb d Js.LF then String Js.LF (Js.normalizePastedText u)
          else String Js.LF (Js.normalizePastedText (String d u)))
    else String c (Js.normalizePastedText (String d u)).
Proof. reflexivity. Qed.

Lemma replaceCR_step c t :
  Js.replaceCR (String c t)
  = String (if Ascii.eqb c Js.CR then Js.LF else c) (Js.replaceCR t).
Proof. reflexivity. Qed.

Lemma replace_chain_is_normalizePastedText s :
  Js.replaceCR (Js.replaceCRLF s) = Js.normalizePastedText s.
Proof.
  enough (H : Js.replaceCR (Js.replaceCRLF s) = Js.normalizePastedText s
              /\ forall c, Js.replaceCR (Js.replaceCRLF (String c s))
                           = Js.normalizePastedText (String c s)) by apply H.
  induction s as [|d u [IHu IHdu]].
  - split; [reflexivity|]. intros c. cbn [Js.replaceCRLF Js.replaceCR Js.normalizePastedText].
    destruct (Ascii.eqb c Js.CR); reflexivity.
  - split; [apply IHdu|]. intros c.
    rewrite replaceCRLF_step, normalizePastedText_step.
    destruct (Ascii.eqb c Js.CR) eqn:Ec; cbn [andb].
    + destruct (Ascii.eqb d Js.LF) eqn:Ed; rewrite replaceCR_step.
      * change (Ascii.eqb Js.LF Js.CR) with false. cbv iota. now rewrite IHu.
      * rewrite Ec. now rewrite IHdu.
    + rewrite replaceCR_step, Ec. now rewrite IHdu.
Qed.

Lemma replaceCR_has_no_CR s : Js.hasCR (Js.replaceCR s) = false.
Proof.
  induction s as [|c t IH]; [reflexivity|]. cbn [Js.replaceCR Js.hasCR]. rewrite IH.
  destruct (Ascii.eqb c Js.CR) eqn:E; [reflexivity | now rewrite E].
Qed.

(** Within one tick, in decoded-keypress mode, a paste start marker,
    then units that are neither focus reports nor paste markers and whose
    text together is not empty, then the end marker, make the decoder
    broadcast exactly one event: a paste event whose text is the captured
    text with every CR LF, and then every CR left, replaced by LF. No
    carriage return is left in it, and the decoder is out of paste
    capture. *)
Lemma paste_emits_one_normalized_event (st : State) (startKey endKey : Key)
        (content : list Key) :
  isPasteStart startKey = true ->
  forallb isPasteContent content = true ->
  isPasteEnd endKey = true ->
  capturedText content <> ""%string ->
  exists st' ev,
    run false (Keypress startKey :: map Keypress content ++ [Keypress endKey]) st
    = Some (tt, st', [Broadcast ev])
    /\ ev = createPasteKey (Js.replaceCR (Js.replaceCRLF (capturedText content)))
    /\ paste ev = true
    /\ sequence ev = Js.normalizePastedText (capturedText content)
    /\ Js.hasCR (sequence ev) = false
    /\ isPasteRef (refs st') = false
    /\ pasteBufferRef (refs st') = ""%string.
Proof.
  intros Hs Hc He Hne.
  erewrite run_cons by (cbn [step]; now apply paste_start).
  erewrite run_app by (now apply capture_run).
  rewrite run_one. cbn [step]. rewrite paste_end by assumption.
  rewrite completePaste_flushes; [| reflexivity | cbn; assumption].
  cbn [app pasteCaptured pasteStarted refs pasteBufferRef append].
  do 2 eexists. split; [reflexivity|].
  split; [reflexivity|]. split; [reflexivity|].
  split; [apply replace_chain_is_normalizePastedText|].
  split; [apply replaceCR_has_no_CR|]. split; reflexivity.
Qed.

Lemma kittyLoop_state_free fuel : forall buffer parsedAny st x st' out,
  kittyLoop fuel buffer parsedAny st = Some (x, st', out) ->
  st' = st
  /\ (snd x = false -> out = [])
  /\ forall s, kittyLoop fuel buffer parsedAny s = Some (x, s, out).
Proof.
  induction fuel as [|fuel IH]; intros buffer parsedAny st x st' out H; [discriminate|].
  cbn [kittyLoop] in *. destruct (negb (Js.truthy buffer)).
  { inversion H; subst. auto. }
  destruct (key (parseKittySequence buffer)) as [ev|].
  - destruct (Nat.eqb (consumedLength (parseKittySequence buffer)) 0); [discriminate|].
    unfold broadcastKey in *. rewrite bind_emit in H. unfold emitFirst in H.
    destruct (kittyLoop fuel _ true st) as [[[y s1] o1]|] eqn:E; [|discriminate].
    inversion H; subst. destruct (IH _ _ _ _ _ _ E) as (-> & Ho & Hs).
    split; [reflexivity|]. split.
    + intros Hx. exfalso. clear - E Hx IH.
      assert (T : forall f b s y s1 o, kittyLoop f b true s = Some (y, s1, o) -> snd y = true).
      { clear. induction f as [|f IHf]; intros b s y s1 o H; [discriminate|].
        cbn [kittyLoop] in H. destruct (negb (Js.truthy b)); [now inversion H|].
        destruct (key (parseKittySequence b)).
        - destruct (Nat.eqb (consumedLength (parseKittySequence b)) 0); [discriminate|].
          unfold broadcastKey in H. rewrite bind_emit in H. unfold emitFirst in H.
          destruct (kittyLoop f _ true s) as [[[z s2] o2]|] eqn:E; [|discriminate].
          inversion H; subst. eapply IHf. exact E.
        - destruct (Js.indexOf ESC 1 b); [|now inversion H].
          destruct (Nat.ltb 0 n); [eapply IHf; exact H | now inversion H]. }
      apply T in E. congruence.
    + intros s. rewrite bind_emit, Hs. reflexivity.
  - destruct (Js.indexOf ESC 1 buffer) as [nextStart|]; [|inversion H; subst; auto].
    destruct (Nat.ltb 0 nextStart); [|inversion H; subst; auto].
    now apply IH in H.
Qed.

(** When the extended-protocol stage lets a unit through, it has
    broadcast nothing and has left the cells as they were, and so it does
    from every state. *)
Lemma handleKittySequence_passes e kb k st st1 out :
  handleKittySequence e kb k st = Some (false, st1, out) ->
  out = [] /\ refs st1 = refs st
  /\ forall s, exists s1,
       handleKittySequence e kb k s = Some (false, s1, []) /\ refs s1 = refs s.
Proof.
  unfold handleKittySequence. intros H.
  destruct (e && Js.startsWith ESC (sequence k))%bool.
  2:{ inversion H; subst. repeat split. intros s. now exists s. }
  destruct (key (parseKittySequence (sequence k))) as [ev|].
  { unfold broadcastKey in H. rewrite bind_emit in H. discriminate H. }
  unfold appendToKittyBuffer at 1, onAtoms in H. rewrite bind_modify in H.
  apply bind_inv in H. destruct H as ([b pa] & s' & o1 & o2 & Hloop & H & ->).
  destruct (kittyLoop_state_free _ _ _ _ _ _ _ Hloop) as (-> & Ho & Hs).
  destruct pa.
  { unfold clearKittyBuffer, onAtoms in H. rewrite bind_modify in H.
    apply bind_inv in H. destruct H as (? & ? & ? & ? & _ & H & _). discriminate H. }
  rewrite (Ho eq_refl) in *.
  destruct (Nat.ltb MAX_KITTY_SEQUENCE_LENGTH (String.length kb)); [|discriminate H].
  unfold clearKittyBuffer, onAtoms in H. rewrite bind_modify in H.
  inversion H; subst. repeat split.
  intros s. eexists.
  unfold appendToKittyBuffer at 1, onAtoms. rewrite bind_modify.
  rewrite (bind_some _ _ _ _ _ _ (Hs _)). unfold clearKittyBuffer, onAtoms.
  rewrite bind_modify. split; reflexivity.
Qed.

(** C3, as the code has it. During paste capture a Ctrl+C is captured like
    any other unit: nothing is broadcast, the decoder stays in paste
    capture, and in decoded-keypress mode the unit's text is added to the
    paste buffer. Outside paste and drag capture, a Ctrl+C that reaches the
    Ctrl+C check is broadcast, after the pending backslash if there is one
    and with no paste event, and leaves the paste, drag and
    extended-sequence buffers of the store empty. *)
Theorem ctrl_c_is_captured_during_paste (usePassthrough : bool) (st : State) (k : Key) :
  isCtrlC k = true ->
  (isPasteRef (refs st) = true -> isPasteContent k = true ->
   exists st',
     handleKeypress usePassthrough k st = Some (tt, st', [])
     /\ isPasteRef (refs st') = true
     /\ pasteBufferRef (refs st')
        = if usePassthrough then pasteBufferRef (refs st)
          else (pasteBufferRef (refs st) ++ sequence k)%string)
  /\ (notCapturing st = true -> reachesCtrlCStep k st = true ->
      exists st',
        handleKeypress usePassthrough k st
        = Some (tt, st',
                (if waitingForEnterRef (refs st)
                 then [Broadcast (createSpecialKey "" BACKSLASH)] else [])
                ++ [Broadcast k])
        /\ isPasteRef (refs st') = false
        /\ pasteBuffer (atoms st') = ""%string
        /\ dragBuffer (atoms st') = ""%string
        /\ kittySequenceBuffer (atoms st') = ""%string).
Proof.
  intros Hc. split.
  - intros Hp Hk. rewrite paste_capture by assumption.
    eexists. split; [reflexivity|].
    destruct usePassthrough; cbn; auto.
  - intros Hst Hr. unfold reachesCtrlCStep in Hr.
    apply andb_prop in Hr. destruct Hr as [Hr Hpass].
    apply andb_prop in Hr. destruct Hr as [Hk Ho].
    assert (Hp : isPasteRef (refs st) = false).
    { unfold notCapturing in Hst. apply andb_prop in Hst. destruct Hst as [Hp _].
      now rewrite negb_true_iff in Hp. }
    unfold passesKittyStage in Hpass.
    destruct (handleKittySequence _ _ k st) as [[[returned s0] o0]|] eqn:E;
      [|discriminate].
    rewrite negb_true_iff in Hpass. subst returned.
    destruct (handleKittySequence_passes _ _ _ _ _ _ E) as (_ & _ & Hs).
    assert (T : forall s, isPasteRef (refs s) = false ->
                exists st',
                  handleSequence (renderedKittyEnabled (rendered st))
                                 (renderedKittyBuffer (rendered st)) k s
                  = Some (tt, st', [Broadcast k])
                  /\ isPasteRef (refs st') = false
                  /\ pasteBuffer (atoms st') = ""%string
                  /\ dragBuffer (atoms st') = ""%string
                  /\ kittySequenceBuffer (atoms st') = ""%string).
    { intros s Hps. destruct (Hs s) as (s1 & Es & Hrefs).
      unfold handleSequence. rewrite (bind_some _ _ _ _ _ _ Es).
      unfold isCtrlC in Hc. rewrite Hc. cbn [when].
      unfold clearBuffers, onAtoms, broadcastKey. rewrite bind_modify.
      eexists. split; [reflexivity|]. cbn. rewrite Hrefs. auto. }
    rewrite (ordinary_unit usePassthrough k st Hst Hk Ho).
    destruct (waitingForEnterRef (refs st)) eqn:Hw.
    + destruct (backslashCancelled_refs st) as (Hp' & _).
      destruct (T (backslashCancelled st)) as (st' & -> & F); [now rewrite Hp'|].
      exists st'. split; [reflexivity|]. exact F.
    + destruct (T st Hp) as (st' & -> & F).
      exists st'. split; [reflexivity|]. exact F.
Qed.

End KeypressMode.

(** ** What a handler leaves unchanged *)
Section Preservation.
Context {parsing : KeyParsing}.
Variable R : State -> State -> Prop.
Hypothesis R_refl : forall st, R st st.
Hypothesis R_trans : forall a b c, R a b -> R b c -> R a c.

Lemma preserves_ret {A} (a : A) : preserves R (ret a).
Proof. intros st x st' out H. inversion H. subst. apply R_refl. Qed.

Lemma preserves_gets {A} (f : State -> A) : preserves R (gets f).
Proof. intros st x st' out H. inversion H. subst. apply R_refl. Qed.

Lemma preserves_emit e : preserves R (emit e).
Proof. intros st x st' out H. inversion H. subst. apply R_refl. Qed.

Lemma preserves_diverge {A} : preserves R (@diverge A).
Proof. intros st x st' out [=]. Qed.

Lemma preserves_modify f : (forall st, R st (f st)) -> preserves R (modify f).
Proof. intros H st x st' out E. inversion E. subst. apply H. Qed.

Lemma preserves_bind {A B} (m : M A) (f : A -> M B) :
  preserves R m -> (forall a, preserves R (f a)) -> preserves R (bind m f).
Proof.
  intros Hm Hf st b st' out H. apply bind_inv in H.
  destruct H as (a & st1 & o1 & o2 & H1 & H2 & _).
  eapply R_trans; [eapply Hm | eapply Hf]; eassumption.
Qed.

Lemma preserves_when b m : preserves R m -> preserves R (when b m).
Proof. intros H. destruct b; [exact H | apply preserves_ret]. Qed.

Lemma preserves_setTimeout cb :
  (forall st t, R st (mkState (refs st) (atoms st) t (rendered st))) -> preserves R (setTimeout cb).
Proof. intros H st x st' out E. inversion E. subst. apply H. Qed.

End Preservation.

(** Breaks a handler body into its steps; what is left are the writes. *)
Ltac preserve_steps :=
  repeat first
    [ apply preserves_ret; solve [eauto]
    | apply preserves_gets; solve [eauto]
    | apply preserves_emit; solve [eauto]
    | apply preserves_diverge
    | apply preserves_bind; [solve [eauto] | | intros ? ]
    | apply preserves_when; [solve [eauto] | ]
    | match goal with
      | |- preserves _ (if ?b then _ else _) => destruct b
      | |- preserves _ (match ?x with Some _ => _ | None => _ end) => destruct x
      | |- preserves _ (match ?x with (_, _) => _ end) => destruct x
      | |- preserves _ (match ?x with CompleteDrag _ => _ | BackslashTimeout _ => _ end) =>
          destruct x
      end ].

(** A write to a cell or to the timers keeps a relation that does not read
    what is written. *)
Ltac preserve_write :=
  first
    [ apply preserves_modify;
      intros [[? ? ? ? ? ?] [? ? ? ? ? ?] [? ?] [? ? ? ?]]; cbv; intuition congruence
    | apply preserves_setTimeout;
      intros [[? ? ? ? ? ?] [? ? ? ? ? ?] [? ?] [? ? ? ?]] ?; cbv; intuition congruence ].

Section CaptureFlags.
Context {parsing : KeyParsing}.
Variable usePassthrough : bool.

Lemma sameCapture_refl st : sameCapture st st.
Proof. split; reflexivity. Qed.

Lemma sameCapture_trans a b c : sameCapture a b -> sameCapture b c -> sameCapture a c.
Proof. intros [H1 H2] [H3 H4]. split; congruence. Qed.

Lemma sameDrag_refl st : sameDrag st st.
Proof. reflexivity. Qed.

Lemma sameDrag_trans a b c : sameDrag a b -> sameDrag b c -> sameDrag a c.
Proof. unfold sameDrag. congruence. Qed.

Lemma noNewDrag_refl st : noNewDrag st st.
Proof. split; auto. Qed.

Lemma noNewDrag_trans a b c : noNewDrag a b -> noNewDrag b c -> noNewDrag a c.
Proof. intros [H1 H2] [H3 H4]. split; [congruence | auto]. Qed.

Hint Resolve sameCapture_refl sameCapture_trans sameDrag_refl sameDrag_trans
  noNewDrag_refl noNewDrag_trans : core.

Lemma kittyLoop_sameCapture fuel buffer parsedAny :
  preserves sameCapture (kittyLoop fuel buffer parsedAny).
Proof.
  revert buffer parsedAny. induction fuel as [|fuel IH]; intros buffer parsedAny;
    cbn [kittyLoop]; unfold broadcastKey; preserve_steps; auto.
Qed.

Lemma clearBackslashTimer_sameCapture : preserves sameCapture clearBackslashTimer.
Proof.
  unfold clearBackslashTimer, clearTimeout, set_backslashTimerRef, onTimers, onRefs.
  preserve_steps; preserve_write.
Qed.

Lemma handleKey_sameCapture e kb k : preserves sameCapture (handleKey e kb k).
Proof.
  pose proof kittyLoop_sameCapture. pose proof clearBackslashTimer_sameCapture.
  unfold handleKey, handleSequence, handleKittySequence, broadcastKey,
    set_waitingForEnterRef, set_backslashTimerRef, appendToKittyBuffer, clearKittyBuffer,
    clearBuffers, onRefs, onAtoms.
  preserve_steps; try preserve_write; auto.
Qed.

Lemma completePaste_sameDrag : preserves sameDrag completePaste.
Proof.
  unfold completePaste, broadcastKey, setPasteMode, set_isPasteRef, set_pasteBufferRef,
    onRefs, onAtoms.
  preserve_steps; preserve_write.
Qed.

Lemma scanRawData_sameDrag fuel dataStr pos :
  preserves sameDrag (scanRawData fuel dataStr pos).
Proof.
  pose proof completePaste_sameDrag.
  revert pos. induction fuel as [|fuel IH]; intros pos; cbn [scanRawData];
    unfold accumulateOrForward, setPasteMode, set_isPasteRef, set_pasteBufferRef,
      appendToPasteBuffer, onRefs, onAtoms;
    preserve_steps; try preserve_write; auto.
Qed.

Lemma clearDragTimer_noNewDrag : preserves noNewDrag clearDragTimer.
Proof.
  unfold clearDragTimer, clearTimeout, set_dragTimerRef, onTimers, onRefs.
  preserve_steps; preserve_write.
Qed.

Lemma fireTimer_noNewDrag id : preserves noNewDrag (fireTimer id).
Proof.
  pose proof clearDragTimer_noNewDrag.
  unfold fireTimer, runCallback, completeDrag, broadcastKey, setDragMode,
    set_isDraggingRef, set_waitingForEnterRef, onTimers, onRefs, onAtoms.
  preserve_steps; try preserve_write; auto.
Qed.

Lemma noDragStarted_refl st : noDragStarted st st.
Proof. intros H. exact H. Qed.

Lemma noDragStarted_trans a b c :
  noDragStarted a b -> noDragStarted b c -> noDragStarted a c.
Proof. unfold noDragStarted. auto. Qed.

Hint Resolve noDragStarted_refl noDragStarted_trans : core.

(** A render, with the cleanup it may bring, starts no drag capture. *)
Lemma render_noDragStarted : preserves noDragStarted render.
Proof.
  unfold render, flushPending, completePaste, completeDrag, clearDragTimer,
    clearBackslashTimer, clearTimeout, clearBuffers, broadcastKey, setPasteMode,
    setDragMode, set_isPasteRef, set_pasteBufferRef, set_isDraggingRef, set_dragTimerRef,
    set_backslashTimerRef, set_rendered, onTimers, onRefs, onAtoms.
  preserve_steps; try preserve_write; auto.
Qed.

(** C4, as the code has it. Drag capture never begins during paste capture
    nor together with it: after any keypress, chunk of raw data, timer or
    render, paste and drag capture are both active only if drag capture was
    active before. *)
Theorem drag_never_starts_during_paste (i : Input) (st st' : State) (out : list Effect) :
  step usePassthrough i st = Some (tt, st', out) ->
  isPasteRef (refs st') = true ->
  isDraggingRef (refs st') = true ->
  isDraggingRef (refs st) = true.
Proof.
  intros H Hp Hd. destruct i as [k | dataStr | id | ]; cbn [step] in H.
  4:{ apply render_noDragStarted in H. auto. }
  - unfold handleKeypress in H. rewrite !bind_gets in H.
    destruct (isFocusIn (isFocusEvent (sequence k)) || isFocusOut (isFocusEvent (sequence k)))%bool.
    { inversion H; subst; assumption. }
    destruct (isStart (isPasteModeBoundary (sequence k))).
    { destruct st as [[ip pb idr dt bt w] a t rd]. cbn in H. inversion H; subst. exact Hd. }
    destruct (isEnd (isPasteModeBoundary (sequence k))).
    { apply completePaste_sameDrag in H. now rewrite <- H. }
    rewrite bind_gets in H. destruct (isPasteRef (refs st)) eqn:Ep.
    { destruct usePassthrough; destruct st as [[ip pb idr dt bt w] a t rd];
        cbn in H; inversion H; subst; exact Hd. }
    rewrite bind_gets in H.
    destruct (isDragStart (sequence k) || isDraggingRef (refs st))%bool.
    { destruct st as [[ip pb idr [d|] bt w] a t rd]; cbn in H, Ep; inversion H; subst;
        cbn in Hp; congruence. }
    assert (K : handleKey (renderedKittyEnabled (rendered st)) (renderedKittyBuffer (rendered st))
                          k st = Some (tt, st', out) -> isDraggingRef (refs st) = true).
    { intros K. apply handleKey_sameCapture in K. destruct K as [K _]. congruence. }
    destruct (mapAltKeyCharacter (sequence k)) as [l|]; [|exact (K H)].
    destruct (Js.truthy l && negb (meta k))%bool; [|exact (K H)].
    inversion H; subst; assumption.
  - unfold handleRawData in H. destruct (negb usePassthrough).
    + inversion H; subst; assumption.
    + apply scanRawData_sameDrag in H. now rewrite <- H.
  - apply fireTimer_noNewDrag in H. destruct H as [_ H]. auto.
Qed.

End CaptureFlags.

(** ** Searching and cutting strings *)
Section StringSearch.

Lemma sliceFrom_zero s : Js.sliceFrom 0 s = s.
Proof. destruct s; reflexivity. Qed.

Lemma sliceFrom_empty n : Js.sliceFrom n "" = ""%string.
Proof. destruct n; reflexivity. Qed.

Lemma length_sliceFrom n s : String.length (Js.sliceFrom n s) = String.length s - n.
Proof.
  revert s. induction n as [|n IH]; intros s.
  - rewrite sliceFrom_zero. lia.
  - destruct s as [|c t]; cbn [Js.sliceFrom String.length]; [reflexivity | apply IH].
Qed.

Lemma sliceFrom_sliceFrom n m s :
  Js.sliceFrom n (Js.sliceFrom m s) = Js.sliceFrom (m + n) s.
Proof.
  revert s. induction m as [|m IH]; intros s.
  - now rewrite sliceFrom_zero.
  - destruct s as [|c t]; cbn [Js.sliceFrom Nat.add].
    + apply sliceFrom_empty.
    + apply IH.
Qed.

Lemma sliceFrom_append_left n a b :
  n <= String.length a -> Js.sliceFrom n (a ++ b) = (Js.sliceFrom n a ++ b)%string.
Proof.
  revert a. induction n as [|n IH]; intros a H.
  - now rewrite !sliceFrom_zero.
  - destruct a as [|c t]; cbn [String.length] in H; [lia|].
    cbn [append Js.sliceFrom]. apply IH. lia.
Qed.

Lemma sliceFrom_append_length a b : Js.sliceFrom (String.length a) (a ++ b) = b.
Proof.
  rewrite sliceFrom_append_left by lia.
  replace (Js.sliceFrom (String.length a) a) with ""%string; [reflexivity|].
  induction a as [|c t IH]; cbn [String.length Js.sliceFrom]; auto.
Qed.

Lemma empty_length s : String.length s = 0 -> s = ""%string.
Proof. destruct s; [reflexivity | discriminate]. Qed.

(** A match is found at or after the position the search starts from, and
    inside the string. *)
Lemma indexOf_bounds pat pos s n :
  pat <> ""%string -> Js.indexOf pat pos s = Some n -> pos <= n < String.length s.
Proof.
  intros Hpat. revert pos n. induction s as [|c t IH]; intros pos n H.
  - destruct pos; cbn [Js.indexOf] in H; [|discriminate].
    destruct pat; [now elim Hpat | discriminate].
  - destruct pos as [|pos]; cbn [Js.indexOf] in H.
    + destruct (Js.startsWith pat (String c t)).
      * injection H as <-. cbn [String.length]. lia.
      * destruct (Js.indexOf pat 0 t) as [m|] eqn:E; [|discriminate].
        injection H as <-. apply IH in E. cbn [String.length]. lia.
    + destruct (Js.indexOf pat pos t) as [m|] eqn:E; [|discriminate].
      injection H as <-. apply IH in E. cbn [String.length]. lia.
Qed.

(** ESC is found in front of the string that begins with it, whatever
    comes before. *)
Lemma indexOf_ESC_after r t :
  exists n, Js.indexOf ESC 0 (r ++ String "027"%char t) = Some n.
Proof.
  induction r as [|c r [n IH]].
  - exists 0. reflexivity.
  - cbn [append Js.indexOf]. destruct (Js.startsWith ESC (String c (r ++ String "027"%char t))).
    + now exists 0.
    + rewrite IH. now exists (S n).
Qed.

Lemma ESC_not_empty : ESC <> ""%string.
Proof. discriminate. Qed.

End StringSearch.

(** ** The extended-protocol stage *)
Section ExtendedProtocol.
Context {parsing : KeyParsing}.
Variable usePassthrough : bool.

Lemma nothingParses_sliceFrom n buffer :
  nothingParses buffer -> nothingParses (Js.sliceFrom n buffer).
Proof. intros H m. rewrite sliceFrom_sliceFrom. apply H. Qed.

Lemma kittyLoop_nothing fuel buffer parsedAny st :
  nothingParses buffer -> String.length buffer < fuel ->
  exists buffer', kittyLoop fuel buffer parsedAny st = Some ((buffer', parsedAny), st, []).
Proof.
  revert buffer. induction fuel as [|fuel IH]; intros buffer Hn Hl; [lia|].
  cbn [kittyLoop]. destruct (Js.truthy buffer) eqn:Et; cbn [negb];
    [|eexists; reflexivity].
  pose proof (Hn 0) as H0. rewrite sliceFrom_zero in H0. rewrite H0.
  destruct (Js.indexOf ESC 1 buffer) as [nextStart|] eqn:Ei; [|eexists; reflexivity].
  apply indexOf_bounds in Ei; [|exact ESC_not_empty].
  destruct (Nat.ltb_spec 0 nextStart); [|lia].
  apply IH; [now apply nothingParses_sliceFrom|].
  rewrite length_sliceFrom. lia.
Qed.

Lemma handleSequence_direct kb k ev st :
  Js.startsWith ESC (sequence k) = true ->
  key (parseKittySequence (sequence k)) = Some ev ->
  handleSequence true kb k st = Some (tt, st, [Broadcast ev]).
Proof.
  intros Hesc Hp. unfold handleSequence, handleKittySequence.
  rewrite Hesc, Hp. reflexivity.
Qed.

(** The overflow check works on the buffer that the handler holds: when
    that one is longer than the maximum and nothing can be parsed, the
    buffer of the store is emptied and the unit is broadcast as it is. *)
Lemma handleSequence_overflow kb k st :
  Js.startsWith ESC (sequence k) = true ->
  nothingParses (kb ++ sequence k) ->
  MAX_KITTY_SEQUENCE_LENGTH < String.length kb ->
  handleSequence true kb k st
  = Some (tt,
          (if isCtrlC k then buffersCleared (withKittyBuffer "" st)
           else withKittyBuffer "" st),
          [Broadcast k]).
Proof.
  intros Hesc Hn Hmax. unfold handleSequence, handleKittySequence.
  rewrite Hesc. cbn [andb].
  pose proof (Hn (String.length kb)) as Hd.
  rewrite sliceFrom_append_length in Hd. rewrite Hd.
  unfold appendToKittyBuffer, onAtoms. rewrite bind_assoc, bind_modify, bind_assoc.
  match goal with
  | |- bind (kittyLoop ?f ?b false) _ ?s = _ =>
      destruct (kittyLoop_nothing f b false s Hn (Nat.lt_succ_diag_r _)) as [b' Hl];
      rewrite (bind_some _ _ _ _ _ _ Hl)
  end.
  apply Nat.ltb_lt in Hmax. rewrite Hmax.
  unfold isCtrlC.
  destruct st as [r [pm pb dm db kbuf ke] t rd].
  destruct (ctrl k && (name k =? "c")%string)%bool; reflexivity.
Qed.

(** A unit of which nothing can be parsed, neither alone nor behind the
    buffer that the handler holds, is added to the buffer of the store and
    waits: as long as the buffer that the handler holds is within the
    maximum, the buffer of the store is not looked at. *)
Lemma unparsed_unit_is_added k st :
  notCapturing st = true -> waitingForEnterRef (refs st) = false ->
  renderedKittyEnabled (rendered st) = true ->
  String.length (renderedKittyBuffer (rendered st)) <= MAX_KITTY_SEQUENCE_LENGTH ->
  isUnparsedUnit (renderedKittyBuffer (rendered st)) k ->
  handleKeypress usePassthrough k st
  = Some (tt, withKittyBuffer (kittySequenceBuffer (atoms st) ++ sequence k) st, []).
Proof.
  intros Hst Hw Hen Hmax (Hk & Ho & Hesc & Hn).
  rewrite ordinary_unit; rewrite ?Hw; try assumption.
  rewrite Hen. unfold handleSequence, handleKittySequence.
  rewrite Hesc. cbn [andb].
  pose proof (Hn (String.length (renderedKittyBuffer (rendered st)))) as Hd.
  rewrite sliceFrom_append_length in Hd. rewrite Hd.
  unfold appendToKittyBuffer, onAtoms. rewrite bind_assoc, bind_modify, bind_assoc.
  match goal with
  | |- bind (kittyLoop ?f ?b false) _ ?s = _ =>
      destruct (kittyLoop_nothing f b false s Hn (Nat.lt_succ_diag_r _)) as [b' Hl];
      rewrite (bind_some _ _ _ _ _ _ Hl)
  end.
  apply Nat.ltb_ge in Hmax. rewrite Hmax.
  destruct st as [r [pm pb dm db kbuf ke] t rd]. reflexivity.
Qed.

(** Within one tick the buffer of the store grows with every such unit:
    it is never emptied, and nothing bounds it. *)
Lemma accumulator_grows_within_a_tick (units : list Key) : forall st,
  notCapturing st = true -> waitingForEnterRef (refs st) = false ->
  renderedKittyEnabled (rendered st) = true ->
  String.length (renderedKittyBuffer (rendered st)) <= MAX_KITTY_SEQUENCE_LENGTH ->
  Forall (isUnparsedUnit (renderedKittyBuffer (rendered st))) units ->
  run usePassthrough (map Keypress units) st
  = Some (tt, withKittyBuffer (kittySequenceBuffer (atoms st) ++ capturedText units) st, []).
Proof.
  induction units as [|k units IH]; intros st Hst Hw Hen Hmax Hu.
  - cbn [map run capturedText]. rewrite append_empty_r.
    destruct st as [r [pm pb dm db kbuf ke] t rd]. reflexivity.
  - inversion Hu as [|? ? Hk Hrest]; subst.
    cbn [map capturedText].
    erewrite run_cons by (cbn [step]; now apply unparsed_unit_is_added).
    rewrite IH by assumption.
    unfold withKittyBuffer. cbn [refs atoms timers rendered kittySequenceBuffer isPasteMode
      pasteBuffer isDragMode dragBuffer kittyProtocolEnabled app].
    now rewrite append_assoc.
Qed.

End ExtendedProtocol.

(** ** Raw-interception mode against decoded-keypress mode *)
Section RawInterception.
Context {parsing : KeyParsing}.

(** A unit that does not start with ESC never reaches the accumulator. *)
Lemma unit_without_ESC_bypasses_accumulator usePassthrough k st :
  notCapturing st = true -> waitingForEnterRef (refs st) = false ->
  reachesHandleKey k = true -> isOrdinary false k = true ->
  Js.startsWith ESC (sequence k) = false -> isCtrlC k = false ->
  handleKeypress usePassthrough k st = Some (tt, st, [Broadcast k]).
Proof.
  intros Hst Hw Hk Ho Hesc Hc.
  rewrite ordinary_unit; rewrite ?Hw; try assumption.
  unfold handleSequence, handleKittySequence, isCtrlC in *.
  now rewrite Hesc, andb_false_r, bind_ret, Hc.
Qed.

(** The mode only matters to a unit that arrives during a paste. *)
Lemma handleKeypress_outside_paste k st :
  isPasteRef (refs st) = false ->
  handleKeypress true k st = handleKeypress false k st.
Proof.
  intros Hp. unfold handleKeypress. rewrite !bind_gets.
  destruct (isFocusIn (isFocusEvent (sequence k)) || isFocusOut (isFocusEvent (sequence k)))%bool;
    [reflexivity|].
  destruct (isStart (isPasteModeBoundary (sequence k))); [reflexivity|].
  destruct (isEnd (isPasteModeBoundary (sequence k))); [reflexivity|].
  now rewrite !bind_gets, Hp.
Qed.

Lemma rawData_prefix st :
  handleRawData true PASTE_MODE_PREFIX st = Some (tt, pasteStarted st, []).
Proof. destruct st as [[ip pb idr dt bt w] a t rd]. reflexivity. Qed.

Lemma rawData_suffix st :
  handleRawData true PASTE_MODE_SUFFIX st = completePaste st.
Proof.
  unfold handleRawData. cbn [negb]. 
  change (scanRawData (S (String.length PASTE_MODE_SUFFIX)) PASTE_MODE_SUFFIX 0 st)
    with (bind (when false (accumulateOrForward (Js.slice 0 0 PASTE_MODE_SUFFIX)))
               (fun _ => bind completePaste (fun _ => ret tt)) st).
  cbn [when]. rewrite bind_ret. apply bind_unit_ret.
Qed.

Lemma rawData_markerFree s st :
  s <> ""%string -> markerFree s = true ->
  handleRawData true s st
  = if isPasteRef (refs st) then Some (tt, pasteCaptured s st, [])
    else Some (tt, st, [Write s]).
Proof.
  intros Hne Hm. unfold markerFree in Hm. unfold handleRawData. cbn [negb scanRawData].
  destruct (Js.indexOf PASTE_MODE_PREFIX 0 s); [discriminate|].
  destruct (Js.indexOf PASTE_MODE_SUFFIX 0 s); [discriminate|].
  destruct (Nat.ltb_spec 0 (String.length s)) as [_|Hl];
    [|apply Nat.le_0_r, empty_length in Hl; now elim Hne].
  cbn [nextMarker]. rewrite sliceFrom_zero. unfold accumulateOrForward.
  rewrite bind_gets. destruct (isPasteRef (refs st)) eqn:Ep; [|reflexivity].
  destruct st as [[ip pb idr dt bt w] a t rd]. reflexivity.
Qed.

(** The two paths part on a focus report that arrives during a paste:
    the keypress handler drops it before it looks at the paste (source
    lines 255-258), the raw data handler has no such rule and adds it to the
    pasted text (source lines 446-450). *)
Lemma focus_report_is_dropped_by_the_keypress_handler usePassthrough k st :
  isFocusReport k = true -> handleKeypress usePassthrough k st = Some (tt, st, []).
Proof.
  unfold isFocusReport. intros H. unfold handleKeypress. now rewrite !bind_gets, H.
Qed.

Lemma focus_report_is_pasted_by_the_raw_handler k st :
  isFocusReport k = true -> isPasteRef (refs st) = true ->
  sequence k <> ""%string -> markerFree (sequence k) = true ->
  handleRawData true (sequence k) st = Some (tt, pasteCaptured (sequence k) st, []).
Proof. intros _ Hp Hne Hm. now rewrite rawData_markerFree, Hp. Qed.

End RawInterception.

(** ** The event emitter *)
Section EmitterProperties.
Import Vscode Subscription.

Lemma members_app (a b : list (option Listener)) : members (a ++ b) = members a ++ members b.
Proof. unfold members. apply flat_map_app. Qed.

Lemma setHas_members (fn : Listener) s : setHas fn s = true <-> In fn (members s).
Proof.
  unfold setHas, members. induction s as [|[g|] s IH]; cbn [existsb flat_map isEntry app In].
  - split; [discriminate | tauto].
  - rewrite orb_true_iff, IH, Nat.eqb_eq. intuition congruence.
  - cbn. exact IH.
Qed.

Lemma setHas_nth (fn : Listener) s :
  setHas fn s = true <-> exists k, nth_error s k = Some (Some fn).
Proof.
  rewrite setHas_members. unfold members. rewrite in_flat_map. split.
  - intros ([g|] & Hin & Hg); [|destruct Hg].
    destruct Hg as [<-|[]]. now apply In_nth_error in Hin.
  - intros (k & Hk). exists (Some fn). split; [now apply nth_error_In in Hk | now left].
Qed.

Lemma setAdd_keeps_members_apart (fn : Listener) s :
  NoDup (members s) -> NoDup (members (setAdd fn s)).
Proof.
  intros H. unfold setAdd. destruct (setHas fn s) eqn:E; [exact H|].
  rewrite members_app. cbn. apply NoDup_app; [exact H | repeat constructor; intros [] |].
  intros x Hx [<-|[]]. apply setHas_members in Hx. congruence.
Qed.

Lemma members_setDelete (fn : Listener) s :
  members (setDelete fn s) = filter (fun g => negb (Nat.eqb fn g)) (members s).
Proof.
  unfold members, setDelete. induction s as [|[g|] s IH]; cbn [map flat_map isEntry]; [reflexivity| |exact IH].
  destruct (Nat.eqb fn g) eqn:E; cbn [app filter]; rewrite E; cbn [negb]; now rewrite IH.
Qed.

Lemma members_setClear s : members (setClear s) = [].
Proof. unfold members, setClear. induction s as [|x s IH]; [reflexivity | exact IH]. Qed.

(** The members of the set are told apart by identity, whatever was
    subscribed and disposed. *)
Lemma after_keeps_members_apart (ops : list Op) : NoDup (listeners (after ops)).
Proof.
  unfold after.
  enough (H : forall em, NoDup (listeners em) -> NoDup (listeners (fold_left apply ops em)))
    by (apply H; constructor).
  induction ops as [|op ops IH]; intros em Hem; [exact Hem|].
  cbn [fold_left]. apply IH. destruct op as [fn | fn |]; unfold listeners; cbn.
  - now apply setAdd_keeps_members_apart.
  - rewrite members_setDelete. now apply NoDup_filter.
  - rewrite members_setClear. constructor.
Qed.

(** A new listener is put last; one that is a member already changes
    nothing. *)
Lemma event_subscribes_last (fn : Listener) em :
  listeners (event fn em)
  = if isSubscribed fn em then listeners em else listeners em ++ [fn].
Proof.
  unfold listeners, event, isSubscribed, setAdd. cbn [entries].
  destruct (setHas fn (entries em)); [reflexivity|].
  now rewrite members_app.
Qed.

(** Disposing a listener leaves the others in their order. *)
Lemma disposeListener_keeps_order (fn : Listener) em :
  listeners (disposeListener fn em)
  = filter (fun g => negb (Nat.eqb fn g)) (listeners em).
Proof. apply members_setDelete. Qed.

Lemma isSubscribed_setAdd (fn g : Listener) s :
  setHas fn (setAdd g s) = (Nat.eqb fn g || setHas fn s)%bool.
Proof.
  unfold setAdd. destruct (setHas g s) eqn:E.
  - destruct (Nat.eqb_spec fn g) as [->|]; [now rewrite E | reflexivity].
  - unfold setHas. rewrite existsb_app. cbn [existsb isEntry].
    rewrite orb_false_r. apply orb_comm.
Qed.

Lemma isSubscribed_setDelete (fn g : Listener) s :
  setHas fn (setDelete g s) = (negb (Nat.eqb fn g) && setHas fn s)%bool.
Proof.
  unfold setHas, setDelete. induction s as [|[x|] s IH]; cbn [map existsb isEntry].
  - now rewrite andb_false_r.
  - rewrite IH. destruct (Nat.eqb_spec g x) as [->|Ngx]; cbn [isEntry].
    + now destruct (Nat.eqb fn x).
    + destruct (Nat.eqb_spec fn g) as [->|Nfg]; cbn [negb andb]; [|reflexivity].
      destruct (Nat.eqb_spec g x); [congruence | reflexivity].
  - exact IH.
Qed.

Lemma isSubscribed_setClear (fn : Listener) s : setHas fn (setClear s) = false.
Proof. unfold setHas, setClear. induction s as [|x s IH]; [reflexivity | exact IH]. Qed.

Section Fires.
Context {T W : Type}.
Variable call : Behaviour T W.
Variable data : T.

(** What a loop leaves is what it was given and what it has added. *)
Lemma forOf_extends fuel : forall index em w called done r,
  forOf call fuel data index em w called done = Some r ->
  exists more ops,
    calls r = called ++ more
    /\ operations r = done ++ ops
    /\ emitterAfter r = fold_left apply ops em
    /\ completion r = Returned (stateAfterCalls call data more w).
Proof.
  induction fuel as [|fuel IH]; intros index em w called done r; cbn [forOf]; [discriminate|].
  destruct (nth_error (entries em) index) as [[listener|]|].
  - destruct (call listener data w) as [c ops] eqn:Ecall.
    assert (Ec : exists w', tryCatchIgnore c = Returned w' /\ w' = stateOf c)
      by (destruct c as [w'|w']; exists w'; now split).
    destruct Ec as (w' & -> & Ew'). intros H.
    destruct (IH _ _ _ _ _ _ H) as (more & ops' & Hc & Ho & He & Hw).
    exists (listener :: more), (ops ++ ops'). repeat split.
    + now rewrite Hc, <- app_assoc.
    + now rewrite Ho, <- app_assoc.
    + now rewrite He, fold_left_app.
    + rewrite Hw. unfold stateAfterCalls. cbn [fold_left]. now rewrite Ecall, Ew'.
  - apply IH.
  - intros [= <-]. exists [], []. cbn. now rewrite !app_nil_r.
Qed.

Lemma alongFire_start keeps start : alongFire keeps start start.
Proof.
  exists start, []. rewrite app_nil_r. repeat split; [|constructor].
  induction start; constructor; [now left | assumption].
Qed.

Lemma sameOrEmptied_kept keeps start first :
  Forall2 (sameOrEmptied keeps) start first ->
  forall fn, setHas fn start = true -> keeps fn = true -> setHas fn first = true.
Proof.
  induction 1 as [|x y start first Hxy _ IH]; intros fn; [discriminate|].
  unfold setHas in *. cbn [existsb]. rewrite !orb_true_iff.
  intros [Hx|Hs] Hk; [left | right; now apply IH].
  destruct x as [g|]; [|discriminate]. cbn in Hx. apply Nat.eqb_eq in Hx. subst g.
  destruct Hxy as [->|[_ Hno]]; [cbn; apply Nat.eqb_refl|].
  specialize (Hno fn eq_refl). congruence.
Qed.

Lemma alongFire_apply keeps start now op :
  (forall fn, removes fn op = true -> keeps fn = false) ->
  alongFire keeps start now ->
  alongFire keeps start (entries (apply (mkEmitter now) op)).
Proof.
  intros Hop (first & added & -> & Hfirst & Hadded).
  destruct op as [g|g|]; cbn [apply event disposeListener dispose entries].
  - unfold setAdd. destruct (setHas g (first ++ added)) eqn:Ehas;
      [now exists first, added|].
    exists first, (added ++ [Some g]). rewrite app_assoc. repeat split; [assumption|].
    apply Forall_app. split; [assumption|]. constructor; [|constructor].
    intros fn [= <-]. apply not_true_iff_false. intros Hp.
    apply andb_true_iff in Hp. destruct Hp as [Hs Hk].
    pose proof (sameOrEmptied_kept _ _ _ Hfirst _ Hs Hk) as Hin.
    unfold setHas in Ehas, Hin. rewrite existsb_app, Hin in Ehas. discriminate.
  - exists (setDelete g first), (setDelete g added). unfold setDelete.
    rewrite map_app. repeat split.
    + clear Hadded. induction Hfirst as [|x y start first Hxy _ IH]; cbn [map]; constructor; [|exact IH].
      destruct y as [h|]; cbn [isEntry].
      * destruct (Nat.eqb_spec g h) as [->|]; [|exact Hxy].
        right. split; [reflexivity|]. intros fn ->.
        destruct Hxy as [[= ->]|[[=] _]]. apply Hop. cbn. apply Nat.eqb_refl.
      * exact Hxy.
    + clear Hfirst. induction Hadded as [|y added Hy _ IH]; cbn [map]; constructor; [|exact IH].
      destruct (isEntry g y); [discriminate | exact Hy].
  - exists (setClear first), (setClear added). unfold setClear.
    rewrite map_app. repeat split.
    + clear Hadded. induction Hfirst as [|x y start first Hxy _ IH]; cbn [map]; constructor; [|exact IH].
      right. split; [reflexivity|]. intros fn _. now apply Hop.
    + clear Hfirst. induction Hadded as [|y added Hy _ IH]; cbn [map]; constructor; [|exact IH].
      discriminate.
Qed.

Lemma alongFire_ops keeps start ops : forall em,
  (forall op fn, In op ops -> removes fn op = true -> keeps fn = false) ->
  alongFire keeps start (entries em) ->
  alongFire keeps start (entries (fold_left apply ops em)).
Proof.
  induction ops as [|op ops IH]; intros em Hops Hem; [exact Hem|].
  cbn [fold_left]. apply IH; [intros op' fn Hin; apply Hops; now right|].
  destruct em as [now]. apply alongFire_apply; [|exact Hem].
  intros fn. apply Hops. now left.
Qed.

Lemma staysSubscribed_removes done fn op :
  In op done -> removes fn op = true -> staysSubscribed done fn = false.
Proof.
  intros Hin Hr. unfold staysSubscribed. apply negb_false_iff.
  apply existsb_exists. now exists op.
Qed.

Lemma firstn_next {A} (l : list A) index x :
  nth_error l index = Some x -> firstn (S index) l = firstn index l ++ [x].
Proof.
  revert index. induction l as [|y l IH]; intros [|index]; cbn [nth_error]; try discriminate.
  - now intros [= ->].
  - intros H. change (y :: firstn (S index) l = y :: (firstn index l ++ [x])).
    now rewrite (IH _ H).
Qed.

Lemma filter_last {A} (p : A -> bool) (l : list A) x :
  filter p (l ++ [x]) = filter p l ++ (if p x then [x] else []).
Proof. rewrite filter_app. reflexivity. Qed.

(** The calls of a loop among the listeners of the start that stay
    subscribed are these listeners, from the position of the loop on. *)
Lemma forOf_calls_the_kept fuel (start : list (option Listener)) : forall index em w called done r,
  forOf call fuel data index em w called done = Some r ->
  alongFire (staysSubscribed (operations r)) start (entries em) ->
  filter (keptThrough start (operations r)) called
  = filter (keptThrough start (operations r)) (members (firstn index start)) ->
  filter (keptThrough start (operations r)) (calls r)
  = filter (keptThrough start (operations r)) (members start).
Proof.
  induction fuel as [|fuel IH]; intros index em w called done r; cbn [forOf]; [discriminate|].
  destruct (nth_error (entries em) index) as [entry|] eqn:Enth.
  - (* the position holds an entry *)
    assert (Hstep : forall ops, alongFire (staysSubscribed ops) start (entries em) ->
               filter (keptThrough start ops) (members (firstn (S index) start))
               = filter (keptThrough start ops) (members (firstn index start))
                 ++ match entry with
                    | Some listener => if keptThrough start ops listener then [listener] else []
                    | None => []
                    end).
    { intros ops (first & added & Eem & Hfirst & Hadded).
      pose proof (Forall2_length Hfirst) as Hlen.
      destruct (Nat.lt_ge_cases index (length start)) as [Hlt|Hge].
      - destruct (nth_error start index) as [x|] eqn:Ex;
          [|apply nth_error_None in Ex; lia].
        rewrite (firstn_next _ _ _ Ex), members_app, filter_app. f_equal.
        rewrite Eem, nth_error_app1 in Enth by lia.
        assert (Hxy : sameOrEmptied (staysSubscribed ops) x entry).
        { clear - Hfirst Ex Enth. revert index Ex Enth.
          induction Hfirst as [|a b start first Hab _ IH]; intros [|index]; cbn;
            try discriminate.
          - now intros [= <-] [= <-].
          - apply IH. }
        destruct Hxy as [->|[-> Hno]].
        + destruct x as [listener|]; [|reflexivity]. cbn.
          now destruct (keptThrough start ops listener).
        + destruct x as [listener|]; [|reflexivity]. cbn.
          unfold keptThrough. rewrite (Hno listener eq_refl), andb_false_r. reflexivity.
      - rewrite !firstn_all2 by lia.
        rewrite Eem, nth_error_app2 in Enth by lia.
        apply nth_error_In in Enth. rewrite Forall_forall in Hadded.
        specialize (Hadded _ Enth).
        destruct entry as [listener|]; [|now rewrite app_nil_r].
        unfold keptThrough. rewrite (Hadded listener eq_refl). now rewrite app_nil_r. }
    destruct entry as [listener|].
    + destruct (call listener data w) as [c ops] eqn:Ecall.
      assert (Ec : exists w', tryCatchIgnore c = Returned w')
        by (destruct c as [w'|w']; now exists w').
      destruct Ec as (w' & ->). intros H Halong Hcalled.
      destruct (forOf_extends _ _ _ _ _ _ _ H) as (more & ops' & _ & Ho & _ & _).
      apply (IH _ _ _ _ _ _ H).
      * apply alongFire_ops; [|exact Halong].
        intros op fn Hin. apply staysSubscribed_removes.
        rewrite Ho. apply in_or_app. left. apply in_or_app. now right.
      * rewrite (Hstep _ Halong), filter_last. now rewrite Hcalled.
    + intros H Halong Hcalled. apply (IH _ _ _ _ _ _ H); [exact Halong|].
      rewrite (Hstep _ Halong). now rewrite app_nil_r.
  - intros [= <-]. cbn [calls operations]. intros (first & added & Eem & Hfirst & _) ->.
    apply nth_error_None in Enth. pose proof (Forall2_length Hfirst) as Hlen.
    rewrite Eem, length_app in Enth. now rewrite firstn_all2 by lia.
Qed.

(** Every listener that a loop calls was a member at the start, or was
    subscribed during the loop. *)
Lemma forOf_calls_members fuel (start : list (option Listener)) : forall index em w called done r,
  forOf call fuel data index em w called done = Some r ->
  (forall fn, setHas fn (entries em) = true ->
              setHas fn start = true \/ In (Subscribe fn) done) ->
  (forall fn, In fn called -> setHas fn start = true \/ In (Subscribe fn) done) ->
  forall fn, In fn (calls r) -> setHas fn start = true \/ In (Subscribe fn) (operations r).
Proof.
  induction fuel as [|fuel IH]; intros index em w called done r; cbn [forOf]; [discriminate|].
  destruct (nth_error (entries em) index) as [[listener|]|] eqn:Enth.
  - destruct (call listener data w) as [c ops] eqn:Ecall.
    assert (Ec : exists w', tryCatchIgnore c = Returned w')
      by (destruct c as [w'|w']; now exists w').
    destruct Ec as (w' & ->). intros H Hem Hcalled.
    apply (IH _ _ _ _ _ _ H).
    + clear - Hem. revert em Hem. induction ops as [|op ops IHops] using rev_ind; intros em Hem fn.
      * rewrite app_nil_r. apply Hem.
      * rewrite fold_left_app. cbn [fold_left]. rewrite app_assoc. intros Hfn.
        assert (Hprev : setHas fn (entries (fold_left apply ops em)) = true
                        \/ op = Subscribe fn).
        { destruct op as [g|g|]; cbn [apply event disposeListener dispose entries] in Hfn.
          - rewrite isSubscribed_setAdd in Hfn. apply orb_true_iff in Hfn.
            destruct Hfn as [Hfn|Hfn]; [right | now left].
            apply Nat.eqb_eq in Hfn. now subst.
          - rewrite isSubscribed_setDelete in Hfn. apply andb_true_iff in Hfn. now left.
          - now rewrite isSubscribed_setClear in Hfn. }
        destruct Hprev as [Hprev| ->].
        -- destruct (IHops em Hem fn Hprev) as [?|Hin]; [now left | right].
           apply in_or_app. now left.
        -- right. apply in_or_app. right. now left.
    + intros fn Hin. apply in_app_or in Hin. destruct Hin as [Hin|[<-|[]]].
      * destruct (Hcalled fn Hin) as [?|Hd]; [now left | right].
        apply in_or_app. now left.
      * destruct (Hem listener) as [?|Hd]; [|now left|].
        -- apply setHas_nth. now exists index.
        -- right. apply in_or_app. now left.
  - apply IH.
  - intros [= <-]. cbn [calls operations]. auto.
Qed.

(** A loop in which no listener subscribes ends within as many positions
    as the set has entries. *)
Lemma forOf_ends fuel : forall index em w called done,
  (forall listener w', subscribesNone (snd (call listener data w')) = true) ->
  length (entries em) - index < fuel ->
  exists r, forOf call fuel data index em w called done = Some r.
Proof.
  induction fuel as [|fuel IH]; intros index em w called done Hquiet Hfuel; cbn [forOf]; [lia|].
  assert (Hin : nth_error (entries em) index <> None -> index < length (entries em))
    by apply nth_error_Some.
  destruct (nth_error (entries em) index) as [[listener|]|] eqn:Enth.
  - assert (Hlt : index < length (entries em)) by (apply Hin; discriminate).
    pose proof (Hquiet listener w) as Hq.
    destruct (call listener data w) as [c ops] eqn:Ecall. cbn [snd] in Hq.
    assert (Ec : exists w', tryCatchIgnore c = Returned w')
      by (destruct c as [w'|w']; now exists w').
    destruct Ec as (w' & ->). apply IH; [exact Hquiet|].
    assert (Hlen : length (entries (fold_left apply ops em)) = length (entries em)).
    { clear - Hq. revert em. induction ops as [|op ops IHops]; intros em; [reflexivity|].
      cbn [fold_left]. cbn [subscribesNone forallb] in Hq.
      apply andb_true_iff in Hq. destruct Hq as [Hop Hq].
      rewrite (IHops Hq). destruct op as [g|g|]; [discriminate| |];
        cbn [apply disposeListener dispose entries]; apply length_map. }
    rewrite Hlen. lia.
  - assert (Hlt : index < length (entries em)) by (apply Hin; discriminate).
    apply IH; [exact Hquiet | lia].
  - eauto.
Qed.

End Fires.

(** Listeners each of which subscribes one more keep the loop going: it
    has not ended within any number of positions. *)
Lemma subscribing_loop_never_ends (data : nat) fuel : forall index (w : nat) called done,
  forOf Samples.subscribesTheNext fuel data index
        (mkEmitter (map Some (seq 0 (S index)))) w called done = None.
Proof.
  induction fuel as [|fuel IH]; intros index w called done; [reflexivity|].
  cbn [forOf entries].
  rewrite nth_error_map, nth_error_seq.
  destruct (Nat.ltb_spec index (S index)) as [_|Hge]; [|lia].
  cbn [option_map Nat.add Samples.subscribesTheNext tryCatchIgnore fold_left apply event entries].
  replace (event (S index) (mkEmitter (map Some (seq 0 (S index)))))
    with (mkEmitter (map Some (seq 0 (S (S index))))); [apply IH|].
  unfold event, setAdd. cbn [entries]. f_equal.
  replace (setHas (S index) (map Some (seq 0 (S index)))) with false.
  - rewrite (seq_S (S index)), map_app. reflexivity.
  - symmetry. apply not_true_iff_false. intros Hhas.
    apply setHas_nth in Hhas. destruct Hhas as (k & Hk).
    rewrite nth_error_map, nth_error_seq in Hk.
    destruct (Nat.ltb_spec k (S index)) as [Hlt|_]; [|discriminate].
    cbn in Hk. injection Hk as Hk. lia.
Qed.

(** C10, the counterexample. Two listeners are subscribed; the first, when
    it is called, disposes the subscription of the second. A fire calls the
    first listener and ends without a call of the second, which was
    subscribed when the fire began. And when every listener subscribes one
    more, the fire does not end. *)
Lemma listener_disposed_during_the_fire_is_skipped :
  listeners (after [Subscribe 1; Subscribe 2]) = [1; 2]
  /\ fire Samples.disposesTheNext 3 7 (after [Subscribe 1; Subscribe 2]) 0
     = Some (mkFired (Returned 7) (mkEmitter [Some 1; None]) [1] [Unsubscribe 2])
  /\ (forall fuel r,
        fire Samples.disposesTheNext fuel 7 (after [Subscribe 1; Subscribe 2]) 0 = Some r ->
        calls r = [1])
  /\ (forall fuel, fire Samples.subscribesTheNext fuel 7 (after [Subscribe 0]) 0 = None).
Proof.
  split; [reflexivity|]. split; [reflexivity|]. split.
  - intros [|[|[|fuel]]] r; cbn; try discriminate. now intros [= <-].
  - intros fuel. apply (subscribing_loop_never_ends 7 fuel 0).
Qed.

(** C10. A fire that ends has called, among the listeners that were
    subscribed when it began and that no listener has unsubscribed
    meanwhile, each one once, in the order of subscription; it has called
    no listener that was neither subscribed when it began nor subscribed
    meanwhile; the listeners that throw are passed over, the state of the
    application is the one their calls leave, and the fire returns. A fire
    ends when no listener subscribes a listener meanwhile. *)
Theorem fire_reaches_the_listeners_that_stay {T W : Type} (call : Behaviour T W)
        (ops : list Op) (data : T) (w : W) :
  NoDup (listeners (after ops))
  /\ (forall fuel r,
        fire call fuel data (after ops) w = Some r ->
        filter (fun fn => (isSubscribed fn (after ops) && staysSubscribed (operations r) fn)%bool)
               (calls r)
        = filter (staysSubscribed (operations r)) (listeners (after ops))
        /\ (forall fn, In fn (calls r) ->
                       isSubscribed fn (after ops) = true \/ In (Subscribe fn) (operations r))
        /\ completion r = Returned (stateAfterCalls call data (calls r) w)
        /\ emitterAfter r = fold_left apply (operations r) (after ops))
  /\ ((forall listener w', subscribesNone (snd (call listener data w')) = true) ->
      exists r, fire call (S (length (entries (after ops)))) data (after ops) w = Some r).
Proof.
  split; [apply after_keeps_members_apart|]. split.
  - intros fuel r H. unfold fire in H. repeat split.
    + change (fun fn => (isSubscribed fn (after ops) && staysSubscribed (operations r) fn)%bool)
        with (keptThrough (entries (after ops)) (operations r)).
      rewrite (forOf_calls_the_kept call data fuel (entries (after ops)) _ _ _ _ _ _ H).
      * unfold listeners. apply filter_ext_in. intros fn Hin.
        apply setHas_members in Hin. unfold keptThrough. now rewrite Hin.
      * apply alongFire_start.
      * reflexivity.
    + intros fn. unfold isSubscribed.
      apply (forOf_calls_members call data fuel (entries (after ops)) _ _ _ _ _ _ H);
        [now left | intros ? []].
    + destruct (forOf_extends call data _ _ _ _ _ _ _ H) as (more & ops' & Hc & _ & _ & Hw).
      cbn in Hc. now rewrite Hc.
    + destruct (forOf_extends call data _ _ _ _ _ _ _ H) as (more & ops' & _ & Ho & He & _).
      cbn in Ho. now rewrite Ho.
  - intros Hquiet. apply forOf_ends; [exact Hquiet | lia].
Qed.

End EmitterProperties.

(** ** The timers along a run *)
Section TimersAlongRuns.
Context {parsing : KeyParsing}.
Variable usePassthrough : bool.

Lemma keepsTimersOk_refl st : keepsTimersOk st st.
Proof. intros H. exact H. Qed.

Lemma keepsTimersOk_trans a b c : keepsTimersOk a b -> keepsTimersOk b c -> keepsTimersOk a c.
Proof. unfold keepsTimersOk. auto. Qed.

Hint Resolve keepsTimersOk_refl keepsTimersOk_trans : core.

Lemma clearTimeout_keepsTimersOk id : preserves keepsTimersOk (clearTimeout id).
Proof.
  unfold clearTimeout, onTimers. apply preserves_modify.
  intros [r a [p n] rd]. unfold keepsTimersOk, timersOk, removeTimer. cbn.
  rewrite !Forall_forall. intros H x Hx. apply filter_In in Hx. now apply H.
Qed.

Lemma setTimeout_keepsTimersOk cb : preserves keepsTimersOk (setTimeout cb).
Proof.
  intros [r a [p n] rd] id st' out H. inversion H; subst.
  unfold keepsTimersOk, timersOk. cbn. intros Hp. apply Forall_app. split.
  - eapply Forall_impl; [|exact Hp]. cbn. intros. lia.
  - repeat constructor.
Qed.

(** A write to a cell of the component or of the store keeps the timers. *)
Ltac keep_timers :=
  first
    [ apply clearTimeout_keepsTimersOk
    | apply setTimeout_keepsTimersOk
    | apply preserves_modify;
      intros [[? ? ? ? ? ?] [? ? ? ? ? ?] [? ?] [? ? ? ?]]; cbv [keepsTimersOk timersOk]; cbn; auto ].

Lemma clearBackslashTimer_keepsTimersOk : preserves keepsTimersOk clearBackslashTimer.
Proof.
  unfold clearBackslashTimer, set_backslashTimerRef, onRefs.
  preserve_steps; keep_timers.
Qed.

Lemma clearDragTimer_keepsTimersOk : preserves keepsTimersOk clearDragTimer.
Proof.
  unfold clearDragTimer, set_dragTimerRef, onRefs.
  preserve_steps; keep_timers.
Qed.

Lemma completePaste_keepsTimersOk : preserves keepsTimersOk completePaste.
Proof.
  unfold completePaste, broadcastKey, setPasteMode, set_isPasteRef, set_pasteBufferRef,
    onRefs, onAtoms.
  preserve_steps; keep_timers.
Qed.

Lemma kittyLoop_keepsTimersOk fuel buffer parsedAny :
  preserves keepsTimersOk (kittyLoop fuel buffer parsedAny).
Proof.
  revert buffer parsedAny. induction fuel as [|fuel IH]; intros buffer parsedAny;
    cbn [kittyLoop]; unfold broadcastKey; preserve_steps; auto.
Qed.

Lemma handleKeypress_keepsTimersOk k : preserves keepsTimersOk (handleKeypress usePassthrough k).
Proof.
  pose proof kittyLoop_keepsTimersOk. pose proof clearBackslashTimer_keepsTimersOk.
  pose proof clearDragTimer_keepsTimersOk. pose proof completePaste_keepsTimersOk.
  pose proof setTimeout_keepsTimersOk.
  unfold handleKeypress, handleKey, handleSequence, handleKittySequence, broadcastKey,
    set_waitingForEnterRef, set_backslashTimerRef, set_isPasteRef, set_pasteBufferRef,
    set_isDraggingRef, set_dragTimerRef, setPasteMode, appendToPasteBuffer,
    appendToDragBuffer, appendToKittyBuffer, clearKittyBuffer, clearBuffers, onRefs, onAtoms.
  preserve_steps; try keep_timers; auto.
Qed.

Lemma scanRawData_keepsTimersOk fuel dataStr pos :
  preserves keepsTimersOk (scanRawData fuel dataStr pos).
Proof.
  pose proof completePaste_keepsTimersOk.
  revert pos. induction fuel as [|fuel IH]; intros pos; cbn [scanRawData];
    unfold accumulateOrForward, setPasteMode, set_isPasteRef, set_pasteBufferRef,
      appendToPasteBuffer, onRefs, onAtoms;
    preserve_steps; try keep_timers; auto.
Qed.

Lemma fireTimer_keepsTimersOk id : preserves keepsTimersOk (fireTimer id).
Proof.
  pose proof clearDragTimer_keepsTimersOk.
  pose proof (clearTimeout_keepsTimersOk id) as C. unfold clearTimeout in C.
  unfold fireTimer, runCallback, completeDrag, broadcastKey, setDragMode,
    set_isDraggingRef, set_waitingForEnterRef, onRefs, onAtoms.
  preserve_steps; try keep_timers; auto.
Qed.

Lemma render_keepsTimersOk : preserves keepsTimersOk render.
Proof.
  pose proof clearDragTimer_keepsTimersOk. pose proof clearBackslashTimer_keepsTimersOk.
  pose proof completePaste_keepsTimersOk.
  unfold render, flushPending, completeDrag, clearBuffers, broadcastKey, setDragMode,
    set_isDraggingRef, set_rendered, onRefs, onAtoms.
  preserve_steps; try keep_timers; auto.
Qed.

(** Every state that a run reaches from a state whose timers were handed
    out by [setTimeout] is such a state; the state of a provider that has
    just been mounted is one. *)
Lemma run_keeps_timersOk inputs : forall st st' out,
  run usePassthrough inputs st = Some (tt, st', out) -> timersOk st -> timersOk st'.
Proof.
  induction inputs as [|i inputs IH]; intros st st' out H Hok.
  - inversion H; subst. exact Hok.
  - cbn [run] in H. apply bind_inv in H.
    destruct H as ([] & s1 & o1 & o2 & Hs & Hr & _).
    apply (IH _ _ _ Hr).
    destruct i as [k | dataStr | id | ]; cbn [step] in Hs.
    + exact (handleKeypress_keepsTimersOk _ _ _ _ _ Hs Hok).
    + unfold handleRawData in Hs. destruct (negb usePassthrough).
      * inversion Hs; subst. exact Hok.
      * exact (scanRawData_keepsTimersOk _ _ _ _ _ _ _ Hs Hok).
    + exact (fireTimer_keepsTimersOk _ _ _ _ _ Hs Hok).
    + exact (render_keepsTimersOk _ _ _ _ Hs Hok).
Qed.

Lemma initialState_timersOk kitty : timersOk (initialState kitty).
Proof. constructor. Qed.

End TimersAlongRuns.

(** ** The handlers return *)
Section Returning.
Context {parsing : KeyParsing}.
Variable usePassthrough : bool.

Lemma returns_ret {A} (a : A) : returns (ret a).
Proof. intros st. eexists. reflexivity. Qed.

Lemma returns_gets {A} (f : State -> A) : returns (gets f).
Proof. intros st. eexists. reflexivity. Qed.

Lemma returns_modify f : returns (modify f).
Proof. intros st. eexists. reflexivity. Qed.

Lemma returns_emit e : returns (emit e).
Proof. intros st. eexists. reflexivity. Qed.

Lemma returns_setTimeout cb : returns (setTimeout cb).
Proof. intros st. eexists. reflexivity. Qed.

Lemma returns_bind {A B} (m : M A) (f : A -> M B) :
  returns m -> (forall a, returns (f a)) -> returns (bind m f).
Proof.
  intros Hm Hf st. destruct (Hm st) as [[[a st1] o1] E1].
  destruct (Hf a st1) as [[[b st2] o2] E2].
  eexists. unfold bind. rewrite E1, E2. reflexivity.
Qed.

Lemma returns_when b m : returns m -> returns (when b m).
Proof. intros H. destruct b; [exact H | apply returns_ret]. Qed.

(** Breaks a handler body into its steps, each of which returns. *)
Ltac return_steps :=
  repeat first
    [ apply returns_ret
    | apply returns_gets
    | apply returns_modify
    | apply returns_emit
    | apply returns_setTimeout
    | apply returns_bind; [ | intros ? ]
    | apply returns_when
    | match goal with
      | |- returns (if ?b then _ else _) => destruct b
      | |- returns (match ?x with Some _ => _ | None => _ end) => destruct x
      | |- returns (match ?x with (_, _) => _ end) => destruct x
      | |- returns (match ?x with CompleteDrag _ => _ | BackslashTimeout _ => _ end) =>
          destruct x
      end ].

Lemma completePaste_returns : returns completePaste.
Proof.
  unfold completePaste, broadcastKey, setPasteMode, set_isPasteRef, set_pasteBufferRef,
    onRefs, onAtoms.
  return_steps.
Qed.

Lemma completeDrag_returns dragBuffer : returns (completeDrag dragBuffer).
Proof.
  unfold completeDrag, clearDragTimer, clearTimeout, broadcastKey, setDragMode,
    set_isDraggingRef, set_dragTimerRef, onTimers, onRefs, onAtoms.
  return_steps.
Qed.

Lemma render_returns : returns render.
Proof.
  pose proof completeDrag_returns. pose proof completePaste_returns.
  unfold render, flushPending, clearDragTimer, clearBackslashTimer, clearTimeout,
    clearBuffers, set_dragTimerRef, set_backslashTimerRef, set_rendered,
    onTimers, onRefs, onAtoms.
  return_steps; auto.
Qed.

Lemma fireTimer_returns id : returns (fireTimer id).
Proof.
  pose proof completeDrag_returns.
  unfold fireTimer, runCallback, broadcastKey, set_waitingForEnterRef, onTimers, onRefs.
  return_steps; auto.
Qed.

Lemma truthy_length s : Js.truthy s = true -> 0 < String.length s.
Proof. destruct s; [discriminate | cbn; lia]. Qed.

(** With enough fuel the loop of the extended-protocol stage ends, when the
    parser consumes something with every key it reports. *)
Lemma kittyLoop_returns fuel : forall buffer parsedAny,
  parserProgress -> String.length buffer < fuel ->
  returns (kittyLoop fuel buffer parsedAny).
Proof.
  induction fuel as [|fuel IH]; intros buffer parsedAny Hp Hl; [lia|].
  cbn [kittyLoop]. destruct (Js.truthy buffer) eqn:Et; cbn [negb]; [|apply returns_ret].
  apply truthy_length in Et.
  destruct (key (parseKittySequence buffer)) as [k|] eqn:Ek.
  - apply Hp in Ek. destruct (Nat.eqb_spec (consumedLength (parseKittySequence buffer)) 0);
      [lia|].
    apply returns_bind; [apply returns_emit | intros _].
    apply IH; [assumption|]. rewrite length_sliceFrom. lia.
  - destruct (Js.indexOf ESC 1 buffer) as [nextStart|] eqn:Ei; [|apply returns_ret].
    apply indexOf_bounds in Ei; [|exact ESC_not_empty].
    destruct (Nat.ltb 0 nextStart); [|apply returns_ret].
    apply IH; [assumption|]. rewrite length_sliceFrom. lia.
Qed.

(** Every keypress is handled to the end, when the parser consumes something
    with every key it reports. *)
Lemma handleKeypress_returns k :
  parserProgress -> returns (handleKeypress usePassthrough k).
Proof.
  intros Hp. pose proof completePaste_returns.
  unfold handleKeypress, handleKey, handleSequence, handleKittySequence, broadcastKey,
    clearBackslashTimer, clearDragTimer, clearTimeout,
    set_waitingForEnterRef, set_backslashTimerRef, set_isPasteRef, set_pasteBufferRef,
    set_isDraggingRef, set_dragTimerRef, setPasteMode, appendToPasteBuffer,
    appendToDragBuffer, appendToKittyBuffer, clearKittyBuffer, clearBuffers,
    onTimers, onRefs, onAtoms.
  return_steps; auto.
  all: apply kittyLoop_returns; [assumption | apply Nat.lt_succ_diag_r].
Qed.

Lemma nextMarker_bounds pat1 pat2 pos s n isPrefix :
  pat1 <> ""%string -> pat2 <> ""%string ->
  nextMarker (Js.indexOf pat1 pos s) (Js.indexOf pat2 pos s) = Some (n, isPrefix) ->
  pos <= n < String.length s.
Proof.
  intros H1 H2 H. unfold nextMarker in H.
  destruct (Js.indexOf pat1 pos s) as [p|] eqn:E1;
    destruct (Js.indexOf pat2 pos s) as [q|] eqn:E2; try discriminate;
    try apply (indexOf_bounds _ _ _ _ H1) in E1;
    try apply (indexOf_bounds _ _ _ _ H2) in E2.
  - destruct (Nat.ltb p q); injection H as <- _; assumption.
  - injection H as <- _; assumption.
  - injection H as <- _; assumption.
Qed.

(** With enough fuel the scan of a chunk of raw data ends. *)
Lemma scanRawData_returns fuel dataStr : forall pos,
  String.length dataStr - pos < fuel -> returns (scanRawData fuel dataStr pos).
Proof.
  pose proof completePaste_returns as Hc.
  induction fuel as [|fuel IH]; intros pos Hl; [lia|].
  cbn [scanRawData]. destruct (Nat.ltb_spec pos (String.length dataStr)); [|apply returns_ret].
  destruct (nextMarker _ _) as [[n isPrefix]|] eqn:En.
  - apply nextMarker_bounds in En; [|discriminate|discriminate].
    apply returns_bind; [|intros _].
    { unfold accumulateOrForward, set_pasteBufferRef, appendToPasteBuffer, onRefs, onAtoms.
      return_steps. }
    destruct isPrefix.
    + unfold set_isPasteRef, set_pasteBufferRef, setPasteMode, onRefs, onAtoms.
      return_steps. apply IH.
      change (String.length PASTE_MODE_PREFIX) with 6. lia.
    + apply returns_bind; [exact Hc | intros _]. apply IH.
      change (String.length PASTE_MODE_SUFFIX) with 6. lia.
  - unfold accumulateOrForward, set_pasteBufferRef, appendToPasteBuffer, onRefs, onAtoms.
    return_steps.
Qed.

Lemma handleRawData_returns dataStr : returns (handleRawData usePassthrough dataStr).
Proof.
  unfold handleRawData. destruct (negb usePassthrough); [apply returns_ret|].
  apply scanRawData_returns. lia.
Qed.

(** No input stops the provider: every run is handled to the end, when the
    parser consumes something with every key it reports. *)
Lemma run_returns inputs : parserProgress -> returns (run usePassthrough inputs).
Proof.
  intros Hp. induction inputs as [|i inputs IH]; cbn [run]; [apply returns_ret|].
  apply returns_bind; [|intros _; exact IH].
  destruct i as [k | dataStr | id | ]; cbn [step].
  - now apply handleKeypress_returns.
  - apply handleRawData_returns.
  - apply fireTimer_returns.
  - apply render_returns.
Qed.

End Returning.

(** ** The provider on concrete input *)
Section ConcreteRuns.
Import Reference.

Lemma nothingParsesb_sound buffer :
  nothingParsesb buffer = true -> nothingParses buffer.
Proof.
  unfold nothingParsesb, nothingParses. intros H n.
  rewrite forallb_forall in H.
  destruct (Nat.le_gt_cases n (String.length buffer)) as [Hn|Hn].
  - specialize (H n). rewrite in_seq in H.
    change (key (Reference.parseKittySequence (Js.sliceFrom n buffer)) = None).
    destruct (key (Reference.parseKittySequence (Js.sliceFrom n buffer))); [|reflexivity].
    assert (false = true) by (apply H; lia). discriminate.
  - assert (E : Js.sliceFrom n buffer = ""%string).
    { apply empty_length. rewrite length_sliceFrom. lia. }
    rewrite E. reflexivity.
Qed.

(** The parser of the reference instance consumes something with every key
    it reports. *)
Lemma parserProgress_reference : parserProgress.
Proof.
  intros buffer k. cbn [Keys.parseKittySequence parsing].
  unfold Reference.parseKittySequence, kittyKey, noKey.
  repeat match goal with
         | |- context [match ?x with _ => _ end] => destruct x
         end; cbn [key consumedLength]; intros H; try discriminate H; lia.
Qed.

(** C1. A paste that arrives over two ticks is cut in two. In
    decoded-keypress mode the start marker and a first unit of the pasted
    text come in one tick; the paste buffer atom has changed, so the
    component renders and the effect runs anew, and its cleanup flushes the
    paste that is going on: a paste event with the first unit alone is
    broadcast and paste capture ends. The second unit of the pasted text is
    then broadcast as a key of its own, and the end marker finds nothing to
    flush. So it is too when the component has rendered once more, for the
    buffers that the cleanup has emptied, before the second unit comes. The
    same units in one tick give one paste event with the whole text. And a
    paste with nothing between the markers gives no event at all and leaves
    the decoder in paste capture, where it swallows the key that comes
    next. *)
Theorem paste_over_two_ticks_is_cut :
  (exists st',
      run false [Keypress pasteStartKey; Keypress letterA; Render;
                 Keypress letterA; Keypress pasteEndKey] (initialState false)
      = Some (tt, st', [Broadcast (createPasteKey "a"); Broadcast letterA]))
  /\ (exists st',
         run false [Keypress pasteStartKey; Keypress letterA; Render; Render;
                    Keypress letterA; Keypress pasteEndKey] (initialState false)
         = Some (tt, st', [Broadcast (createPasteKey "a"); Broadcast letterA]))
  /\ (exists st1 st2,
         run false [Keypress pasteStartKey; Keypress letterA] (initialState false)
         = Some (tt, st1, [])
         /\ isPasteRef (refs st1) = true
         /\ render st1 = Some (tt, st2, [Broadcast (createPasteKey "a")])
         /\ isPasteRef (refs st2) = false)
  /\ (exists st',
         run false [Keypress pasteStartKey; Keypress letterA;
                    Keypress letterA; Keypress pasteEndKey] (initialState false)
         = Some (tt, st', [Broadcast (createPasteKey "aa")]))
  /\ (exists st',
         run false [Keypress pasteStartKey; Keypress pasteEndKey; Render; Keypress letterA]
             (initialState false)
         = Some (tt, st', [])
         /\ isPasteRef (refs st') = true).
Proof.
  split; [eexists; vm_compute; reflexivity|].
  split; [eexists; vm_compute; reflexivity|]. split.
  - do 2 eexists. split; [vm_compute; reflexivity|]. split; [reflexivity|].
    split; [vm_compute; reflexivity | reflexivity].
  - split; [eexists; vm_compute; reflexivity|].
    eexists. split; [vm_compute; reflexivity | reflexivity].
Qed.

(** A paste with nothing between the markers makes the decoder broadcast
    nothing, and leaves it in paste capture. *)
Lemma empty_paste_broadcasts_nothing :
  exists st',
    run false [Keypress pasteStartKey; Keypress pasteEndKey] (initialState false)
    = Some (tt, st', [])
    /\ isPasteRef (refs st') = true.
Proof. eexists. split; reflexivity. Qed.

Lemma shift_enter_encodings_witness :
  (exists st' ev,
      run false [Keypress escapedCarriageReturn] (initialState false)
      = Some (tt, st', [Broadcast ev]) /\ isShiftReturn ev = true)
  /\ (exists st' ev,
         run false [Keypress escapedLineFeed] (initialState false)
         = Some (tt, st', [Broadcast ev]) /\ isShiftReturn ev = true)
  /\ (exists st' ev,
         run false [Keypress backslashKey; Keypress returnKey] (initialState false)
         = Some (tt, st', [Broadcast ev])
         /\ isShiftReturn ev = true
         /\ waitingForEnterRef (refs st') = false
         /\ findTimer (nextTimerId (timers (initialState false))) (pending (timers st')) = None).
Proof.
  apply (shift_enter_encodings false (initialState false)
           escapedCarriageReturn escapedLineFeed backslashKey returnKey);
    reflexivity.
Defined.

(** C3: a Ctrl+C right after a paste start marker is not broadcast, and
    the decoder stays in paste capture with the Ctrl+C in its buffer. *)
Lemma ctrl_c_after_paste_start_is_swallowed :
  exists st',
    run false [Keypress pasteStartKey; Keypress ctrlC] (initialState false)
    = Some (tt, st', [])
    /\ isPasteRef (refs st') = true
    /\ pasteBufferRef (refs st') = sequence ctrlC.
Proof. eexists. repeat split. Qed.

Lemma ctrl_c_is_captured_during_paste_witness :
  (exists st',
      handleKeypress false ctrlC (pasteStarted (initialState false)) = Some (tt, st', [])
      /\ isPasteRef (refs st') = true
      /\ pasteBufferRef (refs st') = sequence ctrlC)
  /\ (exists st',
         handleKeypress false ctrlC (initialState false) = Some (tt, st', [Broadcast ctrlC])
         /\ isPasteRef (refs st') = false
         /\ pasteBuffer (atoms st') = ""%string
         /\ dragBuffer (atoms st') = ""%string
         /\ kittySequenceBuffer (atoms st') = ""%string)
  /\ (exists st',
         handleKeypress false kittyCtrlC (initialState false)
         = Some (tt, st', [Broadcast kittyCtrlC])
         /\ isPasteRef (refs st') = false
         /\ pasteBuffer (atoms st') = ""%string
         /\ dragBuffer (atoms st') = ""%string
         /\ kittySequenceBuffer (atoms st') = ""%string).
Proof.
  split; [|split].
  - apply (proj1 (ctrl_c_is_captured_during_paste false
                    (pasteStarted (initialState false)) ctrlC eq_refl));
      reflexivity.
  - apply (proj2 (ctrl_c_is_captured_during_paste false (initialState false) ctrlC eq_refl));
      reflexivity.
  - apply (proj2 (ctrl_c_is_captured_during_paste false (initialState false) kittyCtrlC
                    eq_refl));
      reflexivity.
Defined.

(** C4: a paste start marker that arrives during drag capture leaves both
    capture flags set. *)
Lemma paste_start_during_drag_sets_both_flags :
  exists st',
    run false [Keypress quoteKey; Keypress pasteStartKey] (initialState false)
    = Some (tt, st', [])
    /\ isPasteRef (refs st') = true
    /\ isDraggingRef (refs st') = true.
Proof. eexists. repeat split. Qed.

Lemma drag_never_starts_during_paste_witness :
  isDraggingRef
    (refs (mkState (mkRefs false "" true None None false)
                   (mkAtoms false "" false SINGLE_QUOTE "" false)
                   (mkTimers [] 0)
                   (mkRendered "" "" "" false)))
  = true.
Proof.
  apply (drag_never_starts_during_paste false (Keypress pasteStartKey)
           (mkState (mkRefs false "" true None None false)
                    (mkAtoms false "" false SINGLE_QUOTE "" false)
                    (mkTimers [] 0)
                    (mkRendered "" "" "" false))
           (mkState (mkRefs true "" true None None false)
                    (mkAtoms true "" false SINGLE_QUOTE "" false)
                    (mkTimers [] 0)
                    (mkRendered "" "" "" false))
           []);
    reflexivity.
Defined.

Lemma repeated_unit_is_unparsed k n :
  isUnparsedUnit "" k -> Forall (isUnparsedUnit "") (repeat k n).
Proof. intros H. induction n; cbn [repeat]; constructor; assumption. Qed.

Lemma capturedText_repeat k n :
  String.length (capturedText (repeat k n)) = String.length (sequence k) * n.
Proof.
  induction n as [|n IH]; cbn [repeat capturedText]; [cbn; lia|].
  rewrite length_append, IH. lia.
Qed.

(** C5. Within one tick the accumulator is not reset, however long it
    gets. With the extended protocol on, the unit [ESC[9], of which nothing
    can be parsed, is added to the accumulator each time it comes and
    nothing is broadcast: the overflow check of source line 401 looks at the
    buffer that the handler holds from the last render, which stays empty
    during the tick. After 100 such units the accumulator holds 300
    characters, with a maximum of 256, and after [n] of them three times
    [n]. A complete sequence that comes then is parsed and broadcast, and
    the accumulator stays as long as it is; it is the cleanup of the effect,
    at the next render, that empties it. *)
Theorem accumulator_is_not_reset_within_a_tick :
  MAX_KITTY_SEQUENCE_LENGTH = 256
  /\ String.length (sequence kittyFirstHalf) = 3
  /\ nothingParses (sequence kittyFirstHalf)
  /\ (forall n, exists st',
         run false (map Keypress (repeat kittyFirstHalf n)) (initialState true)
         = Some (tt, st', [])
         /\ kittySequenceBuffer (atoms st') = capturedText (repeat kittyFirstHalf n)
         /\ String.length (kittySequenceBuffer (atoms st')) = 3 * n)
  /\ (exists st',
         run false (map Keypress (repeat kittyFirstHalf 100 ++ [plainKey "" kittyLetterA]))
             (initialState true)
         = Some (tt, st', [Broadcast (plainKey "a" kittyLetterA)])
         /\ String.length (kittySequenceBuffer (atoms st')) = 300)
  /\ (exists st',
         run false (map Keypress (repeat kittyFirstHalf 100) ++ [Render]) (initialState true)
         = Some (tt, st', [])
         /\ kittySequenceBuffer (atoms st') = ""%string).
Proof.
  assert (Hn : nothingParses (sequence kittyFirstHalf)).
  { apply nothingParsesb_sound. vm_compute. reflexivity. }
  split; [reflexivity|]. split; [reflexivity|]. split; [exact Hn|]. split; [|split].
  - intros n. eexists.
    rewrite (accumulator_grows_within_a_tick false (repeat kittyFirstHalf n)
               (initialState true));
      try reflexivity.
    + split; [reflexivity|]. split; [reflexivity|].
      cbn [withKittyBuffer atoms kittySequenceBuffer initialState append].
      apply (capturedText_repeat kittyFirstHalf n).
    + cbn. lia.
    + apply repeated_unit_is_unparsed. repeat split. exact Hn.
  - eexists. split; vm_compute; reflexivity.
  - eexists. split; vm_compute; reflexivity.
Qed.

(** C6. With the extended protocol on, the sequence of the letter a,
    delivered as its two halves, is not put together again: the first half
    goes to the accumulator and nothing is broadcast; the second half, which
    does not start with ESC, is broadcast as it is, and the first half stays
    in the accumulator. Delivered whole, the sequence is parsed. *)
Theorem split_sequence_is_not_reassembled :
  (exists st,
      handleKeypress false (plainKey "" kittyLetterA) (initialState true)
      = Some (tt, st, [Broadcast (plainKey "a" kittyLetterA)]))
  /\ (sequence kittyFirstHalf ++ sequence kittySecondHalf)%string = kittyLetterA
  /\ exists st1,
      handleKeypress false kittyFirstHalf (initialState true) = Some (tt, st1, [])
      /\ kittySequenceBuffer (atoms st1) = sequence kittyFirstHalf
      /\ handleKeypress false kittySecondHalf st1
         = Some (tt, st1, [Broadcast kittySecondHalf]).
Proof.
  split; [eexists; reflexivity|]. split; [reflexivity|].
  eexists. split; [reflexivity|]. split; [reflexivity|].
  now apply unit_without_ESC_bypasses_accumulator.
Qed.

(** C7. A focus report that arrives during a paste is part of the pasted
    text in raw-interception mode and is dropped in decoded-keypress mode.
    So it is when the start marker, the focus report and the end marker
    come in one tick, as three chunks or as one, and when a render follows
    each of them; and so it is with pasted text before the focus report in
    the same tick. *)
Theorem focus_report_inside_paste_differs :
  option_map broadcasts
    (output (run false (map Keypress [pasteStartKey; focusInKey; pasteEndKey])
                 (initialState false)))
  = Some []
  /\ option_map broadcasts
       (output (run true (map RawData [PASTE_MODE_PREFIX; FOCUS_IN; PASTE_MODE_SUFFIX])
                    (initialState false)))
     = Some [createPasteKey FOCUS_IN]
  /\ option_map broadcasts
       (output (handleRawData true (PASTE_MODE_PREFIX ++ FOCUS_IN ++ PASTE_MODE_SUFFIX)
                  (initialState false)))
     = Some [createPasteKey FOCUS_IN]
  /\ option_map broadcasts
       (output (run false [Keypress pasteStartKey; Render; Keypress focusInKey; Render;
                           Keypress pasteEndKey; Render]
                    (initialState false)))
     = Some []
  /\ option_map broadcasts
       (output (run true [RawData PASTE_MODE_PREFIX; Render; RawData FOCUS_IN; Render;
                          RawData PASTE_MODE_SUFFIX; Render]
                    (initialState false)))
     = Some [createPasteKey FOCUS_IN]
  /\ option_map broadcasts
       (output (run false (map Keypress [pasteStartKey; letterA; focusInKey; pasteEndKey])
                    (initialState false)))
     = Some [createPasteKey "a"]
  /\ option_map broadcasts
       (output (run true (map RawData [PASTE_MODE_PREFIX; "a"%string; FOCUS_IN;
                                       PASTE_MODE_SUFFIX])
                    (initialState false)))
     = Some [createPasteKey ("a" ++ FOCUS_IN)].
Proof. repeat (split; [vm_compute; reflexivity|]). vm_compute. reflexivity. Qed.

(** C8: while a backslash is pending, a unit that an earlier rule takes is
    handled by that rule alone. A paste start marker and a second backslash
    make the decoder broadcast nothing, an Alt letter is broadcast without
    the backslash before it; each time the backslash stays pending and its
    timer is not cancelled. *)
Lemma pending_backslash_is_not_flushed_by_earlier_rules :
  let pendingState := backslashArmed backslashKey (initialState false) in
  handleKeypress false backslashKey (initialState false) = Some (tt, pendingState, [])
  /\ waitingForEnterRef (refs pendingState) = true
  /\ (isReturn pasteStartKey = false
      /\ exists st2,
          handleKeypress false pasteStartKey pendingState = Some (tt, st2, [])
          /\ waitingForEnterRef (refs st2) = true
          /\ findTimer 0 (pending (timers st2)) = Some (BackslashTimeout backslashKey))
  /\ (isReturn backslashKey = false
      /\ exists st2,
          handleKeypress false backslashKey pendingState = Some (tt, st2, [])
          /\ waitingForEnterRef (refs st2) = true
          /\ findTimer 0 (pending (timers st2)) = Some (BackslashTimeout backslashKey))
  /\ (isReturn altLetterB = false
      /\ exists st2,
          handleKeypress false altLetterB pendingState
          = Some (tt, st2, [Broadcast (withAltName "b" altLetterB)])
          /\ waitingForEnterRef (refs st2) = true
          /\ findTimer 0 (pending (timers st2)) = Some (BackslashTimeout backslashKey)).
Proof.
  cbv zeta. split; [reflexivity|]. split; [reflexivity|].
  split; [|split]; (split; [reflexivity|]); eexists; repeat split.
Qed.

Lemma pending_backslash_flushes_first_witness :
  handleKeypress false letterA (backslashArmed backslashKey (initialState false))
  = emitFirst (Broadcast (createSpecialKey "" BACKSLASH))
              (handleKeypress false letterA
                 (backslashCancelled (backslashArmed backslashKey (initialState false))))
  /\ waitingForEnterRef
       (refs (backslashCancelled (backslashArmed backslashKey (initialState false)))) = false
  /\ backslashTimerRef
       (refs (backslashCancelled (backslashArmed backslashKey (initialState false)))) = None
  /\ (forall id,
        backslashTimerRef (refs (backslashArmed backslashKey (initialState false))) = Some id ->
        findTimer id
          (pending (timers (backslashCancelled
                              (backslashArmed backslashKey (initialState false))))) = None).
Proof.
  apply (pending_backslash_flushes_first false
           (backslashArmed backslashKey (initialState false)) letterA);
    reflexivity.
Defined.

(** C9. A lone backslash is lost when the effect runs anew before its
    timer fires. The backslash arms the timer; a quote that starts a drag
    comes within the window and changes the drag buffer atom, so the
    component renders and the cleanup of the effect clears the backslash
    timer, without the backslash and without resetting
    [waitingForEnterRef]. When the window has run out nothing has been
    broadcast and no timer is pending; if the component has rendered once
    more meanwhile, the quote has been broadcast as a paste event, and the
    backslash has not. A Return that comes afterwards is broadcast as
    Shift+Return. Without the render the timer fires and the backslash is
    broadcast. *)
Theorem backslash_is_lost_when_the_effect_reruns :
  (exists st',
      run false [Keypress backslashKey; Keypress quoteKey; Render; TimerFires 0]
          (initialState false)
      = Some (tt, st', [])
      /\ waitingForEnterRef (refs st') = true
      /\ pending (timers st') = [])
  /\ option_map broadcasts
       (output (run false [Keypress backslashKey; Keypress quoteKey; Render; Render;
                           TimerFires 0]
                    (initialState false)))
     = Some [createPasteKey SINGLE_QUOTE]
  /\ option_map broadcasts
       (output (run false [Keypress backslashKey; Keypress quoteKey; Render; TimerFires 0;
                           Render; Keypress returnKey]
                    (initialState false)))
     = Some [createPasteKey SINGLE_QUOTE; withShift returnKey]
  /\ isReturn returnKey = true
  /\ option_map broadcasts
       (output (run false [Keypress backslashKey; Keypress quoteKey; TimerFires 0]
                    (initialState false)))
     = Some [backslashKey].
Proof.
  split.
  - eexists. split; [vm_compute; reflexivity|]. split; reflexivity.
  - repeat (split; [vm_compute; reflexivity|]). vm_compute. reflexivity.
Qed.

End ConcreteRuns.

(** * Properties of the other code of the two files *)

(** ** Strings *)
Section StringPieces.

Lemma string_app_nil_r (s : string) : (s ++ "")%string = s.
Proof. induction s as [|c s IH]; cbn; [reflexivity | now rewrite IH]. Qed.

Lemma string_app_assoc (a b c : string) : ((a ++ b) ++ c = a ++ (b ++ c))%string.
Proof. induction a as [|x a IH]; cbn; [reflexivity | now rewrite IH]. Qed.

Lemma string_app_length (a b : string) :
  String.length (a ++ b)%string = String.length a + String.length b.
Proof. induction a as [|x a IH]; cbn; [reflexivity | now rewrite IH]. Qed.

Lemma take_app_length (a b : string) (n : nat) :
  Js.take (String.length a + n) (a ++ b)%string = (a ++ Js.take n b)%string.
Proof. induction a as [|x a IH]; cbn; [reflexivity | now rewrite IH]. Qed.

Lemma sliceFrom_app_length (a b : string) (n : nat) :
  Js.sliceFrom (String.length a + n) (a ++ b)%string = Js.sliceFrom n b.
Proof. induction a as [|x a IH]; cbn; [reflexivity | exact IH]. Qed.

Lemma take_app_within (a b : string) (n : nat) :
  n <= String.length a -> Js.take n (a ++ b)%string = Js.take n a.
Proof.
  revert n. induction a as [|x a IH]; intros n Hn; cbn in Hn.
  - replace n with 0 by lia. reflexivity.
  - destruct n as [|n]; cbn; [reflexivity|]. rewrite IH; [reflexivity | lia].
Qed.

Lemma sliceFrom_app_within (a b : string) (n : nat) :
  n <= String.length a -> Js.sliceFrom n (a ++ b)%string = (Js.sliceFrom n a ++ b)%string.
Proof.
  revert n. induction a as [|x a IH]; intros n Hn; cbn in Hn.
  - replace n with 0 by lia. reflexivity.
  - destruct n as [|n]; cbn; [reflexivity|]. apply IH. lia.
Qed.

Lemma take_length_le (s : string) (n : nat) :
  n <= String.length s -> String.length (Js.take n s) = n.
Proof.
  revert n. induction s as [|c s IH]; intros n Hn; cbn in Hn.
  - replace n with 0 by lia. reflexivity.
  - destruct n as [|n]; cbn; [reflexivity|]. rewrite IH; lia.
Qed.

Lemma take_take (s : string) (n m : nat) :
  n <= m -> Js.take n (Js.take m s) = Js.take n s.
Proof.
  revert n m. induction s as [|c s IH]; intros n m Hnm.
  - destruct n, m; reflexivity.
  - destruct n as [|n]; [destruct m; reflexivity|].
    destruct m as [|m]; [lia|]. cbn. rewrite IH; [reflexivity | lia].
Qed.

End StringPieces.

(** ** The order of positions *)
Section PositionOrder.
Import Position.

Ltac compare_coordinates :=
  repeat match goal with
         | |- context [(?a >? ?b)%Z] => rewrite (Z.gtb_ltb a b)
         | H : context [(?a >? ?b)%Z] |- _ => rewrite (Z.gtb_ltb a b) in H
         | |- context [(?a <? ?b)%Z] => destruct (Z.ltb_spec a b)
         | H : context [(?a <? ?b)%Z] |- _ => destruct (Z.ltb_spec a b)
         | |- context [(?a =? ?b)%Z] => destruct (Z.eqb_spec a b)
         | H : context [(?a =? ?b)%Z] |- _ => destruct (Z.eqb_spec a b)
         end;
  cbn in *; try congruence; try lia.

Lemma position_eq (a b : Position) :
  line a = line b -> character a = character b -> a = b.
Proof. destruct a, b; cbn; congruence. Qed.

Lemma isEqual_true (a b : Position) : isEqual a b = true <-> a = b.
Proof.
  split.
  - unfold isEqual. intros H. apply andb_prop in H. destruct H as [H1 H2].
    apply position_eq; now apply Z.eqb_eq.
  - intros ->. unfold isEqual. now rewrite !Z.eqb_refl.
Qed.

Lemma isBefore_lt (a b : Position) :
  isBefore a b = true
  <-> (line a < line b \/ (line a = line b /\ character a < character b))%Z.
Proof. unfold isBefore. compare_coordinates; intuition lia. Qed.

Lemma isBeforeOrEqual_le (a b : Position) :
  isBeforeOrEqual a b = true
  <-> (line a < line b \/ (line a = line b /\ character a <= character b))%Z.
Proof. unfold isBeforeOrEqual, isBefore, isEqual. compare_coordinates; intuition lia. Qed.

Lemma isAfter_gt (a b : Position) :
  isAfter a b = true
  <-> (line b < line a \/ (line b = line a /\ character b < character a))%Z.
Proof.
  unfold isAfter, isBeforeOrEqual, isBefore, isEqual. compare_coordinates; intuition lia.
Qed.

Lemma isAfterOrEqual_ge (a b : Position) :
  isAfterOrEqual a b = true
  <-> (line b < line a \/ (line b = line a /\ character b <= character a))%Z.
Proof. unfold isAfterOrEqual, isBefore. compare_coordinates; intuition lia. Qed.

(** X1. [compareTo] and the five predicates tell the same order: the
    result is -1, 0 or 1 as the position is before, equal to or after the
    other one, and swapping the two positions negates it. *)
Theorem compareTo_agrees_with_the_predicates (a b : Position) :
  (compareTo a b = (-1)%Z <-> isBefore a b = true)
  /\ (compareTo a b = 0%Z <-> isEqual a b = true)
  /\ (compareTo a b = 1%Z <-> isAfter a b = true)
  /\ compareTo b a = (- compareTo a b)%Z.
Proof.
  rewrite isBefore_lt, isAfter_gt, isEqual_true.
  unfold compareTo.
  repeat split; try intros H; compare_coordinates;
    try (apply position_eq; lia); try (subst; lia); try (intuition lia).
Qed.

(** X2. Positions are totally ordered by [isBefore]: no position is
    before itself, the relation is transitive, of two positions exactly
    one is before the other unless they are equal, and [isAfter],
    [isAfterOrEqual] and [isBeforeOrEqual] are that order read the other
    way round or with equality. *)
Theorem isBefore_is_a_strict_total_order :
  (forall a, isBefore a a = false)
  /\ (forall a b c, isBefore a b = true -> isBefore b c = true -> isBefore a c = true)
  /\ (forall a b,
        (isBefore a b = true /\ isEqual a b = false /\ isBefore b a = false)
        \/ (isBefore a b = false /\ isEqual a b = true /\ isBefore b a = false)
        \/ (isBefore a b = false /\ isEqual a b = false /\ isBefore b a = true))
  /\ (forall a b, isAfter a b = isBefore b a)
  /\ (forall a b, isAfterOrEqual a b = isBeforeOrEqual b a).
Proof.
  split; [|split; [|split; [|split]]].
  - intros a. unfold isBefore. compare_coordinates.
  - intros a b c Hab Hbc. apply isBefore_lt in Hab, Hbc. apply isBefore_lt. lia.
  - intros a b. unfold isBefore, isEqual. compare_coordinates; intuition congruence.
  - intros a b. unfold isAfter, isBeforeOrEqual, isBefore, isEqual. compare_coordinates.
  - intros a b. unfold isAfterOrEqual, isBeforeOrEqual, isBefore, isEqual.
    compare_coordinates.
Qed.

End PositionOrder.

(** ** Ranges *)
Section Ranges.
Import Range.

Lemma containsPosition_between (r : Range) (p : Position.Position) :
  containsPosition r p = true
  <-> Position.isBeforeOrEqual (start r) p = true
      /\ Position.isBeforeOrEqual p (end_ r) = true.
Proof.
  unfold containsPosition. rewrite andb_true_iff.
  rewrite isAfterOrEqual_ge, <- isBeforeOrEqual_le. tauto.
Qed.

Ltac order_positions :=
  repeat match goal with
         | H : _ /\ _ |- _ => destruct H
         | H : Position.isAfter _ _ = true |- _ => apply isAfter_gt in H
         | H : Position.isBefore _ _ = true |- _ => apply isBefore_lt in H
         | H : Position.isBeforeOrEqual _ _ = true |- _ => apply isBeforeOrEqual_le in H
         | H : Position.isAfter _ _ = false |- _ =>
             apply not_true_iff_false in H; rewrite isAfter_gt in H
         | H : Position.isBefore _ _ = false |- _ =>
             apply not_true_iff_false in H; rewrite isBefore_lt in H
         | H : Position.isBeforeOrEqual _ _ = false |- _ =>
             apply not_true_iff_false in H; rewrite isBeforeOrEqual_le in H
         end;
  repeat match goal with
         | |- Position.isBeforeOrEqual _ _ = true => apply isBeforeOrEqual_le
         | |- Position.isBefore _ _ = true => apply isBefore_lt
         | |- Position.isAfter _ _ = true => apply isAfter_gt
         | |- _ /\ _ => split
         end;
  try lia.

Lemma containsPosition_false (r : Range) (p : Position.Position) :
  containsPosition r p = false
  <-> ~ (Position.isBeforeOrEqual (start r) p = true
         /\ Position.isBeforeOrEqual p (end_ r) = true).
Proof. rewrite <- containsPosition_between. symmetry. apply not_true_iff_false. Qed.

(** X3. The intersection of two ranges holds the positions that both of
    them contain: when there is one, a position is in it if and only if
    it is in both ranges, and when there is none, the two ranges share no
    position. The order of the two ranges does not matter. *)
Theorem intersection_holds_the_common_positions (r1 r2 : Range) (p : Position.Position) :
  match intersection r1 r2 with
  | Some r => containsPosition r p = (containsPosition r1 p && containsPosition r2 p)%bool
  | None => (containsPosition r1 p && containsPosition r2 p)%bool = false
  end
  /\ intersection r2 r1 = intersection r1 r2.
Proof.
  split.
  - unfold intersection.
    destruct (Position.isAfter (start r1) (start r2)) eqn:Hs;
      destruct (Position.isBefore (end_ r1) (end_ r2)) eqn:He;
      match goal with |- context [if ?c then None else _] => destruct c eqn:Hx end;
      try (apply andb_false_iff;
           rewrite !containsPosition_false, !isBeforeOrEqual_le;
           order_positions; cbn [start end_] in *; lia);
      (apply eq_true_iff_eq; rewrite andb_true_iff, !containsPosition_between;
       rewrite !isBeforeOrEqual_le; cbn [start end_]; order_positions; intuition lia).
  - unfold intersection.
    destruct (Position.isAfter (start r1) (start r2)) eqn:Hs1;
      destruct (Position.isAfter (start r2) (start r1)) eqn:Hs2;
      destruct (Position.isBefore (end_ r1) (end_ r2)) eqn:He1;
      destruct (Position.isBefore (end_ r2) (end_ r1)) eqn:He2;
      order_positions;
      repeat match goal with
             | |- context [start r2] =>
                 replace (start r2) with (start r1) by (apply position_eq; lia)
             | |- context [end_ r2] =>
                 replace (end_ r2) with (end_ r1) by (apply position_eq; lia)
             end;
      reflexivity.
Qed.

(** X4. The union of two ranges whose ends are in order contains both of
    them, and it is the least such range: every range that contains both
    contains their union. *)
Theorem union_is_the_least_range_over_both (r1 r2 r : Range) :
  ordered r1 = true -> ordered r2 = true ->
  contains (union r1 r2) (inr r1) = true
  /\ contains (union r1 r2) (inr r2) = true
  /\ (contains r (inr r1) = true -> contains r (inr r2) = true ->
      contains r (inr (union r1 r2)) = true).
Proof.
  unfold ordered. intros H1 H2.
  cbn [contains]. rewrite !andb_true_iff, !containsPosition_between.
  unfold union.
  destruct (Position.isBefore (start r1) (start r2)) eqn:Hs;
    destruct (Position.isAfter (end_ r1) (end_ r2)) eqn:He;
    cbn [start end_]; order_positions; intros; order_positions.
Qed.

Lemma reversed_range_contains_nothing (r : Range) (x : Position.Position + Range) :
  Position.isAfter (start r) (end_ r) = true -> contains r x = false.
Proof.
  intros H.
  assert (Hp : forall p, containsPosition r p = false).
  { intros p. apply containsPosition_false. intros Hc. order_positions. }
  destruct x as [p|o]; cbn [contains]; now rewrite Hp.
Qed.

(** X5. A range contains another range, whose ends are in order, if and
    only if it contains every position of that range: testing the two ends
    is enough. Containment is reflexive on such ranges, transitive, and
    two ranges that contain each other are equal. *)
Theorem containment_of_ranges_is_containment_of_positions (r1 r2 : Range) :
  ordered r2 = true ->
  (contains r1 (inr r2) = true
   <-> forall p, containsPosition r2 p = true -> containsPosition r1 p = true)
  /\ contains r2 (inr r2) = true
  /\ (forall r3, contains r1 (inr r2) = true -> contains r2 (inr r3) = true ->
                 contains r1 (inr r3) = true)
  /\ (contains r1 (inr r2) = true -> contains r2 (inr r1) = true -> isEqual r1 r2 = true).
Proof.
  unfold ordered. intros H2. cbn [contains].
  split; [|split; [|split]].
  - rewrite andb_true_iff, !containsPosition_between. split.
    + intros H p. rewrite !containsPosition_between. intros Hp. order_positions.
    + intros H. rewrite <- !containsPosition_between.
      split; apply H; apply containsPosition_between; order_positions.
  - rewrite andb_true_iff, !containsPosition_between. order_positions.
  - intros r3. rewrite !andb_true_iff, !containsPosition_between.
    intros H12 H23. order_positions.
  - rewrite !andb_true_iff, !containsPosition_between. intros H12 H21.
    unfold isEqual. rewrite andb_true_iff, !isEqual_true.
    order_positions; apply position_eq; lia.
Qed.

End Ranges.

(** ** Selections *)
Section Selections.
Import Selection.

(** X6. A selection keeps its anchor as the start of its range and its
    active position as the end, in whatever order they are: a reversed
    selection, taken as a range, contains no position and no range, not
    even its own anchor. *)
Theorem reversed_selection_contains_nothing (s : Selection)
        (x : Position.Position + Range.Range) :
  isReversed s = true -> Range.contains (toRange s) x = false.
Proof. intros H. now apply reversed_range_contains_nothing. Qed.

End Selections.

(** ** Kinds of code actions *)
Section CodeActionKinds.
Import CodeActionKind.

Lemma startsWith_append (p t : string) : Js.startsWith p (p ++ t)%string = true.
Proof.
  induction p as [|a p IH]; cbn [Js.startsWith String.append]; [reflexivity|].
  now rewrite Ascii.eqb_refl, IH.
Qed.

Lemma startsWith_split (p s : string) :
  Js.startsWith p s = true -> exists t, s = (p ++ t)%string.
Proof.
  revert s. induction p as [|a p IH]; intros s H.
  - now exists s.
  - destruct s as [|b s]; cbn [Js.startsWith] in H; [discriminate|].
    apply andb_prop in H. destruct H as [Hab Hps].
    apply Ascii.eqb_eq in Hab. subst b.
    destruct (IH s Hps) as [t ->]. now exists t.
Qed.

Lemma contains_true (a b : CodeActionKind) :
  contains a b = true
  <-> value a = value b \/ exists t, value b = (value a ++ "." ++ t)%string.
Proof.
  unfold contains. rewrite orb_true_iff, String.eqb_eq. split.
  - intros [H|H]; [now left | right].
    destruct (startsWith_split _ _ H) as [t Ht]. exists t.
    now rewrite Ht, string_app_assoc.
  - intros [H|[t Ht]]; [now left | right].
    rewrite Ht, <- string_app_assoc. apply startsWith_append.
Qed.

(** X7. A kind contains the kinds below it in the dotted hierarchy:
    containment is reflexive and transitive, two kinds that contain each
    other have the same value, and two kinds intersect whichever of them
    is asked. *)
Theorem contains_orders_the_kinds :
  (forall a, contains a a = true)
  /\ (forall a b c, contains a b = true -> contains b c = true -> contains a c = true)
  /\ (forall a b, contains a b = true -> contains b a = true -> value a = value b)
  /\ (forall a b, intersects a b = intersects b a).
Proof.
  split; [|split; [|split]].
  - intros a. apply contains_true. now left.
  - intros a b c Hab Hbc. apply contains_true in Hab, Hbc. apply contains_true.
    destruct Hab as [Eab|[t Ht]], Hbc as [Ebc|[u Hu]].
    + left. congruence.
    + right. exists u. now rewrite Eab.
    + right. exists t. now rewrite <- Ebc.
    + right. exists (t ++ "." ++ u)%string.
      rewrite Hu, Ht. now rewrite !string_app_assoc.
  - intros a b Hab Hba. apply contains_true in Hab, Hba.
    destruct Hab as [E|[t Ht]]; [exact E|].
    destruct Hba as [E|[u Hu]]; [now symmetry|].
    apply (f_equal String.length) in Ht, Hu.
    rewrite !string_app_length in Ht, Hu. cbn in Ht, Hu. lia.
  - intros a b. unfold intersects. apply orb_comm.
Qed.

(** X8. Appending to a kind whose value is not empty gives a kind that it
    contains, and that intersects it. Appending to the empty kind gives the
    kind of the appended part alone, which the empty kind contains only if
    that part is empty or starts with a dot: the empty kind does not
    contain the kinds [quickfix], [refactor] or [source]. *)
Theorem append_goes_down_the_hierarchy (k : CodeActionKind) (parts : string) :
  contains k (append k parts)
  = (Js.truthy (value k) || (parts =? "")%string || Js.startsWith "." parts)%bool
  /\ intersects k (append k parts) = contains k (append k parts)
  /\ contains Empty QuickFix = false
  /\ contains Empty Refactor = false
  /\ contains Empty Source = false.
Proof.
  assert (Hc : contains k (append k parts)
               = (Js.truthy (value k) || (parts =? "")%string
                  || Js.startsWith "." parts)%bool).
  { destruct (Js.truthy (value k)) eqn:H; cbn [orb].
    - apply contains_true. right. exists parts. unfold append. now rewrite H.
    - unfold contains, append. rewrite H. cbn [value].
      unfold Js.truthy in H. apply negb_false_iff, String.eqb_eq in H. rewrite H.
      cbn [String.append]. now rewrite String.eqb_sym. }
  split; [exact Hc|]. split; [|repeat split].
  unfold intersects. destruct (contains k (append k parts)) eqn:E; [reflexivity|].
  cbn [orb]. symmetry in Hc. apply orb_false_elim in Hc. destruct Hc as [Hc Hdot].
  apply orb_false_elim in Hc. destruct Hc as [Ht Hp].
  unfold contains, append. rewrite Ht. cbn [value].
  unfold Js.truthy in Ht. apply negb_false_iff, String.eqb_eq in Ht. rewrite Ht.
  rewrite Hp. cbn [orb].
  destruct parts as [|c parts]; [discriminate Hp|]. reflexivity.
Qed.

End CodeActionKinds.

(** ** Maps with string keys *)
Section JsMapFacts.
Context {V : Type}.
Implicit Types (m : JsMap.Map V) (k : string) (v : V).

Lemma map_get_set k k' v m :
  JsMap.get k' (JsMap.set k v m) = if (k =? k')%string then Some v else JsMap.get k' m.
Proof.
  induction m as [|[k0 v0] m IH]; cbn [JsMap.set JsMap.get].
  - reflexivity.
  - destruct (String.eqb_spec k0 k) as [->|Hk0]; cbn [JsMap.get].
    + destruct (k =? k')%string; reflexivity.
    + rewrite IH. destruct (String.eqb_spec k0 k') as [->|Hk']; [|reflexivity].
      destruct (String.eqb_spec k k') as [->|_]; [now elim Hk0 | reflexivity].
Qed.

Lemma map_has_get k m :
  JsMap.has k m = match JsMap.get k m with Some _ => true | None => false end.
Proof.
  induction m as [|[k0 v0] m IH]; cbn [JsMap.has JsMap.get]; [reflexivity|].
  now destruct (k0 =? k)%string.
Qed.

Lemma map_has_set k k' v m :
  JsMap.has k' (JsMap.set k v m) = ((k =? k')%string || JsMap.has k' m)%bool.
Proof. rewrite !map_has_get, map_get_set. now destruct (k =? k')%string. Qed.

Lemma map_get_delete k k' m :
  JsMap.get k' (JsMap.delete k m) = if (k =? k')%string then None else JsMap.get k' m.
Proof.
  unfold JsMap.delete.
  induction m as [|[k0 v0] m IH]; cbn [filter JsMap.get fst].
  - now destruct (k =? k')%string.
  - destruct (String.eqb_spec k0 k) as [->|Hk0]; cbn [negb JsMap.get].
    + rewrite IH. now destruct (k =? k')%string.
    + rewrite IH. destruct (String.eqb_spec k0 k') as [->|_]; [|reflexivity].
      destruct (String.eqb_spec k k') as [->|_]; [now elim Hk0 | reflexivity].
Qed.

Lemma map_size_set k v m :
  JsMap.size (JsMap.set k v m) = if JsMap.has k m then JsMap.size m else S (JsMap.size m).
Proof.
  unfold JsMap.size.
  induction m as [|[k0 v0] m IH]; cbn [JsMap.set JsMap.has length]; [reflexivity|].
  destruct (k0 =? k)%string; cbn [length]; [reflexivity|].
  rewrite IH. now destruct (JsMap.has k m).
Qed.

End JsMapFacts.

(** ** Workspace edits *)
Section WorkspaceEdits.
Import WorkspaceEdit.

Lemma nth_pushOn (ref ref' : ArrayRef) (edit : TextEdit.TextEdit)
      (l : list (list TextEdit.TextEdit)) :
  ref < length l ->
  nth ref' (pushOn ref edit l) []
  = if Nat.eqb ref ref' then nth ref' l [] ++ [edit] else nth ref' l [].
Proof.
  revert ref ref'. induction l as [|array l IH]; intros ref ref' Hlt; [cbn in Hlt; lia|].
  destruct ref as [|ref], ref' as [|ref']; cbn [pushOn nth Nat.eqb]; try reflexivity.
  apply IH. cbn in Hlt. lia.
Qed.

Lemma length_pushOn (ref : ArrayRef) (edit : TextEdit.TextEdit)
      (l : list (list TextEdit.TextEdit)) :
  length (pushOn ref edit l) = length l.
Proof.
  revert ref. induction l as [|array l IH]; intros [|ref]; cbn [pushOn length]; auto.
Qed.

(** The workspace edit once the key has an array. *)
Lemma push_unfold (key : string) (edit : TextEdit.TextEdit) (we : WorkspaceEdit) :
  push key edit we
  = match JsMap.get key (_edits we) with
    | Some array => mkWorkspaceEdit (_edits we) (pushOn array edit (arrays we))
    | None => mkWorkspaceEdit (JsMap.set key (length (arrays we)) (_edits we))
                              (arrays we ++ [[edit]])
    end.
Proof.
  unfold push. rewrite map_has_get.
  destruct (JsMap.get key (_edits we)) as [array|] eqn:Hkey; cbn [negb].
  - now rewrite Hkey.
  - cbn [newArray _edits arrays]. rewrite map_get_set, String.eqb_refl. f_equal.
    induction (arrays we) as [|a l IH]; [reflexivity|].
    cbn [app length pushOn]. now rewrite IH.
Qed.

(** A call pushes its edit on one array: the edits of a resource grow by
    it exactly when they are in that array. *)
Lemma get_push (key : string) (edit : TextEdit.TextEdit) (uri : Uri.Uri) (we : WorkspaceEdit) :
  holdsArrays we ->
  get uri (push key edit we)
  = get uri we
      ++ (if match JsMap.get key (_edits we) with
             | Some array =>
                 match JsMap.get (Uri.toString uri) (_edits we) with
                 | Some array' => Nat.eqb array array'
                 | None => false
                 end
             | None => (key =? Uri.toString uri)%string
             end
          then [edit] else []).
Proof.
  intros Hwf. rewrite push_unfold. unfold get, read.
  destruct (JsMap.get key (_edits we)) as [array|] eqn:Hkey; cbn [_edits arrays].
  - destruct (JsMap.get (Uri.toString uri) (_edits we)) as [array'|] eqn:Huri; [|reflexivity].
    rewrite nth_pushOn by now apply (Hwf key).
    destruct (Nat.eqb array array'); [reflexivity | now rewrite app_nil_r].
  - rewrite map_get_set.
    destruct (String.eqb_spec key (Uri.toString uri)) as [<-|_].
    + rewrite Hkey. rewrite nth_middle. reflexivity.
    + destruct (JsMap.get (Uri.toString uri) (_edits we)) as [array'|] eqn:Huri;
        [|reflexivity].
      rewrite app_nth1 by now apply (Hwf (Uri.toString uri)).
      now rewrite app_nil_r.
Qed.

Lemma has_push (key : string) (edit : TextEdit.TextEdit) (uri : Uri.Uri) (we : WorkspaceEdit) :
  has uri (push key edit we) = ((key =? Uri.toString uri)%string || has uri we)%bool.
Proof.
  rewrite push_unfold. unfold has.
  destruct (JsMap.get key (_edits we)) as [array|] eqn:Hkey; cbn [_edits].
  - destruct (String.eqb_spec key (Uri.toString uri)) as [<-|_]; [|reflexivity].
    now rewrite map_has_get, Hkey.
  - apply map_has_set.
Qed.

Lemma push_holdsArrays (key : string) (edit : TextEdit.TextEdit) (we : WorkspaceEdit) :
  holdsArrays we -> holdsArrays (push key edit we).
Proof.
  intros Hwf. rewrite push_unfold.
  destruct (JsMap.get key (_edits we)) as [array|] eqn:Hkey; intros k a; cbn [_edits arrays].
  - rewrite length_pushOn. apply Hwf.
  - rewrite map_get_set, length_app. cbn [length].
    destruct (key =? k)%string; [intros [= <-]; lia|].
    intros H. apply Hwf in H. lia.
Qed.

Lemma push_sharesNoArray (key : string) (edit : TextEdit.TextEdit) (we : WorkspaceEdit) :
  holdsArrays we -> sharesNoArray we -> sharesNoArray (push key edit we).
Proof.
  intros Hwf Hinj. rewrite push_unfold.
  destruct (JsMap.get key (_edits we)) as [array|] eqn:Hkey; intros k k' a; cbn [_edits].
  - apply Hinj.
  - rewrite !map_get_set.
    destruct (String.eqb_spec key k) as [<-|Hk], (String.eqb_spec key k') as [<-|Hk'].
    + reflexivity.
    + intros [= <-] H. apply Hwf in H. lia.
    + intros H [= <-]. apply Hwf in H. lia.
    + apply Hinj.
Qed.

Lemma call_pushes (c : Call) (we : WorkspaceEdit) :
  call we c = push (Uri.toString (uriOf c)) (editOf c) we.
Proof. destruct c; reflexivity. Qed.

Lemma calls_keep_the_arrays_apart (calls : list Call) (we : WorkspaceEdit) :
  holdsArrays we -> sharesNoArray we ->
  holdsArrays (fold_left call calls we) /\ sharesNoArray (fold_left call calls we).
Proof.
  revert we. induction calls as [|c calls IH]; intros we Hwf Hinj; [now split|].
  cbn [fold_left]. rewrite call_pushes.
  apply IH; [now apply push_holdsArrays | now apply push_sharesNoArray].
Qed.

Lemma get_push_apart (key : string) (edit : TextEdit.TextEdit) (uri : Uri.Uri)
      (we : WorkspaceEdit) :
  holdsArrays we -> sharesNoArray we ->
  get uri (push key edit we)
  = if (key =? Uri.toString uri)%string then get uri we ++ [edit] else get uri we.
Proof.
  intros Hwf Hinj. rewrite (get_push _ _ _ _ Hwf).
  destruct (JsMap.get key (_edits we)) as [array|] eqn:Hkey.
  - destruct (JsMap.get (Uri.toString uri) (_edits we)) as [array'|] eqn:Huri.
    + destruct (Nat.eqb_spec array array') as [<-|Hne].
      * rewrite (Hinj _ _ _ Hkey Huri), String.eqb_refl. reflexivity.
      * destruct (String.eqb_spec key (Uri.toString uri)) as [E|_]; [|apply app_nil_r].
        rewrite E in Hkey. congruence.
    + destruct (String.eqb_spec key (Uri.toString uri)) as [E|_]; [|apply app_nil_r].
      rewrite E in Hkey. congruence.
  - destruct (key =? Uri.toString uri)%string; [reflexivity | apply app_nil_r].
Qed.

Lemma get_after_calls (calls : list Call) (uri : Uri.Uri) (we : WorkspaceEdit) :
  holdsArrays we -> sharesNoArray we ->
  get uri (fold_left call calls we)
  = get uri we ++ map editOf (filter (fun c => sameKey (uriOf c) uri) calls).
Proof.
  revert we. induction calls as [|c calls IH]; intros we Hwf Hinj; cbn [fold_left filter map].
  - now rewrite app_nil_r.
  - rewrite call_pushes.
    rewrite IH by (now apply push_holdsArrays || now apply push_sharesNoArray).
    rewrite (get_push_apart _ _ _ _ Hwf Hinj). unfold sameKey at 2.
    destruct (Uri.toString (uriOf c) =? Uri.toString uri)%string; cbn [map]; [|reflexivity].
    now rewrite <- app_assoc.
Qed.

Lemma has_after_calls (calls : list Call) (uri : Uri.Uri) (we : WorkspaceEdit) :
  has uri (fold_left call calls we)
  = (has uri we || existsb (fun c => sameKey (uriOf c) uri) calls)%bool.
Proof.
  revert we. induction calls as [|c calls IH]; intros we; cbn [fold_left existsb].
  - now rewrite orb_false_r.
  - rewrite IH, call_pushes, has_push. unfold sameKey at 2.
    destruct (Uri.toString (uriOf c) =? Uri.toString uri)%string;
      destruct (has uri we); reflexivity.
Qed.

Lemma new_holdsArrays : holdsArrays new.
Proof. intros key array. discriminate. Qed.

Lemma new_sharesNoArray : sharesNoArray new.
Proof. intros key key' array. discriminate. Qed.

(** X9. A workspace edit keeps the edits of each resource in the order of
    the calls: after any calls of [delete], [insert] and [replace] on a new
    workspace edit, [get] gives the edits of the calls that named a resource
    with the same string, in call order, and [has] tells whether there was
    such a call. Resources are told apart by their strings alone. *)
Theorem edits_are_kept_per_resource_in_call_order (calls : list Call) (uri : Uri.Uri) :
  get uri (fold_left call calls new)
  = map editOf (filter (fun c => sameKey (uriOf c) uri) calls)
  /\ has uri (fold_left call calls new)
     = existsb (fun c => sameKey (uriOf c) uri) calls.
Proof.
  split.
  - now rewrite (get_after_calls _ _ _ new_holdsArrays new_sharesNoArray).
  - now rewrite has_after_calls.
Qed.

(** X10. [set] gives a resource the array it is handed, in place of the one
    it had, and keeps no copy. [get] then returns the edits of that array
    for every resource with the same string and is unchanged for the
    others, and the size grows by one exactly when the resource was not
    there. An edit that is added afterwards is pushed on the array of its
    resource, and it shows under every resource that holds that array: when
    one array was set for two resources, the edits added to the one are
    among the edits of the other. *)
Theorem set_replaces_the_edits_of_a_resource (uri uri' : Uri.Uri)
        (edits : ArrayRef) (we : WorkspaceEdit) (c : Call) :
  holdsArrays we ->
  edits < length (arrays we) ->
  get uri' (set uri edits we) = (if sameKey uri uri' then read edits we else get uri' we)
  /\ has uri' (set uri edits we) = (sameKey uri uri' || has uri' we)%bool
  /\ size (set uri edits we) = (if has uri we then size we else S (size we))
  /\ get uri' (call (set uri edits we) c)
     = get uri' (set uri edits we)
         ++ (if sameArray (uriOf c) uri' (set uri edits we) then [editOf c] else [])
  /\ (sameKey (uriOf c) uri = true ->
      get uri' (call (set uri' edits (set uri edits we)) c) = read edits we ++ [editOf c]).
Proof.
  intros Hwf Hedits.
  assert (Hwf' : forall u this, holdsArrays this -> edits < length (arrays this) ->
                                holdsArrays (set u edits this)).
  { intros u this Hthis Hlt k a. unfold set. cbn [_edits arrays]. rewrite map_get_set.
    destruct (Uri.toString u =? k)%string; [now intros [= <-] | apply Hthis]. }
  assert (Hget : forall u u' this,
             get u' (set u edits this) = if sameKey u u' then read edits this else get u' this).
  { intros u u' this. unfold get, set, sameKey, read. cbn [_edits arrays]. rewrite map_get_set.
    now destruct (Uri.toString u =? Uri.toString u')%string. }
  split; [apply Hget|]. split; [|split; [|split]].
  - unfold has, set, sameKey. cbn [_edits]. now rewrite map_has_set.
  - unfold size, set, has. cbn [_edits]. apply map_size_set.
  - rewrite call_pushes, get_push by now apply Hwf'. reflexivity.
  - intros Hc. rewrite call_pushes, get_push by (apply Hwf'; [now apply Hwf' | exact Hedits]).
    rewrite Hget. unfold sameKey in Hc |- *. rewrite String.eqb_refl.
    apply String.eqb_eq in Hc. rewrite Hc.
    unfold read at 1. cbn [set arrays _edits]. fold (read edits we). f_equal.
    rewrite !map_get_set, !String.eqb_refl.
    destruct (Uri.toString uri' =? Uri.toString uri)%string; now rewrite Nat.eqb_refl.
Qed.

End WorkspaceEdits.

(** ** Diagnostic collections *)
Section DiagnosticCollections.
Import DiagnosticCollection.
Context {D : Type}.

Lemma get_setOne (uri uri' : Uri.Uri) (diags : option D) (m : Diagnostics D) :
  get uri' (setOne uri diags m)
  = if WorkspaceEdit.sameKey uri uri' then diags else get uri' m.
Proof.
  unfold get, setOne, WorkspaceEdit.sameKey.
  destruct diags as [d|]; [apply map_get_set | apply map_get_delete].
Qed.

(** X11. When a diagnostic collection is set from an array of entries,
    the last entry that names a resource decides: [get] gives its
    diagnostics, or nothing if that entry holds [undefined], and a
    resource that no entry names keeps what it had. [has] tells whether
    [get] gives something. *)
Theorem last_entry_of_a_resource_decides (entries : list (Uri.Uri * option D))
        (ignored : option D) (uri : Uri.Uri) (m : Diagnostics D) :
  get uri (set (inr entries) ignored m)
  = match lastEntryFor uri entries with
    | Some entry => snd entry
    | None => get uri m
    end
  /\ has uri (set (inr entries) ignored m)
     = match get uri (set (inr entries) ignored m) with Some _ => true | None => false end.
Proof.
  split; [|apply map_has_get].
  cbn [set]. unfold lastEntryFor.
  induction entries as [|entry entries IH] using rev_ind; [reflexivity|].
  rewrite fold_left_app, rev_app_distr. cbn [fold_left rev app find].
  rewrite get_setOne.
  destruct (WorkspaceEdit.sameKey (fst entry) uri); [reflexivity | exact IH].
Qed.

End DiagnosticCollections.

(** ** Commands *)
Section CommandsFacts.
Import CommandsAPI.
Context {H : Type}.

(** X12. A registered handler is what [executeCommand] calls for its
    command, built-in commands included, and it shadows nothing else.
    Registrations are kept by name: disposing any registration of a command
    leaves the command to the built-in ones, also when the handler in place
    comes from a later registration. *)
Theorem commands_are_registered_by_name (command other : string) (h h' : H)
        (api : CommandsAPI H) :
  executeCommand other (registerCommand command h api)
  = (if (command =? other)%string then CallsHandler h else executeCommand other api)
  /\ executeCommand other (disposeCommand command api)
     = (if (command =? other)%string then builtIn other else executeCommand other api)
  /\ executeCommand command
       (disposeCommand command (registerCommand command h' (registerCommand command h api)))
     = builtIn command.
Proof.
  unfold executeCommand, registerCommand, disposeCommand. cbn [commands].
  rewrite map_get_set, !map_get_delete, String.eqb_refl.
  repeat split; now destruct (command =? other)%string.
Qed.

End CommandsFacts.

(** ** The keys of an object *)
Section ObjectKeys.
Context {V : Type}.

Lemma insertIndex_In (n : N) (k : string) (l : list (N * string)) (x : N * string) :
  In x (JsObject.insertIndex n k l) <-> x = (n, k) \/ In x l.
Proof.
  induction l as [|[n' k'] l IH]; cbn [JsObject.insertIndex In].
  - intuition.
  - destruct (n <? n')%N; cbn [In]; [intuition | rewrite IH; intuition].
Qed.

Lemma indexKeys_complete (ks : list string) (k : string) (n : N) :
  In k ks -> JsObject.arrayIndex k = Some n -> In (n, k) (JsObject.indexKeys ks).
Proof.
  intros Hin Hk. induction ks as [|k0 ks IH]; [destruct Hin|].
  cbn [JsObject.indexKeys fold_right]. fold (JsObject.indexKeys ks).
  destruct Hin as [->|Hin].
  - rewrite Hk. apply insertIndex_In. now left.
  - destruct (JsObject.arrayIndex k0); [apply insertIndex_In; right|]; now apply IH.
Qed.

Lemma get_Some_key (o : JsMap.Map V) (k : string) (v : V) :
  JsMap.get k o = Some v -> In k (JsMap.keys o).
Proof.
  induction o as [|[k0 v0] o IH]; cbn [JsMap.get JsMap.keys map fst In]; [discriminate|].
  destruct (String.eqb_spec k0 k) as [->|_]; [now left | right; now apply IH].
Qed.

(** [Object.keys] lists every key that holds a value. *)
Lemma ownKeys_complete (o : JsMap.Map V) (k : string) (v : V) :
  JsMap.get k o = Some v -> In k (JsObject.ownKeys o).
Proof.
  intros H. apply get_Some_key in H. unfold JsObject.ownKeys. apply in_or_app.
  destruct (JsObject.arrayIndex k) as [n|] eqn:Hk.
  - left. apply in_map_iff. exists (n, k). split; [reflexivity|].
    now apply indexKeys_complete.
  - right. apply filter_In. split; [exact H|]. unfold JsObject.isIndexKey. now rewrite Hk.
Qed.

Lemma indexKeys_sound (ks : list string) (k : string) (n : N) :
  In (n, k) (JsObject.indexKeys ks) -> In k ks.
Proof.
  induction ks as [|k0 ks IH]; [intros []|].
  cbn [JsObject.indexKeys fold_right]. fold (JsObject.indexKeys ks).
  destruct (JsObject.arrayIndex k0); [|intros H; right; now apply IH].
  intros H. apply insertIndex_In in H. destruct H as [[= _ ->]|H]; [now left|].
  right. now apply IH.
Qed.

Lemma key_get_Some (o : JsMap.Map V) (k : string) :
  In k (JsMap.keys o) -> exists v, JsMap.get k o = Some v.
Proof.
  induction o as [|[k0 v0] o IH]; cbn [JsMap.get JsMap.keys map fst In]; [intros []|].
  intros H. destruct (String.eqb_spec k0 k) as [->|Hne]; [now exists v0|].
  destruct H as [H|H]; [now elim Hne | now apply IH].
Qed.

(** [Object.keys] lists only keys that hold a value. *)
Lemma ownKeys_sound (o : JsMap.Map V) (k : string) :
  In k (JsObject.ownKeys o) -> exists v, JsMap.get k o = Some v.
Proof.
  intros H. apply key_get_Some. unfold JsObject.ownKeys in H. apply in_app_or in H.
  destruct H as [H|H].
  - apply in_map_iff in H. destruct H as ([n k'] & E & H). cbn in E. subst k'.
    now apply indexKeys_sound in H.
  - now apply filter_In in H.
Qed.

End ObjectKeys.

(** ** The configuration of the workspace *)
Section Configuration.
Import MockWorkspaceConfiguration.
Context {V : Type}.
Variable isNull : V -> bool.
Variable inherited : string -> V.

Lemma not_inherited_not_proto (k : string) :
  JsObject.isPrototypeName k = false -> (k =? "__proto__")%string = false.
Proof.
  unfold JsObject.isPrototypeName, JsObject.prototypeNames. cbn [existsb].
  intros H. repeat (apply orb_false_elim in H; destruct H as [? H]). assumption.
Qed.

Lemma lookup_assign (key key' : string) (v : V) (o : JsMap.Map V) :
  (key =? "__proto__")%string = false ->
  JsObject.lookup inherited key' (JsObject.assign key v o)
  = if (key =? key')%string then Some v else JsObject.lookup inherited key' o.
Proof.
  intros Hkey. unfold JsObject.lookup, JsObject.assign. rewrite Hkey, map_get_set.
  now destruct (key =? key')%string.
Qed.

Lemma lookup_delete (key key' : string) (o : JsMap.Map V) :
  JsObject.isPrototypeName key = false ->
  JsObject.lookup inherited key' (JsMap.delete key o)
  = if (key =? key')%string then None else JsObject.lookup inherited key' o.
Proof.
  intros Hkey. unfold JsObject.lookup. rewrite map_get_delete.
  destruct (String.eqb_spec key key') as [<-|_]; [|reflexivity].
  now rewrite Hkey.
Qed.

Lemma memento_get_update (key key' : string) (value d : option V)
      (m : MemoryMemento.MemoryMemento V) :
  JsObject.isPrototypeName key = false ->
  MemoryMemento.get inherited key' d (MemoryMemento.update key value m)
  = if (key =? key')%string
    then match value with Some v => Some v | None => d end
    else MemoryMemento.get inherited key' d m.
Proof.
  intros Hkey. unfold MemoryMemento.get, MemoryMemento.update. cbn [MemoryMemento.data].
  destruct value as [v|];
    [rewrite (lookup_assign _ _ _ _ (not_inherited_not_proto _ Hkey))
    | rewrite (lookup_delete _ _ _ Hkey)];
    now destruct (key =? key')%string.
Qed.

(** What a memento gives under a name of [Object.prototype] that it does
    not hold itself: the inherited value, not the default. *)
Lemma memento_get_inherited (key : string) (d : option V) (m : MemoryMemento.MemoryMemento V) :
  JsObject.isPrototypeName key = true ->
  JsMap.get key (MemoryMemento.data m) = None ->
  MemoryMemento.get inherited key d m = Some (inherited key).
Proof.
  intros Hkey Hown. unfold MemoryMemento.get, JsObject.lookup. now rewrite Hown, Hkey.
Qed.

(** X13. A setting of the workspace shadows the global one. The full name
    of the setting is none of the names of [Object.prototype]. After
    [update] has written a value that is not [null], [get] gives that value
    if the target was the workspace; for every other target, and for none,
    it gives the value only if the workspace holds no value of its own for
    the setting. After [update] has removed a setting, [get] falls back on
    the other store and then on the default. Settings with another full
    name are not touched. *)
Theorem workspace_settings_shadow_global_ones (s : option string) (k : string) (v : V)
        (d : option V) (t : option ConfigurationTarget) (st : Mementos V) :
  JsObject.isPrototypeName (fullSection s k) = false ->
  isNull v = false ->
  get isNull inherited s k d (update s k (Some v) t st)
  = (if isWorkspace t then Some v
     else if isValue isNull
               (MemoryMemento.get inherited (fullSection s k) None (workspaceMemento st))
          then MemoryMemento.get inherited (fullSection s k) None (workspaceMemento st)
          else Some v)
  /\ get isNull inherited s k d (update s k None t st)
     = (if isWorkspace t
        then if isValue isNull
                  (MemoryMemento.get inherited (fullSection s k) None (globalMemento st))
             then MemoryMemento.get inherited (fullSection s k) None (globalMemento st)
             else d
        else if isValue isNull
                  (MemoryMemento.get inherited (fullSection s k) None (workspaceMemento st))
             then MemoryMemento.get inherited (fullSection s k) None (workspaceMemento st)
             else d)
  /\ (forall s' k' x,
        fullSection s' k' <> fullSection s k ->
        get isNull inherited s' k' d (update s k x t st) = get isNull inherited s' k' d st).
Proof.
  intros Hname Hv. unfold get, update.
  split; [|split].
  - destruct (isWorkspace t); cbn [workspaceMemento globalMemento];
      rewrite !(memento_get_update _ _ _ _ _ Hname), String.eqb_refl; cbn [isValue];
      rewrite Hv; cbn [negb].
    + reflexivity.
    + now destruct (isValue isNull _).
  - destruct (isWorkspace t); cbn [workspaceMemento globalMemento];
      rewrite !(memento_get_update _ _ _ _ _ Hname), String.eqb_refl; cbn [isValue];
      reflexivity.
  - intros s' k' x Hne.
    assert (E : (fullSection s k =? fullSection s' k')%string = false).
    { apply String.eqb_neq. congruence. }
    destruct (isWorkspace t); cbn [workspaceMemento globalMemento];
      now rewrite !(memento_get_update _ _ _ _ _ Hname), E.
Qed.

Lemma get_assign (k key : string) (value : V) (acc : JsMap.Map V) :
  (k =? "__proto__")%string = false ->
  JsMap.get k (JsObject.assign key value acc)
  = if (key =? k)%string then Some value else JsMap.get k acc.
Proof.
  intros Hk. unfold JsObject.assign.
  destruct (String.eqb_spec key "__proto__") as [->|_]; [|apply map_get_set].
  rewrite String.eqb_sym. now rewrite Hk.
Qed.

Lemma addSettings_loop (memento : MemoryMemento.MemoryMemento V) (ks : list string)
      (k : string) (acc : JsMap.Map V) :
  (k =? "__proto__")%string = false ->
  JsMap.get k
    (fold_left (fun acc key =>
                  match MemoryMemento.get inherited key None memento with
                  | Some value =>
                      if negb (isNull value) then JsObject.assign key value acc else acc
                  | None => acc
                  end) ks acc)
  = match (if existsb (String.eqb k) ks
           then MemoryMemento.get inherited k None memento else None) with
    | Some value => if negb (isNull value) then Some value else JsMap.get k acc
    | None => JsMap.get k acc
    end.
Proof.
  intros Hk. revert acc.
  induction ks as [|k0 ks IH]; intros acc; cbn [fold_left existsb]; [reflexivity|].
  rewrite IH. clear IH.
  destruct (String.eqb_spec k k0) as [<-|Hk0]; cbn [orb].
  - destruct (MemoryMemento.get inherited k None memento) as [value|] eqn:Hvalue.
    + destruct (existsb (String.eqb k) ks).
      * destruct (negb (isNull value)); [reflexivity|]. reflexivity.
      * destruct (negb (isNull value)) eqn:Hn; [|reflexivity].
        now rewrite (get_assign _ _ _ _ Hk), String.eqb_refl.
    + now destruct (existsb (String.eqb k) ks).
  - assert (E : JsMap.get k
                  match MemoryMemento.get inherited k0 None memento with
                  | Some value =>
                      if negb (isNull value) then JsObject.assign k0 value acc else acc
                  | None => acc
                  end = JsMap.get k acc).
    { destruct (MemoryMemento.get inherited k0 None memento) as [value|]; [|reflexivity].
      destruct (negb (isNull value)); [|reflexivity].
      rewrite (get_assign _ _ _ _ Hk).
      destruct (String.eqb_spec k0 k) as [->|_]; [now elim Hk0 | reflexivity]. }
    now rewrite E.
Qed.

Lemma existsb_eqb_In (k : string) (ks : list string) :
  In k ks -> existsb (String.eqb k) ks = true.
Proof.
  intros H. apply existsb_exists. exists k. split; [exact H | apply String.eqb_refl].
Qed.

Lemma get_addSettings (memento : MemoryMemento.MemoryMemento V) (k : string)
      (acc : JsMap.Map V) :
  JsObject.isPrototypeName k = false ->
  JsMap.get k (addSettings isNull inherited memento acc)
  = match MemoryMemento.get inherited k None memento with
    | Some value => if negb (isNull value) then Some value else JsMap.get k acc
    | None => JsMap.get k acc
    end.
Proof.
  intros Hname. unfold addSettings.
  rewrite (addSettings_loop _ _ _ _ (not_inherited_not_proto _ Hname)).
  destruct (MemoryMemento.get inherited k None memento) as [value|] eqn:Hvalue.
  - rewrite existsb_eqb_In; [reflexivity|].
    unfold MemoryMemento.keys. apply (ownKeys_complete _ _ value).
    unfold MemoryMemento.get, JsObject.lookup in Hvalue. rewrite Hname in Hvalue.
    now destruct (JsMap.get k (MemoryMemento.data memento)).
  - now destruct (existsb _ _).
Qed.

(** X14. [getAllConfig] and [get] agree: for every key that is none of the
    names of [Object.prototype], the object that [getAllConfig] returns
    holds, as a property of its own, what [get] gives for that key on a
    configuration with no section and with no default, the setting of the
    workspace before the global one and [null] counted as no setting. Under
    a name of [Object.prototype] that no store holds, [get] gives the
    inherited value and the object holds nothing. *)
Theorem getAllConfig_agrees_with_get (k : string) (st : Mementos V) :
  (JsObject.isPrototypeName k = false ->
   JsMap.get k (getAllConfig isNull inherited st) = get isNull inherited None k None st)
  /\ (JsObject.isPrototypeName k = true ->
      isNull (inherited k) = false ->
      JsMap.get k (MemoryMemento.data (workspaceMemento st)) = None ->
      JsMap.get k (MemoryMemento.data (globalMemento st)) = None ->
      get isNull inherited None k None st = Some (inherited k)
      /\ JsMap.get k (getAllConfig isNull inherited st) = None).
Proof.
  split.
  - intros Hname. unfold getAllConfig, get. rewrite !(get_addSettings _ _ _ Hname).
    cbn [fullSection JsMap.get JsMap.empty]. unfold isValue.
    destruct (MemoryMemento.get inherited k None (workspaceMemento st)) as [w|];
      [destruct (negb (isNull w)); [reflexivity|]|];
      (destruct (MemoryMemento.get inherited k None (globalMemento st)) as [g|];
       [now destruct (negb (isNull g)) | reflexivity]).
  - intros Hname Hnull Hw Hg. split.
    + unfold get. cbn [fullSection].
      rewrite (memento_get_inherited _ _ _ Hname Hw). cbn [isValue]. now rewrite Hnull.
    + unfold getAllConfig.
      assert (Hno : forall memento acc,
                 JsMap.get k (MemoryMemento.data memento) = None ->
                 JsMap.get k acc = None ->
                 JsMap.get k (addSettings isNull inherited memento acc) = None).
      { intros memento acc Hown. unfold addSettings.
        assert (Hks : ~ In k (MemoryMemento.keys memento)).
        { intros Hin. unfold MemoryMemento.keys in Hin.
          apply ownKeys_sound in Hin. destruct Hin as (value & Hvalue). congruence. }
        revert acc. induction (MemoryMemento.keys memento) as [|k0 ks IH]; intros acc Hacc;
          cbn [fold_left]; [exact Hacc|].
        apply IH; [intros Hin; apply Hks; now right|].
        destruct (MemoryMemento.get inherited k0 None memento) as [value|]; [|exact Hacc].
        destruct (negb (isNull value)); [|exact Hacc].
        unfold JsObject.assign. destruct (k0 =? "__proto__")%string; [exact Hacc|].
        rewrite map_get_set. destruct (String.eqb_spec k0 k) as [->|_]; [|exact Hacc].
        elim Hks. now left. }
      apply Hno; [exact Hw|]. apply Hno; [exact Hg | reflexivity].
Qed.

End Configuration.

(** ** Lines of text *)
Section Lines.
Import JsArray.

Lemma joinLines_cons (x : string) (b : list string) :
  joinLines (x :: b) = (x ++ linesAfter b)%string.
Proof.
  revert x. induction b as [|y b IH]; intros x.
  - cbn. now rewrite string_app_nil_r.
  - change (joinLines (x :: y :: b)) with (x ++ NEWLINE ++ joinLines (y :: b))%string.
    rewrite IH. cbn [linesAfter]. reflexivity.
Qed.

(** The joined text around one of its lines. *)
Lemma joinLines_around (a b : list string) (x : string) :
  joinLines (a ++ x :: b) = (linesBefore a ++ x ++ linesAfter b)%string.
Proof.
  induction a as [|y a IH].
  - apply joinLines_cons.
  - cbn [app linesBefore].
    destruct (a ++ x :: b) as [|z rest] eqn:E; [now destruct a|].
    change (joinLines (y :: z :: rest)) with (y ++ NEWLINE ++ joinLines (z :: rest))%string.
    rewrite IH, !string_app_assoc. reflexivity.
Qed.

Lemma splitLines_not_empty (s : string) : splitLines s <> [].
Proof.
  induction s as [|c s IH]; cbn [splitLines]; [discriminate|].
  destruct (Ascii.eqb c Js.LF); [discriminate|].
  destruct (splitLines s); discriminate.
Qed.

Lemma joinLines_splitLines (s : string) : joinLines (splitLines s) = s.
Proof.
  induction s as [|c s IH]; [reflexivity|].
  cbn [splitLines]. destruct (Ascii.eqb_spec c Js.LF) as [->|_].
  - destruct (splitLines s) as [|piece rest] eqn:E; [now elim (splitLines_not_empty s)|].
    change (joinLines ("" :: piece :: rest))
      with ("" ++ NEWLINE ++ joinLines (piece :: rest))%string.
    rewrite IH. reflexivity.
  - destruct (splitLines s) as [|piece rest] eqn:E; [now elim (splitLines_not_empty s)|].
    rewrite !joinLines_cons in *. cbn [String.append]. now rewrite IH.
Qed.

Lemma split_at_line {A} (a : list A) (i : nat) (d : A) :
  i < length a -> a = firstn i a ++ nth i a d :: skipn (S i) a.
Proof.
  revert i. induction a as [|x a IH]; intros i Hi; cbn in Hi; [lia|].
  destruct i as [|i]; cbn; [reflexivity|]. f_equal. apply IH. lia.
Qed.

End Lines.

(** ** Text documents *)
Section TextDocuments.
Import JsArray TextDocument.

Lemma offsetLoop_counts (a : list string) : forall i line offset,
  offsetLoop a i line offset
  = (offset + Z.of_nat (String.length (linesBefore (firstn (Z.to_nat (line - i)) a))))%Z.
Proof.
  induction a as [|l a IH]; intros i line offset; cbn [offsetLoop].
  - rewrite firstn_nil. cbn. lia.
  - destruct (Z.ltb_spec i line) as [Hlt|Hge].
    + rewrite IH. replace (Z.to_nat (line - i)) with (S (Z.to_nat (line - (i + 1)))) by lia.
      cbn [firstn linesBefore]. rewrite !string_app_length. cbn [String.length NEWLINE]. lia.
    + replace (Z.to_nat (line - i)) with 0 by lia. cbn. lia.
Qed.

Lemma positionLoop_finds (a : list string) : forall m c i currentOffset,
  m < length a ->
  c <= String.length (nth m a EmptyString) ->
  positionLoop a i currentOffset
    (currentOffset + Z.of_nat (String.length (linesBefore (firstn m a))) + Z.of_nat c)
  = Some (Position.mkPosition (i + Z.of_nat m) (Z.of_nat c)).
Proof.
  induction a as [|l a IH]; intros m c i currentOffset Hm Hc; cbn in Hm; [lia|].
  cbn [positionLoop]. rewrite Z.gtb_ltb. destruct m as [|m].
  - cbn [firstn linesBefore String.length nth] in *.
    match goal with |- context [(?x <? ?y)%Z] => destruct (Z.ltb_spec x y) end; [|lia].
    f_equal. f_equal; lia.
  - cbn [firstn linesBefore nth] in *. rewrite !string_app_length. cbn [String.length NEWLINE].
    match goal with |- context [(?x <? ?y)%Z] => destruct (Z.ltb_spec x y) end; [lia|].
    match goal with
    | |- positionLoop a _ ?cur ?o = _ =>
        replace o with (cur + Z.of_nat (String.length (linesBefore (firstn m a)))
                        + Z.of_nat c)%Z by lia
    end.
    rewrite IH by lia. f_equal. f_equal; lia.
Qed.

Lemma positionLoop_place (a : list string) : forall i currentOffset offset p,
  (currentOffset <= offset)%Z ->
  positionLoop a i currentOffset offset = Some p ->
  exists m c,
    p = Position.mkPosition (i + Z.of_nat m) (Z.of_nat c)
    /\ m < length a
    /\ c <= String.length (nth m a EmptyString)
    /\ offset = (currentOffset + Z.of_nat (String.length (linesBefore (firstn m a)))
                 + Z.of_nat c)%Z.
Proof.
  induction a as [|l a IH]; intros i currentOffset offset p Hle H; cbn [positionLoop] in H;
    [discriminate|].
  rewrite Z.gtb_ltb in H.
  destruct (Z.ltb_spec offset (currentOffset + (Z.of_nat (String.length l) + 1))) as [Hlt|Hge].
  - inversion H; subst p. exists 0, (Z.to_nat (offset - currentOffset)).
    cbn [firstn linesBefore String.length nth length].
    repeat split; try lia. f_equal; lia.
  - apply IH in H; [|lia]. destruct H as (m & c & -> & Hm & Hc & Ho).
    exists (S m), c. cbn [firstn linesBefore nth length].
    rewrite !string_app_length. cbn [String.length NEWLINE].
    repeat split; try lia. f_equal; lia.
Qed.

Lemma positionLoop_past_the_end (a : list string) : forall i currentOffset offset,
  (currentOffset + Z.of_nat (String.length (linesBefore a)) <= offset)%Z ->
  positionLoop a i currentOffset offset = None.
Proof.
  induction a as [|l a IH]; intros i currentOffset offset H; cbn [positionLoop]; [reflexivity|].
  cbn [linesBefore] in H. rewrite !string_app_length in H. cbn [String.length NEWLINE] in H.
  rewrite Z.gtb_ltb.
  destruct (Z.ltb_spec offset (currentOffset + (Z.of_nat (String.length l) + 1))); [lia|].
  apply IH. lia.
Qed.

Lemma positionLoop_returns (a : list string) : forall i currentOffset offset,
  (currentOffset <= offset)%Z ->
  (offset < currentOffset + Z.of_nat (String.length (linesBefore a)))%Z ->
  exists p, positionLoop a i currentOffset offset = Some p.
Proof.
  induction a as [|l a IH]; intros i currentOffset offset Hle H; cbn [positionLoop].
  - cbn in H. lia.
  - cbn [linesBefore] in H. rewrite !string_app_length in H. cbn [String.length NEWLINE] in H.
    rewrite Z.gtb_ltb.
    destruct (Z.ltb_spec offset (currentOffset + (Z.of_nat (String.length l) + 1)));
      [eauto|].
    apply IH; lia.
Qed.

Lemma linesBefore_length (a : list string) :
  a <> [] -> String.length (linesBefore a) = S (String.length (joinLines a)).
Proof.
  induction a as [|x a IH]; intros Ha; [now elim Ha|].
  destruct a as [|y a].
  - cbn. rewrite string_app_length. cbn. lia.
  - change (joinLines (x :: y :: a)) with (x ++ NEWLINE ++ joinLines (y :: a))%string.
    cbn [linesBefore] in *. rewrite !string_app_length. rewrite !string_app_length in IH.
    rewrite IH by discriminate. cbn [String.length NEWLINE]. lia.
Qed.

Lemma linesBefore_firstn_le (a : list string) (m : nat) :
  String.length (linesBefore (firstn m a)) <= String.length (linesBefore a).
Proof.
  revert m. induction a as [|x a IH]; intros m; [now rewrite firstn_nil|].
  destruct m as [|m]; cbn [firstn linesBefore]; [cbn; lia|].
  rewrite !string_app_length. specialize (IH m). lia.
Qed.

Lemma linesBefore_place_lt (a : list string) (m c : nat) :
  m < length a -> c <= String.length (nth m a EmptyString) ->
  String.length (linesBefore (firstn m a)) + c < String.length (linesBefore a).
Proof.
  revert m. induction a as [|x a IH]; intros m Hm Hc; cbn in Hm; [lia|].
  destruct m as [|m]; cbn [firstn linesBefore nth] in *.
  - rewrite !string_app_length. cbn. lia.
  - rewrite !string_app_length. specialize (IH m). lia.
Qed.

Lemma isPlace_true (p : Position.Position) (doc : TextDocument) :
  isPlace p doc = true
  <-> exists m c,
        p = Position.mkPosition (Z.of_nat m) (Z.of_nat c)
        /\ m < length (lines doc)
        /\ c <= String.length (nth m (lines doc) EmptyString).
Proof.
  unfold isPlace, lineCount. rewrite !andb_true_iff, !Z.leb_le, Z.ltb_lt. split.
  - intros [[[H1 H2] H3] H4].
    exists (Z.to_nat (Position.line p)), (Z.to_nat (Position.character p)).
    destruct p as [l ch]; cbn [Position.line Position.character] in *.
    repeat split; try lia. f_equal; lia.
  - intros (m & c & -> & Hm & Hc). cbn [Position.line Position.character].
    rewrite Nat2Z.id. lia.
Qed.

Lemma offsetAt_place (doc : TextDocument) (m c : nat) :
  offsetAt (Position.mkPosition (Z.of_nat m) (Z.of_nat c)) doc
  = Z.of_nat (String.length (linesBefore (firstn m (lines doc))) + c).
Proof.
  unfold offsetAt. cbn [Position.line Position.character].
  rewrite offsetLoop_counts. rewrite Z.sub_0_r, Nat2Z.id. lia.
Qed.

(** X15. Offsets and positions convert both ways. For a position that
    names a place of the document, [offsetAt] gives an offset within the
    content and [positionAt] takes it back to the position; for an offset
    from zero to the length of the content, [positionAt] gives a place of
    the document and [offsetAt] takes it back to the offset. *)
Theorem offsets_and_positions_convert_both_ways (doc : TextDocument) :
  (forall p,
     isPlace p doc = true ->
     (0 <= offsetAt p doc <= Z.of_nat (String.length (content doc)))%Z
     /\ positionAt (offsetAt p doc) doc = p)
  /\ (forall offset,
        (0 <= offset <= Z.of_nat (String.length (content doc)))%Z ->
        isPlace (positionAt offset doc) doc = true
        /\ offsetAt (positionAt offset doc) doc = offset).
Proof.
  assert (Hlen : String.length (linesBefore (lines doc)) = S (String.length (content doc))).
  { rewrite linesBefore_length by apply splitLines_not_empty.
    unfold lines. now rewrite joinLines_splitLines. }
  split.
  - intros p Hp. apply isPlace_true in Hp. destruct Hp as (m & c & -> & Hm & Hc).
    rewrite offsetAt_place. split.
    + pose proof (linesBefore_place_lt _ _ _ Hm Hc). lia.
    + unfold positionAt.
      replace (Z.of_nat (String.length (linesBefore (firstn m (lines doc))) + c))
        with (0 + Z.of_nat (String.length (linesBefore (firstn m (lines doc)))) + Z.of_nat c)%Z
        by lia.
      now rewrite positionLoop_finds.
  - intros offset Ho. unfold positionAt.
    destruct (positionLoop_returns (lines doc) 0 0 offset) as [p Hp]; [lia | lia |].
    rewrite Hp. apply positionLoop_place in Hp; [|lia].
    destruct Hp as (m & c & -> & Hm & Hc & E). cbn [Z.add] in *. split.
    + apply isPlace_true. eauto.
    + rewrite offsetAt_place. lia.
Qed.

(** X16. The offset of a place counts the text before it: the content up
    to the offset is the lines before the line of the position, each with
    its line feed, and the characters of that line before the column; the
    content from the offset on is the rest of the line and the lines after
    it. *)
Theorem offsetAt_counts_the_text_before_the_position (doc : TextDocument)
        (p : Position.Position) :
  isPlace p doc = true ->
  Js.take (Z.to_nat (offsetAt p doc)) (content doc)
  = (linesBefore (firstn (Z.to_nat (Position.line p)) (lines doc))
     ++ Js.take (Z.to_nat (Position.character p))
                (nth (Z.to_nat (Position.line p)) (lines doc) EmptyString))%string
  /\ Js.sliceFrom (Z.to_nat (offsetAt p doc)) (content doc)
     = (Js.sliceFrom (Z.to_nat (Position.character p))
                     (nth (Z.to_nat (Position.line p)) (lines doc) EmptyString)
        ++ linesAfter (skipn (S (Z.to_nat (Position.line p))) (lines doc)))%string.
Proof.
  intros Hp. apply isPlace_true in Hp. destruct Hp as (m & c & -> & Hm & Hc).
  rewrite offsetAt_place. cbn [Position.line Position.character]. rewrite !Nat2Z.id.
  assert (E : content doc
              = (linesBefore (firstn m (lines doc))
                 ++ nth m (lines doc) EmptyString
                 ++ linesAfter (skipn (S m) (lines doc)))%string).
  { rewrite <- joinLines_around, <- split_at_line by exact Hm.
    unfold lines. now rewrite joinLines_splitLines. }
  split.
  - rewrite E at 1. rewrite take_app_length. f_equal. now apply take_app_within.
  - rewrite E at 1. rewrite sliceFrom_app_length. now apply sliceFrom_app_within.
Qed.

End TextDocuments.

(** ** Applying the edits of a file *)
Section ApplyingEdits.
Import JsArray WorkspaceAPI.

Lemma joinLines_at (a : list string) (m : nat) :
  m < length a ->
  joinLines a
  = (linesBefore (firstn m a) ++ nth m a EmptyString ++ linesAfter (skipn (S m) a))%string.
Proof. intros Hm. now rewrite <- joinLines_around, <- split_at_line. Qed.

Lemma take_joinLines (a : list string) (m c : nat) :
  m < length a -> c <= String.length (nth m a EmptyString) ->
  Js.take (String.length (linesBefore (firstn m a)) + c) (joinLines a)
  = (linesBefore (firstn m a) ++ Js.take c (nth m a EmptyString))%string.
Proof.
  intros Hm Hc. rewrite (joinLines_at a m Hm) at 1.
  rewrite take_app_length. f_equal. now apply take_app_within.
Qed.

Lemma sliceFrom_joinLines (a : list string) (m c : nat) :
  m < length a -> c <= String.length (nth m a EmptyString) ->
  Js.sliceFrom (String.length (linesBefore (firstn m a)) + c) (joinLines a)
  = (Js.sliceFrom c (nth m a EmptyString) ++ linesAfter (skipn (S m) a))%string.
Proof.
  intros Hm Hc. rewrite (joinLines_at a m Hm) at 1.
  rewrite sliceFrom_app_length. now apply sliceFrom_app_within.
Qed.

Lemma setAt_within (a : list string) (i : nat) (v : string) :
  i < length a -> setAt i v a = firstn i a ++ v :: skipn (S i) a.
Proof.
  revert i. induction a as [|x a IH]; intros i Hi; cbn in Hi; [lia|].
  destruct i as [|i]; cbn; [reflexivity|]. f_equal. apply IH. lia.
Qed.

Lemma at_within (a : list string) (i : nat) :
  i < length a -> orEmpty (at_ (Z.of_nat i) a) = nth i a EmptyString.
Proof.
  intros Hi. unfold at_.
  destruct (Z.ltb_spec (Z.of_nat i) 0); [lia|].
  rewrite Nat2Z.id, (nth_error_nth' _ EmptyString Hi). reflexivity.
Qed.

Lemma applyTextEdit_within (a : list string) (i c j d : nat) (t : string) :
  i <= j -> j < length a ->
  applyTextEdit a (editAt i c j d t)
  = firstn i a
      ++ (Js.take c (nth i a EmptyString) ++ t ++ Js.sliceFrom d (nth j a EmptyString))%string
      :: skipn (S j) a.
Proof.
  intros Hij Hj. unfold applyTextEdit, editAt.
  cbn [TextEdit.range TextEdit.newText Range.start Range.end_ Position.line Position.character].
  unfold substringTo, substringFrom. rewrite !Nat2Z.id.
  destruct (Z.eqb_spec (Z.of_nat i) (Z.of_nat j)) as [E|E].
  - apply Nat2Z.inj in E. subst j. rewrite at_within by lia.
    unfold assign. destruct (Z.ltb_spec (Z.of_nat i) 0); [lia|].
    rewrite Nat2Z.id. now apply setAt_within.
  - rewrite !at_within by lia. unfold splice, relativeIndex.
    destruct (Z.ltb_spec (Z.of_nat i) 0); [lia|].
    rewrite Nat2Z.id, Nat.min_l by lia. cbn [app]. f_equal. f_equal. f_equal. lia.
Qed.

Lemma join_applyTextEdit (a : list string) (i c j d : nat) (t : string) :
  i <= j -> j < length a ->
  c <= String.length (nth i a EmptyString) ->
  d <= String.length (nth j a EmptyString) ->
  joinLines (applyTextEdit a (editAt i c j d t))
  = replaceBetween (Z.of_nat (String.length (linesBefore (firstn i a)) + c))
                   (Z.of_nat (String.length (linesBefore (firstn j a)) + d))
                   t (joinLines a).
Proof.
  intros Hij Hj Hc Hd. rewrite applyTextEdit_within by assumption.
  rewrite joinLines_around. unfold replaceBetween. rewrite !Nat2Z.id.
  rewrite take_joinLines, sliceFrom_joinLines by (assumption || lia).
  now rewrite !string_app_assoc.
Qed.

Lemma sameUpTo_firstn (a0 a : list string) (fi fc k : nat) :
  sameUpTo a0 a fi fc -> k <= fi -> firstn k a = firstn k a0.
Proof.
  intros (Hf & _) Hk.
  rewrite <- (Nat.min_l k fi Hk), <- !firstn_firstn. now rewrite Hf.
Qed.

Lemma sameUpTo_nth (a0 a : list string) (fi fc k : nat) :
  sameUpTo a0 a fi fc -> k < fi -> nth k a EmptyString = nth k a0 EmptyString.
Proof.
  intros (Hf & _) Hk.
  assert (E : forall l : list string, nth k l EmptyString = nth k (firstn fi l) EmptyString).
  { intros l. rewrite nth_firstn. apply Nat.ltb_lt in Hk. now rewrite Hk. }
  now rewrite (E a), (E a0), Hf.
Qed.

Lemma sameUpTo_take (a0 a : list string) (fi fc k x : nat) :
  sameUpTo a0 a fi fc ->
  k < fi \/ (k = fi /\ x <= fc) ->
  Js.take x (nth k a EmptyString) = Js.take x (nth k a0 EmptyString).
Proof.
  intros H [Hk|[-> Hx]].
  - now rewrite (sameUpTo_nth _ _ _ _ _ H Hk).
  - destruct H as (_ & _ & _ & Ht & _).
    rewrite <- (take_take (nth fi a EmptyString) x fc Hx).
    rewrite <- (take_take (nth fi a0 EmptyString) x fc Hx). now rewrite Ht.
Qed.

Lemma sameUpTo_within (a0 a : list string) (fi fc k x : nat) :
  sameUpTo a0 a fi fc ->
  k < fi \/ (k = fi /\ x <= fc) ->
  x <= String.length (nth k a0 EmptyString) ->
  x <= String.length (nth k a EmptyString).
Proof.
  intros H [Hk|[-> Hx]] Hle.
  - now rewrite (sameUpTo_nth _ _ _ _ _ H Hk).
  - destruct H as (_ & _ & _ & _ & Hc & _). lia.
Qed.

Lemma applyTextEdit_step (a0 a : list string) (fi fc i c j d : nat) (t : string) :
  sameUpTo a0 a fi fc ->
  i < j \/ (i = j /\ c <= d) ->
  j < fi \/ (j = fi /\ d <= fc) ->
  c <= String.length (nth i a0 EmptyString) ->
  d <= String.length (nth j a0 EmptyString) ->
  joinLines (applyTextEdit a (editAt i c j d t))
  = replaceBetween (Z.of_nat (String.length (linesBefore (firstn i a0)) + c))
                   (Z.of_nat (String.length (linesBefore (firstn j a0)) + d))
                   t (joinLines a)
  /\ sameUpTo a0 (applyTextEdit a (editAt i c j d t)) i c.
Proof.
  intros H Hij Hjf Hc Hd.
  assert (Hi : i < fi \/ (i = fi /\ c <= fc)) by lia.
  pose proof H as (Hf & Hfa & Hfa0 & Ht & Hfc & Hfc0).
  assert (Hja : j < length a) by lia.
  assert (Hca : c <= String.length (nth i a EmptyString))
    by (apply (sameUpTo_within a0 a fi fc); assumption).
  assert (Hda : d <= String.length (nth j a EmptyString))
    by (apply (sameUpTo_within a0 a fi fc); assumption).
  split.
  - rewrite join_applyTextEdit by (assumption || lia).
    rewrite <- (sameUpTo_firstn a0 a fi fc i H) by lia.
    rewrite <- (sameUpTo_firstn a0 a fi fc j H) by lia. reflexivity.
  - rewrite applyTextEdit_within by lia.
    assert (Hlen : length (firstn i a) = i) by (apply firstn_length_le; lia).
    unfold sameUpTo. repeat split.
    + rewrite firstn_app, Hlen, Nat.sub_diag. cbn [firstn].
      rewrite app_nil_r, firstn_firstn, Nat.min_id.
      apply (sameUpTo_firstn a0 a fi fc); [exact H | lia].
    + rewrite length_app, Hlen. cbn [length]. lia.
    + lia.
    + rewrite <- Hlen at 1. rewrite nth_middle.
      rewrite take_app_within by (rewrite take_length_le; lia).
      rewrite take_take by lia.
      apply (sameUpTo_take a0 a fi fc); assumption.
    + rewrite <- Hlen at 1. rewrite nth_middle, string_app_length, take_length_le; lia.
    + exact Hc.
Qed.

Lemma isEditOf_true (doc : TextDocument.TextDocument) (e : TextEdit.TextEdit) :
  isEditOf doc e = true ->
  exists i c j d,
    e = editAt i c j d (TextEdit.newText e)
    /\ j < length (TextDocument.lines doc)
    /\ (i < j \/ (i = j /\ c <= d))
    /\ c <= String.length (nth i (TextDocument.lines doc) EmptyString)
    /\ d <= String.length (nth j (TextDocument.lines doc) EmptyString).
Proof.
  unfold isEditOf. rewrite !andb_true_iff. intros [[Hs He] Ho].
  apply isPlace_true in Hs, He.
  destruct Hs as (i & c & Es & Hi & Hc). destruct He as (j & d & Ee & Hj & Hd).
  exists i, c, j, d. unfold Range.ordered in Ho. rewrite Es, Ee in Ho.
  apply isBeforeOrEqual_le in Ho. cbn [Position.line Position.character] in Ho.
  split; [|repeat split; try assumption; lia].
  destruct e as [[s t] x]. cbn [TextEdit.range Range.start Range.end_ TextEdit.newText] in *.
  unfold editAt. now rewrite Es, Ee.
Qed.

Lemma spliceAt_editAt (doc : TextDocument.TextDocument) (text : string)
      (i c j d : nat) (t : string) :
  spliceAt doc text (editAt i c j d t)
  = replaceBetween
      (Z.of_nat (String.length (linesBefore (firstn i (TextDocument.lines doc))) + c))
      (Z.of_nat (String.length (linesBefore (firstn j (TextDocument.lines doc))) + d))
      t text.
Proof.
  unfold spliceAt, editAt.
  cbn [TextEdit.range TextEdit.newText Range.start Range.end_].
  now rewrite !offsetAt_place.
Qed.

Lemma apply_edits_that_are_apart (doc : TextDocument.TextDocument) :
  forall (edits : list TextEdit.TextEdit) (a : list string) (fi fc : nat),
    sameUpTo (TextDocument.lines doc) a fi fc ->
    forallb (isEditOf doc) edits = true ->
    apart edits = true ->
    match edits with
    | [] => True
    | e :: _ =>
        Position.isBeforeOrEqual (Range.end_ (TextEdit.range e))
                                 (Position.mkPosition (Z.of_nat fi) (Z.of_nat fc)) = true
    end ->
    joinLines (fold_left applyTextEdit edits a) = fold_left (spliceAt doc) edits (joinLines a).
Proof.
  induction edits as [|e edits IH]; intros a fi fc Hsame Hall Hapart Hfront; [reflexivity|].
  cbn [forallb] in Hall. apply andb_prop in Hall. destruct Hall as [He Hall].
  cbn [apart] in Hapart. apply andb_prop in Hapart. destruct Hapart as [Hnext Hapart].
  destruct (isEditOf_true doc e He) as (i & c & j & d & Ee & Hj & Hij & Hc & Hd).
  rewrite Ee in Hfront, Hnext |- *. set (t := TextEdit.newText e) in *. clearbody t.
  unfold editAt in Hfront at 1. cbn [TextEdit.range Range.end_] in Hfront.
  apply isBeforeOrEqual_le in Hfront. cbn [Position.line Position.character] in Hfront.
  destruct (applyTextEdit_step (TextDocument.lines doc) a fi fc i c j d t)
    as [Hjoin Hsame']; try assumption; try lia.
  cbn [fold_left]. rewrite spliceAt_editAt, <- Hjoin.
  apply (IH _ i c); try assumption.
  destruct edits as [|e' edits]; [exact I|].
  unfold editAt in Hnext. cbn [TextEdit.range Range.start] in Hnext. exact Hnext.
Qed.

Lemma insertSorted_In {A} (compare : A -> A -> Z) (x y : A) (l : list A) :
  In y (insertSorted compare x l) <-> y = x \/ In y l.
Proof.
  induction l as [|z l IH]; cbn [insertSorted In].
  - intuition.
  - destruct (compare x z <=? 0)%Z; cbn [In]; [intuition | rewrite IH; intuition].
Qed.

Lemma sort_In {A} (compare : A -> A -> Z) (y : A) (l : list A) :
  In y (sort compare l) <-> In y l.
Proof.
  induction l as [|x l IH]; cbn [sort fold_right In]; [tauto|].
  fold (sort compare l). rewrite insertSorted_In, IH. intuition.
Qed.

(** X17. Edits that lie in the document and do not overlap are applied at
    the places they name in the document as it was: the new content is the
    old one with the range of each edit, at the offsets that the document
    gives its two ends, replaced by the new text of the edit, the edits
    taken from the last place to the first. *)
Theorem edits_are_applied_at_their_places (doc : TextDocument.TextDocument)
        (edits : list TextEdit.TextEdit) :
  forallb (isEditOf doc) edits = true ->
  apart (sort compareEdits edits) = true ->
  applyTextEdits (TextDocument.content doc) edits
  = fold_left (spliceAt doc) (sort compareEdits edits) (TextDocument.content doc).
Proof.
  intros Hall Hapart. unfold applyTextEdits.
  assert (Hsorted : forallb (isEditOf doc) (sort compareEdits edits) = true).
  { apply forallb_forall. intros e He. apply sort_In in He.
    revert e He. now apply forallb_forall. }
  destruct (sort compareEdits edits) as [|e rest] eqn:E;
    [cbn [fold_left]; apply joinLines_splitLines|].
  pose proof Hsorted as Hhead. cbn [forallb] in Hhead. apply andb_prop in Hhead.
  destruct Hhead as [He _].
  destruct (isEditOf_true doc e He) as (i & c & j & d & Ee & Hj & Hij & Hc & Hd).
  fold (TextDocument.lines doc).
  rewrite (apply_edits_that_are_apart doc (e :: rest) (TextDocument.lines doc) j d);
    try assumption.
  - unfold TextDocument.lines. now rewrite joinLines_splitLines.
  - unfold sameUpTo. repeat split; assumption || reflexivity.
  - rewrite Ee. unfold editAt. cbn [TextEdit.range Range.end_].
    apply isBeforeOrEqual_le. cbn [Position.line Position.character]. lia.
Qed.

Lemma replaceBetween_twice (o : nat) (a b text : string) :
  o <= String.length text ->
  replaceBetween (Z.of_nat o) (Z.of_nat o) b (replaceBetween (Z.of_nat o) (Z.of_nat o) a text)
  = replaceBetween (Z.of_nat o) (Z.of_nat o) (b ++ a)%string text.
Proof.
  intros Ho. unfold replaceBetween. rewrite !Nat2Z.id.
  assert (Hlen : String.length (Js.take o text) = o) by now apply take_length_le.
  rewrite take_app_within by lia. rewrite take_take by lia.
  replace (Js.sliceFrom o (Js.take o text ++ a ++ Js.sliceFrom o text)%string)
    with (a ++ Js.sliceFrom o text)%string.
  - now rewrite !string_app_assoc.
  - rewrite <- Hlen at 2. rewrite <- (Nat.add_0_r (String.length (Js.take o text))).
    now rewrite sliceFrom_app_length.
Qed.

(** X18. Two insertions at one place of the document come out in the
    reverse of the order in which they were added: the text of the
    insertion that was added last stands first. *)
Theorem insertions_at_one_place_come_out_reversed (doc : TextDocument.TextDocument)
        (position : Position.Position) (first second : string) :
  TextDocument.isPlace position doc = true ->
  applyTextEdits (TextDocument.content doc)
                 [TextEdit.insert position first; TextEdit.insert position second]
  = replaceBetween (TextDocument.offsetAt position doc) (TextDocument.offsetAt position doc)
                   (second ++ first)%string (TextDocument.content doc).
Proof.
  intros Hp.
  destruct (proj1 (isPlace_true position doc) Hp) as (m & c & -> & Hm & Hc).
  unfold applyTextEdits.
  assert (Hsort : sort compareEdits
                    [TextEdit.insert (Position.mkPosition (Z.of_nat m) (Z.of_nat c)) first;
                     TextEdit.insert (Position.mkPosition (Z.of_nat m) (Z.of_nat c)) second]
                  = [editAt m c m c first; editAt m c m c second]).
  { cbn [sort fold_right insertSorted]. unfold compareEdits, TextEdit.insert.
    cbn [TextEdit.range Range.start Position.line Position.character].
    rewrite !Z.sub_diag. reflexivity. }
  rewrite Hsort. fold (TextDocument.lines doc).
  rewrite (apply_edits_that_are_apart doc _ (TextDocument.lines doc) m c).
  - cbn [fold_left]. rewrite !spliceAt_editAt.
    replace (joinLines (TextDocument.lines doc)) with (TextDocument.content doc)
      by (symmetry; apply joinLines_splitLines).
    rewrite offsetAt_place. apply replaceBetween_twice.
    pose proof (linesBefore_place_lt _ _ _ Hm Hc) as Hlt.
    rewrite (linesBefore_length (TextDocument.lines doc)) in Hlt
      by apply splitLines_not_empty.
    replace (joinLines (TextDocument.lines doc)) with (TextDocument.content doc) in Hlt
      by (symmetry; apply joinLines_splitLines).
    lia.
  - unfold sameUpTo. repeat split; assumption || reflexivity.
  - assert (He : forall t, isEditOf doc (editAt m c m c t) = true).
    { intros t. unfold isEditOf, editAt, Range.ordered.
      cbn [TextEdit.range Range.start Range.end_].
      rewrite Hp. cbn [andb]. apply isBeforeOrEqual_le. lia. }
    cbn [forallb]. now rewrite !He.
  - cbn [apart]. unfold editAt. cbn [TextEdit.range Range.start Range.end_ andb].
    rewrite andb_true_r. apply isBeforeOrEqual_le. lia.
  - unfold editAt. cbn [TextEdit.range Range.end_]. apply isBeforeOrEqual_le. lia.
Qed.

(** The edit [x] does not start before the edit [y]. *)
Lemma compareEdits_le (x y : TextEdit.TextEdit) :
  (compareEdits x y <= 0)%Z
  <-> Position.isBeforeOrEqual (Range.start (TextEdit.range y))
                               (Range.start (TextEdit.range x)) = true.
Proof.
  rewrite isBeforeOrEqual_le. unfold compareEdits.
  destruct (Z.eqb_spec (Position.line (Range.start (TextEdit.range y))
                        - Position.line (Range.start (TextEdit.range x))) 0);
    cbn [negb]; lia.
Qed.

Lemma insertSorted_Permutation {A} (compare : A -> A -> Z) (x : A) (l : list A) :
  Permutation (insertSorted compare x l) (x :: l).
Proof.
  induction l as [|y l IH]; cbn [insertSorted]; [reflexivity|].
  destruct (compare x y <=? 0)%Z; [reflexivity|].
  rewrite IH. apply perm_swap.
Qed.

Lemma sort_Permutation {A} (compare : A -> A -> Z) (l : list A) :
  Permutation (sort compare l) l.
Proof.
  induction l as [|x l IH]; cbn [sort fold_right]; [reflexivity|].
  fold (sort compare l). rewrite insertSorted_Permutation. now constructor.
Qed.

Lemma insertSorted_sorted (x : TextEdit.TextEdit) (l : list TextEdit.TextEdit) :
  StronglySorted (fun a b => (compareEdits a b <= 0)%Z) l ->
  StronglySorted (fun a b => (compareEdits a b <= 0)%Z) (insertSorted compareEdits x l).
Proof.
  induction l as [|y l IH]; intros Hl; cbn [insertSorted].
  - repeat constructor.
  - inversion Hl as [|y' l' Hl' Hy]; subst.
    destruct (Z.leb_spec (compareEdits x y) 0) as [Hxy|Hxy].
    + constructor; [exact Hl|]. constructor; [exact Hxy|].
      apply Forall_forall. intros z Hz.
      rewrite Forall_forall in Hy. specialize (Hy z Hz).
      rewrite compareEdits_le in *. rewrite isBeforeOrEqual_le in *. lia.
    + constructor; [now apply IH|].
      apply Forall_forall. intros z Hz. apply insertSorted_In in Hz.
      destruct Hz as [->|Hz].
      * rewrite compareEdits_le, isBeforeOrEqual_le.
        assert (Hn : ~ (compareEdits x y <= 0)%Z) by lia.
        rewrite compareEdits_le, isBeforeOrEqual_le in Hn. lia.
      * rewrite Forall_forall in Hy. now apply Hy.
Qed.

Lemma sort_sorted (l : list TextEdit.TextEdit) :
  StronglySorted (fun a b => (compareEdits a b <= 0)%Z) (sort compareEdits l).
Proof.
  induction l as [|x l IH]; cbn [sort fold_right]; [constructor|].
  now apply insertSorted_sorted.
Qed.

Lemma sorted_lists_are_equal (l1 : list TextEdit.TextEdit) : forall l2,
  StronglySorted (fun a b => (compareEdits a b <= 0)%Z) l1 ->
  StronglySorted (fun a b => (compareEdits a b <= 0)%Z) l2 ->
  Permutation l1 l2 ->
  NoDup (map (fun e => Range.start (TextEdit.range e)) l1) ->
  l1 = l2.
Proof.
  induction l1 as [|x l1 IH]; intros l2 H1 H2 Hp Hn.
  - apply Permutation_nil in Hp. now subst.
  - destruct l2 as [|y l2]; [apply Permutation_sym, Permutation_nil in Hp; discriminate|].
    inversion H1 as [|? ? H1' Hx]; subst. inversion H2 as [|? ? H2' Hy]; subst.
    inversion Hn as [|? ? Hnx Hn']; subst.
    rewrite Forall_forall in Hx, Hy.
    assert (E : x = y).
    { assert (Hxin : In x (y :: l2)) by (apply (Permutation_in _ Hp); now left).
      destruct Hxin as [->|Hxin]; [reflexivity|].
      assert (Hyin : In y (x :: l1))
        by (apply (Permutation_in _ (Permutation_sym Hp)); now left).
      destruct Hyin as [->|Hyin]; [reflexivity|].
      pose proof (Hx y Hyin) as Hxy. pose proof (Hy x Hxin) as Hyx.
      rewrite compareEdits_le, isBeforeOrEqual_le in Hxy, Hyx.
      elim Hnx. apply in_map_iff. exists y. split; [|exact Hyin].
      apply position_eq; lia. }
    subst y. f_equal. apply IH; try assumption.
    now apply Permutation_cons_inv in Hp.
Qed.

(** X19. When no two edits start at the same position, the new content
    does not depend on the order in which the edits were added. *)
Theorem order_of_adding_edits_does_not_matter (content : string)
        (edits edits' : list TextEdit.TextEdit) :
  Permutation edits edits' ->
  NoDup (map (fun e => Range.start (TextEdit.range e)) edits) ->
  applyTextEdits content edits = applyTextEdits content edits'.
Proof.
  intros Hp Hn. unfold applyTextEdits.
  replace (sort compareEdits edits') with (sort compareEdits edits); [reflexivity|].
  apply sorted_lists_are_equal; try apply sort_sorted.
  - now rewrite !sort_Permutation.
  - apply (Permutation_NoDup (l := map (fun e => Range.start (TextEdit.range e)) edits));
      [|exact Hn].
    apply Permutation_map, Permutation_sym, sort_Permutation.
Qed.

(** X20. The lines of a document hold its content: joined with line
    feeds they give the content back, there is always one line at least,
    and the text of a range that goes from the first line to the last is
    the whole content, whatever the columns of the range. *)
Theorem lines_hold_the_content (doc : TextDocument.TextDocument) (c d : Z) :
  joinLines (TextDocument.lines doc) = TextDocument.content doc
  /\ 0 < TextDocument.lineCount doc
  /\ TextDocument.getText
       (Some (Range.ofNumbers 0 c (Z.of_nat (TextDocument.lineCount doc) - 1) d)) doc
     = TextDocument.getText None doc.
Proof.
  assert (Hn : 0 < TextDocument.lineCount doc).
  { unfold TextDocument.lineCount, TextDocument.lines.
    pose proof (splitLines_not_empty (TextDocument.content doc)).
    destruct (splitLines (TextDocument.content doc)); [congruence | cbn; lia]. }
  split; [apply joinLines_splitLines|]. split; [exact Hn|].
  unfold TextDocument.getText, Range.ofNumbers, slice, relativeIndex.
  cbn [Range.start Range.end_ Position.line]. fold (TextDocument.lineCount doc).
  cbn [Z.ltb Z.compare Z.to_nat]. rewrite Nat.min_0_l. cbn [skipn]. rewrite Nat.sub_0_r.
  destruct (Z.ltb_spec (Z.of_nat (TextDocument.lineCount doc) - 1 + 1) 0); [lia|].
  rewrite Nat.min_r by lia. unfold TextDocument.lineCount. rewrite firstn_all.
  apply joinLines_splitLines.
Qed.

End ApplyingEdits.

(** ** Messages of the command line interface *)
Section WelcomeMessages.
Import WelcomeMessage.

Lemma push_each {A B} (f : A -> B) (l : list A) (acc : list B) :
  fold_left (fun acc x => acc ++ [f x]) l acc = acc ++ map f l.
Proof.
  revert acc. induction l as [|x l IH]; intros acc; cbn [fold_left map].
  - now rewrite app_nil_r.
  - rewrite IH, <- app_assoc. reflexivity.
Qed.

(** X21. For a valid configuration there are no instructions. For one
    that is not valid the instructions are: the line that names the
    configuration error, ending in a line feed, and the line [Errors
    found:]; then every error of the validation once, in their order, each
    on a line of its own after two spaces, a bullet and a space (no such
    line if the validation has no errors); then the five lines that tell
    how to fix the configuration, the third of which names the path of the
    configuration file. So the error number [i] is on line [2 + i], and
    there are seven lines more than errors. *)
Theorem instructions_list_every_error (configPath : string) (validation : ValidationResult) :
  (valid validation = true -> createConfigErrorInstructions configPath validation = [])
  /\ (valid validation = false ->
      let errs := match errors validation with Some errs => errs | None => [] end in
      createConfigErrorInstructions configPath validation
      = [("Configuration Error: config.json is incomplete or invalid." ++ JsArray.NEWLINE)%string;
         "Errors found:"]
          ++ map (fun error => ("  " ++ BULLET ++ " " ++ error)%string) errs
          ++ [(JsArray.NEWLINE ++ "To fix this issue:")%string;
              "  1. Run: kilocode config";
              ("  2. Or edit: " ++ configPath)%string;
              JsArray.NEWLINE;
              "The CLI will exit now. Please configure your Kilo Code and try again."]
      /\ length (createConfigErrorInstructions configPath validation) = 7 + length errs
      /\ (forall i error,
            nth_error errs i = Some error ->
            nth_error (createConfigErrorInstructions configPath validation) (2 + i)
            = Some ("  " ++ BULLET ++ " " ++ error)%string)).
Proof.
  split; [unfold createConfigErrorInstructions; now intros ->|].
  intros Hvalid errs.
  assert (E : createConfigErrorInstructions configPath validation
              = [("Configuration Error: config.json is incomplete or invalid."
                  ++ JsArray.NEWLINE)%string;
                 "Errors found:"]
                  ++ map (fun error => ("  " ++ BULLET ++ " " ++ error)%string) errs
                  ++ [(JsArray.NEWLINE ++ "To fix this issue:")%string;
                      "  1. Run: kilocode config";
                      ("  2. Or edit: " ++ configPath)%string;
                      JsArray.NEWLINE;
                      "The CLI will exit now. Please configure your Kilo Code and try again."]).
  { unfold createConfigErrorInstructions, errs. rewrite Hvalid.
    destruct (errors validation) as [es|].
    - rewrite push_each, <- app_assoc. reflexivity.
    - reflexivity. }
  split; [exact E|]. rewrite E. split.
  - rewrite !length_app, length_map. cbn [length]. lia.
  - intros i error Hi. cbn [app Nat.add nth_error].
    rewrite nth_error_app1 by (rewrite length_map; apply nth_error_Some; congruence).
    now rewrite nth_error_map, Hi.
Qed.

Lemma hasDash_app (a b : string) : hasDash (a ++ b)%string = (hasDash a || hasDash b)%bool.
Proof.
  induction a as [|c a IH]; cbn [hasDash String.append]; [reflexivity|].
  now rewrite IH, orb_assoc.
Qed.

Lemma uint_has_no_dash (d : Decimal.uint) : hasDash (NilEmpty.string_of_uint d) = false.
Proof. induction d; cbn; auto. Qed.

Lemma number_has_no_dash (n : N) : hasDash (numberToString (Z.of_N n)) = false.
Proof.
  unfold numberToString. destruct n as [|p]; [reflexivity|].
  cbn [Z.of_N Z.to_int NilZero.string_of_int].
  unfold NilZero.string_of_uint.
  destruct (Pos.to_uint p); try apply uint_has_no_dash. reflexivity.
Qed.

Lemma to_int_not_nil (z : Z) :
  Z.to_int z <> Decimal.Pos Decimal.Nil /\ Z.to_int z <> Decimal.Neg Decimal.Nil.
Proof.
  destruct z as [|p|p]; cbn [Z.to_int]; split; intros E; inversion E as [Ep];
    now apply (DecimalPos.Unsigned.to_uint_nonnil p).
Qed.

Lemma numberToString_injective (a b : Z) : numberToString a = numberToString b -> a = b.
Proof.
  unfold numberToString. intros H.
  apply (f_equal NilZero.int_of_string) in H.
  rewrite !NilZero.isi in H by apply to_int_not_nil.
  inversion H as [E]. apply (f_equal Z.of_int) in E. now rewrite !DecimalZ.of_to in E.
Qed.

(** Of two strings that end in a dash and a text with no dash, the texts
    after the last dash are the same if the strings are. *)
Lemma text_after_the_last_dash (a : string) : forall b c1 c2,
  hasDash c1 = false -> hasDash c2 = false ->
  (a ++ "-" ++ c1 = b ++ "-" ++ c2)%string -> c1 = c2.
Proof.
  induction a as [|x a IH]; intros b c1 c2 H1 H2 E.
  - destruct b as [|y b]; cbn in E; [now inversion E|].
    inversion E; subst. rewrite hasDash_app in H1. cbn in H1.
    now rewrite orb_true_r in H1.
  - destruct b as [|y b]; cbn in E.
    + inversion E; subst. rewrite hasDash_app in H2. cbn in H2.
      now rewrite orb_true_r in H2.
    + inversion E; subst. now apply (IH b).
Qed.

Lemma id_tells_the_counter {O} (options options' : option O) (now now' : Z) (c c' : N) :
  id (fst (createWelcomeMessage options now c))
  = id (fst (createWelcomeMessage options' now' c')) ->
  c = c'.
Proof.
  cbn [createWelcomeMessage fst id]. intros E.
  rewrite <- !(string_app_assoc "welcome-") in E.
  apply text_after_the_last_dash in E; try apply number_has_no_dash.
  apply numberToString_injective in E. lia.
Qed.

Lemma later_messages_have_later_counters {O} (calls : list (option O * Z)) :
  forall (messageCounter : N) (message : CliMessage O),
    (messageCounter + N.of_nat (length calls) <= 9007199254740993)%N ->
    In message (createWelcomeMessages calls messageCounter) ->
    exists options now c,
      message = fst (createWelcomeMessage options now c) /\ (messageCounter <= c)%N.
Proof.
  induction calls as [|[options now] calls IH]; intros messageCounter message Hle Hin;
    [destruct Hin|].
  cbn [createWelcomeMessages createWelcomeMessage] in Hin. destruct Hin as [<-|Hin].
  - exists options, now, messageCounter. split; [reflexivity | lia].
  - cbn [length] in Hle. unfold increment in Hin.
    destruct (N.ltb_spec messageCounter 9007199254740992) as [Hlt|Hge].
    + apply IH in Hin; [|lia]. destruct Hin as (o & n & c & E & Hc).
      exists o, n, c. split; [exact E | lia].
    + destruct calls as [|call calls]; [destruct Hin|]. cbn [length] in Hle. lia.
Qed.

(** X22. The messages of one run have different ids, also when they are
    made in the same millisecond, or when the clock goes back: as long as
    the counter has not reached [2^53], no two calls of
    [createWelcomeMessage] give the same id. *)
Theorem welcome_messages_have_different_ids {O} (calls : list (option O * Z))
        (messageCounter : N) :
  (messageCounter + N.of_nat (length calls) <= 9007199254740993)%N ->
  NoDup (map id (createWelcomeMessages calls messageCounter)).
Proof.
  revert messageCounter.
  induction calls as [|[options now] calls IH]; intros messageCounter Hle; [constructor|].
  cbn [createWelcomeMessages].
  change (createWelcomeMessage options now messageCounter)
    with (fst (createWelcomeMessage options now messageCounter), increment messageCounter).
  cbn [map]. cbn [length] in Hle.
  constructor.
  - intros Hin. apply in_map_iff in Hin. destruct Hin as (message & E & Hin).
    unfold increment in Hin.
    destruct (N.ltb_spec messageCounter 9007199254740992) as [Hlt|Hge].
    + apply later_messages_have_later_counters in Hin; [|lia].
      destruct Hin as (o & n & c & -> & Hc).
      apply id_tells_the_counter in E. lia.
    + destruct calls as [|call calls]; [destruct Hin|]. cbn [length] in Hle. lia.
  - unfold increment.
    destruct (N.ltb_spec messageCounter 9007199254740992) as [Hlt|Hge].
    + apply IH. lia.
    + destruct calls as [|call calls]; [constructor|]. cbn [length] in Hle. lia.
Qed.

End WelcomeMessages.

(** ** The cleanup of the provider's effect *)
Section Cleanup.
Import KeyboardCleanup.
Context {parsing : KeyParsing}.

Lemma findTimer_after_removeTimer (id id' : TimerId) (l : list (TimerId * TimerCallback)) :
  findTimer id (removeTimer id' l) = if Nat.eqb id id' then None else findTimer id l.
Proof.
  induction l as [|[i cb] l IH]; cbn [removeTimer filter findTimer fst].
  - now destruct (Nat.eqb id id').
  - fold (removeTimer id' l).
    destruct (Nat.eqb_spec i id') as [->|Hi]; cbn [negb findTimer].
    + rewrite IH. destruct (Nat.eqb_spec id id') as [->|Hid]; [reflexivity|].
      destruct (Nat.eqb_spec id' id); [congruence | reflexivity].
    + rewrite IH. destruct (Nat.eqb_spec i id) as [->|_]; [|reflexivity].
      destruct (Nat.eqb_spec id id'); [congruence | reflexivity].
Qed.

Lemma broadcastsOf_app (a b : list Action) :
  broadcastsOf (a ++ b) = broadcastsOf a ++ broadcastsOf b.
Proof.
  induction a as [|x a IH]; [reflexivity|].
  destruct x as [| | | | | | |[k|w]]; cbn [app broadcastsOf]; rewrite IH; reflexivity.
Qed.

Lemma broadcastsOf_Provider (out : list Effect) :
  broadcastsOf (map Provider out) = broadcasts out.
Proof.
  induction out as [|[k|w] out IH]; cbn [map broadcastsOf broadcasts]; congruence.
Qed.

Lemma flushPending_facts (st : State) :
  exists st' out,
    flushPending st = Some (tt, st', out)
    /\ broadcasts out = pendingPaste st ++ pendingDrag st
    /\ dragTimerRef (refs st') = None
    /\ backslashTimerRef (refs st') = None
    /\ (forall id,
          dragTimerRef (refs st) = Some id \/ backslashTimerRef (refs st) = Some id ->
          findTimer id (pending (timers st')) = None)
    /\ pasteBuffer (atoms st') = EmptyString
    /\ dragBuffer (atoms st') = EmptyString
    /\ kittySequenceBuffer (atoms st') = EmptyString
    /\ waitingForEnterRef (refs st') = waitingForEnterRef (refs st).
Proof.
  unfold pendingPaste, pendingDrag.
  destruct st as [[ip pb idr dt bt w] [pm pbuf dm dbuf kbuf ke] [pend next]
                  [rpaste rdrag rkitty renabled]].
  destruct dt as [d|], bt as [b|], ip, idr, pb as [|c1 pb], rdrag as [|c2 rdrag];
    cbn -[removeTimer findTimer Js.replaceCR Js.replaceCRLF];
    do 2 eexists; (split; [reflexivity|]);
    cbn -[removeTimer findTimer Js.replaceCR Js.replaceCRLF];
    repeat split;
    try (intros id [E|E]; inversion E; subst;
         rewrite ?findTimer_after_removeTimer, ?Nat.eqb_refl;
         try reflexivity;
         match goal with |- context [Nat.eqb ?x ?y] => now destruct (Nat.eqb x y) end).
Qed.

(** X23. The cleanup flushes what is captured and leaves nothing armed.
    It returns, and the keys it broadcasts are the paste event of a paste
    that is going on with text captured, then the paste event of a drag
    that is going on, with the text that the drag buffer held at the render
    that made the effect, if that text is not empty, and no other key.
    Afterwards the
    two timer cells are empty, the timers they held are no longer pending,
    and the three buffers of the store are empty. *)
Theorem cleanup_flushes_what_is_captured (usePassthrough wasRaw : bool) (st : State) :
  exists st' actions,
    cleanup usePassthrough wasRaw st = Some (st', actions)
    /\ broadcastsOf actions = pendingPaste st ++ pendingDrag st
    /\ dragTimerRef (refs st') = None
    /\ backslashTimerRef (refs st') = None
    /\ (forall id,
          dragTimerRef (refs st) = Some id \/ backslashTimerRef (refs st) = Some id ->
          findTimer id (pending (timers st')) = None)
    /\ pasteBuffer (atoms st') = EmptyString
    /\ dragBuffer (atoms st') = EmptyString
    /\ kittySequenceBuffer (atoms st') = EmptyString.
Proof.
  destruct (flushPending_facts st) as (st' & out & E & Hb & Hd & Hbt & Hf & Hp & Hdb & Hk & _).
  unfold cleanup. rewrite E. do 2 eexists. split; [reflexivity|].
  split; [|auto 10].
  rewrite !broadcastsOf_app, broadcastsOf_Provider, Hb.
  destruct usePassthrough, (renderedKittyEnabled (rendered st)), wasRaw; reflexivity.
Qed.


End Cleanup.

(** ** The choice of the keypress stream *)
Section PassthroughChoice.
Import Passthrough.

Lemma tail_mul_10 (n : nat) : Nat.tail_mul 10 n = 10 * n.
Proof. apply Nat.tail_mul_spec. Qed.

Lemma leadingDigits_digit (c : ascii) (t : string) (acc v : Z) (seen : bool) :
  JsObject.isDigit c = true ->
  (Z.of_nat (nat_of_ascii c) - 48)%Z = v ->
  leadingDigits acc seen (String c t) = leadingDigits (10 * acc + v)%Z true t.
Proof. intros H <-. cbn [leadingDigits]. now rewrite H. Qed.

Lemma leadingDigits_of_uint (d : Decimal.uint) : forall (acc : nat) (seen : bool) (rest : string),
  match rest with String c _ => JsObject.isDigit c = false | EmptyString => True end ->
  leadingDigits (Z.of_nat acc) seen (NilEmpty.string_of_uint d ++ rest)%string
  = (Z.of_nat (Nat.of_uint_acc d acc),
     match d with Decimal.Nil => seen | _ => true end).
Proof.
  induction d as [|d IH|d IH|d IH|d IH|d IH|d IH|d IH|d IH|d IH|d IH];
    intros acc seen rest Hrest;
    cbn [NilEmpty.string_of_uint String.append Nat.of_uint_acc];
    [destruct rest as [|c rest]; cbn [leadingDigits]; [reflexivity | now rewrite Hrest]|..];
    erewrite leadingDigits_digit by (vm_compute; reflexivity);
    rewrite tail_mul_10;
    match goal with
    | |- leadingDigits ?a true _ = (Z.of_nat (Nat.of_uint_acc ?d' ?n), _) =>
        replace a with (Z.of_nat n) by lia;
        rewrite IH by exact Hrest; now destruct d'
    end.
Qed.

Lemma uint_has_no_dot (d : Decimal.uint) (rest : string) :
  firstPart (NilEmpty.string_of_uint d ++ String "." rest)%string = NilEmpty.string_of_uint d.
Proof.
  induction d as [|d IH|d IH|d IH|d IH|d IH|d IH|d IH|d IH|d IH|d IH];
    cbn [NilEmpty.string_of_uint String.append firstPart];
    [reflexivity|..]; rewrite IH; reflexivity.
Qed.

Lemma nat_to_uint_not_nil (n : nat) : Nat.to_uint n <> Decimal.Nil.
Proof.
  intros E. pose proof (DecimalNat.Unsigned.to_of (Nat.to_uint n)) as H.
  rewrite DecimalNat.Unsigned.of_to, E in H. discriminate H.
Qed.

Lemma decimal_is_digits (n : nat) :
  exists c t, Passthrough.decimal n = String c t
              /\ JsObject.isDigit c = true
              /\ NilEmpty.string_of_uint (Nat.to_uint n) = String c t.
Proof.
  unfold Passthrough.decimal, NilZero.string_of_uint.
  pose proof (nat_to_uint_not_nil n) as Hn.
  destruct (Nat.to_uint n) as [|d|d|d|d|d|d|d|d|d|d]; [now elim Hn|..];
    cbn [NilEmpty.string_of_uint]; do 2 eexists; repeat split; reflexivity.
Qed.

Lemma parseInt_decimal (n : nat) : parseInt (Passthrough.decimal n) = Some (Z.of_nat n).
Proof.
  destruct (decimal_is_digits n) as (c & t & E & Hc & Eu).
  unfold parseInt. rewrite E.
  assert (Hw : isWhiteSpace c = false).
  { unfold JsObject.isDigit in Hc. unfold isWhiteSpace.
    apply andb_prop in Hc. destruct Hc as [H1 H2].
    apply Nat.leb_le in H1, H2.
    destruct (Nat.leb_spec 9 (nat_of_ascii c)), (Nat.leb_spec (nat_of_ascii c) 13),
      (Nat.eqb_spec (nat_of_ascii c) 32), (Nat.eqb_spec (nat_of_ascii c) 160);
      cbn; try reflexivity; lia. }
  cbn [skipWhiteSpace]. rewrite Hw.
  assert (Hsign : (let (negative, digits) :=
                     match String c t with
                     | String "-" t0 => (true, t0)
                     | String "+" t0 => (false, t0)
                     | _ => (false, String c t)
                     end in
                   match leadingDigits 0 false digits with
                   | (n0, true) => Some (if negative then (- n0)%Z else n0)
                   | (_, false) => None
                   end)
                  = match leadingDigits 0 false (String c t) with
                    | (n0, true) => Some n0
                    | (_, false) => None
                    end).
  { destruct c as [[] [] [] [] [] [] [] []]; try reflexivity; discriminate Hc. }
  rewrite Hsign, <- Eu. clear Hsign.
  rewrite <- (string_app_nil_r (NilEmpty.string_of_uint (Nat.to_uint n))).
  change 0%Z with (Z.of_nat 0).
  rewrite leadingDigits_of_uint by exact I.
  fold (Nat.of_uint (Nat.to_uint n)). rewrite DecimalNat.Unsigned.of_to.
  pose proof (nat_to_uint_not_nil n) as Hn.
  now destruct (Nat.to_uint n).
Qed.

(** X25. The provider reads the keys from a stream of its own exactly
    when the major version of Node is below 20 or [PASTE_WORKAROUND] is set
    to [1] or to [true]: so it is for every version string that starts
    with the major version in decimal digits, alone or before a dot. A
    version string whose first part is empty leaves the choice to the
    variable. *)
Theorem passthrough_follows_the_major_version (major : nat) (rest : string)
        (PASTE_WORKAROUND : option string) :
  usePassthrough (Passthrough.decimal major ++ "." ++ rest)%string PASTE_WORKAROUND
  = (Nat.ltb major 20
     || match PASTE_WORKAROUND with
        | Some value => ((value =? "1") || (value =? "true"))%string
        | None => false
        end)%bool
  /\ usePassthrough (Passthrough.decimal major) PASTE_WORKAROUND
     = usePassthrough (Passthrough.decimal major ++ "." ++ rest)%string PASTE_WORKAROUND
  /\ usePassthrough ("." ++ rest)%string PASTE_WORKAROUND
     = match PASTE_WORKAROUND with
       | Some value => ((value =? "1") || (value =? "true"))%string
       | None => false
       end.
Proof.
  assert (Hfirst : firstPart (Passthrough.decimal major ++ "." ++ rest)%string
                   = Passthrough.decimal major).
  { destruct (decimal_is_digits major) as (c & t & E & _ & Eu).
    rewrite E, <- Eu. change ("." ++ rest)%string with (String "." rest).
    apply uint_has_no_dot. }
  assert (Halone : firstPart (Passthrough.decimal major) = Passthrough.decimal major).
  { destruct (decimal_is_digits major) as (c & t & E & _ & Eu).
    rewrite E, <- Eu. clear.
    induction (Nat.to_uint major) as [|d IH|d IH|d IH|d IH|d IH|d IH|d IH|d IH|d IH|d IH];
      cbn [NilEmpty.string_of_uint firstPart];
      [reflexivity|..]; rewrite IH; reflexivity. }
  assert (Htruthy : Js.truthy (Passthrough.decimal major) = true).
  { destruct (decimal_is_digits major) as (c & t & E & _). now rewrite E. }
  assert (Hmajor : forall version,
             firstPart version = Passthrough.decimal major ->
             usePassthrough version PASTE_WORKAROUND
             = (Nat.ltb major 20
                || match PASTE_WORKAROUND with
                   | Some value => ((value =? "1") || (value =? "true"))%string
                   | None => false
                   end)%bool).
  { intros version Hv. unfold usePassthrough, nodeMajorVersion.
    rewrite Hv, Htruthy, parseInt_decimal.
    replace (Z.of_nat major <? 20)%Z with (Nat.ltb major 20)
      by (destruct (Nat.ltb_spec major 20), (Z.ltb_spec (Z.of_nat major) 20); lia || reflexivity).
    destruct PASTE_WORKAROUND as [value|]; [|now rewrite !orb_false_r].
    now rewrite orb_assoc. }
  split; [now apply Hmajor|]. split; [now rewrite !Hmajor|].
  unfold usePassthrough, nodeMajorVersion. cbn [String.append firstPart].
  cbn. destruct PASTE_WORKAROUND; reflexivity.
Qed.

End PassthroughChoice.

(** ** Disposables *)
Section Disposables.
Import Disposable.
Context {W : Type}.

Lemma forEach_all_return (ds : list (Disposable W)) : forall w tr,
  Forall alwaysReturns ds ->
  exists w', forEach ds (w, tr) = (Vscode.Returned w', tr ++ map identity ds).
Proof.
  induction ds as [|d ds IH]; intros w tr Hall.
  - exists w. cbn. now rewrite app_nil_r.
  - inversion Hall as [|? ? Hd Hds]; subst.
    cbn [forEach invoke fst snd map]. destruct (Hd w) as [w1 E]. rewrite E.
    destruct (IH w1 (tr ++ [identity d]) Hds) as [w' E'].
    exists w'. rewrite E', <- app_assoc. reflexivity.
Qed.

(** X26. The disposable that [Disposable.from] makes disposes the ones it
    was given in their order. If all of them return, each is disposed once
    and the call returns. If one of them throws, the call throws, and the
    disposables after it are not disposed. *)
Theorem from_stops_at_the_first_throw (before after : list (Disposable W))
        (thrower : Disposable W) (w : W) (tr : Trace) :
  Forall alwaysReturns before ->
  alwaysThrows thrower ->
  (exists w', from before (w, tr) = (Vscode.Returned w', tr ++ map identity before))
  /\ (exists w',
        from (before ++ thrower :: after) (w, tr)
        = (Vscode.Threw w', tr ++ map identity before ++ [identity thrower])).
Proof.
  intros Hall Hthrow. unfold from. split; [now apply forEach_all_return|].
  revert w tr. induction before as [|d ds IH]; intros w tr.
  - cbn [app forEach invoke fst snd map]. destruct (Hthrow w) as [w' E].
    rewrite E. now exists w'.
  - inversion Hall as [|? ? Hd Hds]; subst.
    cbn [app forEach invoke fst snd map]. destruct (Hd w) as [w1 E]. rewrite E.
    destruct (IH Hds w1 (tr ++ [identity d])) as [w' E'].
    exists w'. rewrite E', <- app_assoc. reflexivity.
Qed.

End Disposables.

(** ** Membership of an emitter's set *)
Section Subscriptions.
Import Vscode Subscription.

(** X27. Whether a listener is subscribed is a flag, not a count: the
    last call that concerns the listener decides. After [event] the
    listener is subscribed, however often it was before; after the
    [dispose] of any of its subscriptions it is not, however many of them
    were made; after the [dispose] of the emitter no listener is; and a
    call that concerns another listener changes nothing for this one. *)
Theorem subscription_is_a_flag (ops : list Op) (op : Op) (fn : Listener) :
  isSubscribed fn (after (ops ++ [op]))
  = match op with
    | Subscribe g => (Nat.eqb fn g || isSubscribed fn (after ops))%bool
    | Unsubscribe g => (negb (Nat.eqb fn g) && isSubscribed fn (after ops))%bool
    | DisposeAll => false
    end.
Proof.
  unfold isSubscribed, after. rewrite fold_left_app. cbn [fold_left].
  destruct op as [g|g|]; cbn [apply event disposeListener dispose entries].
  - apply isSubscribed_setAdd.
  - apply isSubscribed_setDelete.
  - apply isSubscribed_setClear.
Qed.

End Subscriptions.

(** ** Drag capture *)
Section DragCaptures.
Import DragCapture.
Context {parsing : KeyParsing}.
Variable usePassthrough : bool.

Lemma drag_capture (k : Key) (st : State) :
  isPasteRef (refs st) = false ->
  isPasteContent k = true ->
  (isDragStart (sequence k) || isDraggingRef (refs st))%bool = true ->
  handleKeypress usePassthrough k st = Some (tt, dragCaptured (sequence k) st, []).
Proof.
  unfold isPasteContent, isFocusReport. intros Hp H Hd.
  apply andb_prop in H. destruct H as [H He].
  apply andb_prop in H. destruct H as [Hf Hs]. rewrite negb_true_iff in Hf, Hs, He.
  unfold handleKeypress. rewrite !bind_gets, Hf, Hs, He, bind_gets, Hp, bind_gets, Hd.
  unfold dragCaptured.
  destruct st as [[ip pb idr [dt|] bt w] a [pend next] rd]; reflexivity.
Qed.

Lemma removeTimer_keeps_bound (id bound : TimerId) (l : list (TimerId * TimerCallback)) :
  Forall (fun p => fst p < bound) l -> Forall (fun p => fst p < bound) (removeTimer id l).
Proof.
  intros H. unfold removeTimer. apply Forall_forall. intros p Hp.
  apply filter_In in Hp. rewrite Forall_forall in H. now apply H.
Qed.

Lemma findTimer_last (id : TimerId) (cb : TimerCallback) (l : list (TimerId * TimerCallback)) :
  Forall (fun p => fst p < id) l -> findTimer id (l ++ [(id, cb)]) = Some cb.
Proof.
  induction 1 as [|[i c] l Hi Hl IH]; cbn.
  - now rewrite Nat.eqb_refl.
  - cbn in Hi. destruct (Nat.eqb_spec i id); [lia | assumption].
Qed.

Lemma dragCaptured_facts (text : string) (st : State) :
  isPasteRef (refs st) = false ->
  timersOk st ->
  dragArmed (dragCaptured text st)
  /\ dragBuffer (atoms (dragCaptured text st)) = (dragBuffer (atoms st) ++ text)%string
  /\ rendered (dragCaptured text st) = rendered st.
Proof.
  destruct st as [[ip pb idr dt bt w] [pm pbuf dm dbuf kbuf ke] [pend next] rd].
  unfold timersOk, dragArmed. cbn [refs isPasteRef timers pending nextTimerId].
  intros -> Hok.
  assert (Hbound : forall (l : list (TimerId * TimerCallback)) cb,
             Forall (fun p => fst p < next) l ->
             Forall (fun p => fst p < S next) (l ++ [(next, cb)])).
  { intros l cb Hl. apply Forall_app. split.
    - revert Hl. apply Forall_impl. intros p. lia.
    - repeat constructor. }
  destruct dt as [d|]; cbn -[removeTimer findTimer]; repeat split;
    try (apply Hbound; try apply removeTimer_keeps_bound; assumption);
    (eexists; split; [reflexivity|]; apply findTimer_last;
     try apply removeTimer_keeps_bound; assumption).
Qed.

Lemma drag_capture_run (more : list Key) : forall st,
  dragArmed st ->
  forallb isPasteContent more = true ->
  exists st1,
    run usePassthrough (map Keypress more) st = Some (tt, st1, [])
    /\ dragArmed st1
    /\ dragBuffer (atoms st1) = (dragBuffer (atoms st) ++ capturedText more)%string
    /\ rendered st1 = rendered st.
Proof.
  induction more as [|k more IH]; intros st Harmed Hall.
  - exists st. cbn [map run capturedText]. rewrite string_app_nil_r. auto.
  - cbn [forallb] in Hall. apply andb_prop in Hall. destruct Hall as [Hk Hall].
    destruct Harmed as (Hp & Hd & Hok & _).
    destruct (dragCaptured_facts (sequence k) st Hp Hok) as (Harmed' & Hbuf & Hrd).
    destruct (IH _ Harmed' Hall) as (st1 & Hrun & Harmed1 & Hbuf1 & Hrd1).
    exists st1. cbn [map].
    rewrite (run_cons usePassthrough (Keypress k) _ st (dragCaptured (sequence k) st) [])
      by (cbn [step]; apply drag_capture; [assumption | assumption | now rewrite Hd, orb_true_r]).
    rewrite Hrun. split; [reflexivity|]. split; [exact Harmed1|].
    split; [|congruence].
    rewrite Hbuf1, Hbuf. cbn [capturedText]. apply string_app_assoc.
Qed.

(** The timer of a drag calls the [completeDrag] of the render before the
    capture: when the drag buffer was empty then, the timer broadcasts
    nothing and the drag goes on. *)
Lemma stale_drag_timer_fires (st : State) (id : TimerId) :
  findTimer id (pending (timers st)) = Some (CompleteDrag "") ->
  exists st',
    fireTimer id st = Some (tt, st', [])
    /\ isDraggingRef (refs st') = isDraggingRef (refs st).
Proof.
  intros Hf. unfold fireTimer. rewrite bind_gets, Hf.
  destruct st as [[ip pb idr [dt|] bt w] a [pend next] rd], idr;
    cbn -[removeTimer findTimer]; eexists; split; reflexivity.
Qed.

Lemma sameRendered_drag (x y : Rendered) :
  renderedDragBuffer x <> renderedDragBuffer y -> sameRendered x y = false.
Proof.
  intros H. apply not_true_iff_false. intros E. apply sameRendered_eq in E. now subst.
Qed.

(** X28. A drag that is captured in one tick is delivered as one paste
    event by the renders that follow it, not by its timer. Outside a paste,
    with handlers that hold an empty drag buffer, the units from a drag
    start on (or while a drag is going on) that are neither focus reports
    nor paste markers are captured without any event. The timer that the
    last of them arms would broadcast nothing. The drag buffer atom has
    changed, so the component renders: the cleanup of the effect broadcasts
    nothing, clears the timer and empties the buffers of the store, and the
    drag goes on. That changes the atom again: at the next render the
    cleanup holds the text that was captured, broadcasts exactly one paste
    event with it, and the drag is over. *)
Theorem drag_is_delivered_as_one_paste_event (st : State) (first : Key) (more : list Key) :
  isPasteRef (refs st) = false ->
  timersOk st ->
  renderedDragBuffer (rendered st) = ""%string ->
  forallb isPasteContent (first :: more) = true ->
  (isDragStart (sequence first) || isDraggingRef (refs st))%bool = true ->
  Js.truthy (dragBuffer (atoms st) ++ capturedText (first :: more))%string = true ->
  exists st1 st2 st3 id,
    run usePassthrough (map Keypress (first :: more)) st = Some (tt, st1, [])
    /\ isDraggingRef (refs st1) = true
    /\ dragTimerRef (refs st1) = Some id
    /\ (exists st', fireTimer id st1 = Some (tt, st', []) /\ isDraggingRef (refs st') = true)
    /\ render st1 = Some (tt, st2, [])
    /\ isDraggingRef (refs st2) = true
    /\ findTimer id (pending (timers st2)) = None
    /\ render st2
       = Some (tt, st3,
               [Broadcast (createPasteKey
                             (dragBuffer (atoms st) ++ capturedText (first :: more))%string)])
    /\ isDraggingRef (refs st3) = false
    /\ isDragMode (atoms st3) = false
    /\ dragTimerRef (refs st3) = None
    /\ dragBuffer (atoms st3) = ""%string.
Proof.
  intros Hp Hok Hheld Hall Hstart Htext.
  cbn [forallb] in Hall. apply andb_prop in Hall. destruct Hall as [Hk Hall].
  destruct (dragCaptured_facts (sequence first) st Hp Hok) as (Harmed & Hbuf & Hrd).
  destruct (drag_capture_run more _ Harmed Hall) as (st1 & Hrun & Harmed1 & Hbuf1 & Hrd1).
  assert (E : dragBuffer (atoms st1)
              = (dragBuffer (atoms st) ++ capturedText (first :: more))%string).
  { rewrite Hbuf1, Hbuf. cbn [capturedText]. apply string_app_assoc. }
  rewrite <- E in *. clear E Hbuf Hbuf1.
  rewrite Hrd in Hrd1. clear Hrd.
  destruct Harmed1 as (Hp1 & Hd1 & _ & id & Hid & Hfind).
  rewrite Hrd1, Hheld in Hfind.
  destruct (stale_drag_timer_fires st1 id Hfind) as (st' & Hfire & Hd').
  assert (Hne : dragBuffer (atoms st1) <> ""%string) by now apply truthy_true.
  assert (R1 : render st1
               = Some (tt, withRendered (readAtoms (atoms st1)) (flushed st1), [])).
  { rewrite render_runs_the_cleanup, sameRendered_drag.
    - unfold pendingPaste, pendingDrag. now rewrite Hp1, Hrd1, Hheld, Hd1.
    - rewrite Hrd1, Hheld. exact Hne. }
  assert (D1 : dragIsDue st1 = false).
  { unfold dragIsDue. now rewrite Hrd1, Hheld, andb_false_r. }
  assert (P1 : pasteIsDue st1 = false).
  { unfold pasteIsDue. now rewrite Hp1. }
  set (st2 := withRendered (readAtoms (atoms st1)) (flushed st1)) in *.
  assert (Hd2 : isDraggingRef (refs st2) = true).
  { cbn [st2 withRendered flushed refs isDraggingRef]. now rewrite D1. }
  assert (Hp2 : isPasteRef (refs st2) = false).
  { cbn [st2 withRendered flushed refs isPasteRef]. now rewrite P1. }
  assert (Hr2 : renderedDragBuffer (rendered st2) = dragBuffer (atoms st1)) by reflexivity.
  assert (R2 : render st2
               = Some (tt, withRendered (readAtoms (atoms st2)) (flushed st2),
                       [Broadcast (createPasteKey (dragBuffer (atoms st1)))])).
  { rewrite render_runs_the_cleanup, sameRendered_drag.
    - unfold pendingPaste, pendingDrag. rewrite Hp2, Hd2, Hr2, Htext. reflexivity.
    - rewrite Hr2. cbn. congruence. }
  assert (D2 : dragIsDue st2 = true).
  { unfold dragIsDue. now rewrite Hd2, Hr2, Htext. }
  exists st1, st2, (withRendered (readAtoms (atoms st2)) (flushed st2)), id. cbn [map].
  rewrite (run_cons usePassthrough (Keypress first) _ st
                    (dragCaptured (sequence first) st) [])
    by (cbn [step]; now apply drag_capture).
  rewrite Hrun.
  split; [reflexivity|]. split; [exact Hd1|]. split; [exact Hid|].
  split; [exists st'; split; [exact Hfire | congruence]|].
  split; [exact R1|]. split; [exact Hd2|].
  split.
  { cbn [st2 withRendered flushed timers pending]. rewrite Hid. cbn [withoutTimer].
    destruct (backslashTimerRef (refs st1)) as [b|]; cbn [withoutTimer];
      rewrite !findTimer_after_removeTimer, Nat.eqb_refl;
      [now destruct (Nat.eqb id b) | reflexivity]. }
  split; [exact R2|].
  cbn [withRendered flushed refs atoms isDraggingRef isDragMode dragTimerRef dragBuffer].
  rewrite D2. auto.
Qed.

End DragCaptures.

(** ** The lines of a text document *)
Section TextLines.
Import JsArray TextLine.

Lemma search_from (i : Z) (text : string) :
  (0 <= i)%Z -> search i text = (-1)%Z \/ (i <= search i text < i + Z.of_nat (String.length text))%Z.
Proof.
  revert i. induction text as [|c t IH]; intros i Hi; cbn [search String.length]; [now left|].
  destruct (Passthrough.isWhiteSpace c); [|right; lia].
  destruct (IH (i + 1)%Z) as [E|E]; [lia | now left | right; lia].
Qed.

Lemma search_none (i : Z) (text : string) :
  (0 <= i)%Z -> (search i text = (-1)%Z <-> Passthrough.skipWhiteSpace text = EmptyString).
Proof.
  revert i. induction text as [|c t IH]; intros i Hi;
    cbn [search Passthrough.skipWhiteSpace]; [tauto|].
  destruct (Passthrough.isWhiteSpace c); [apply IH; lia|].
  split; [lia | discriminate].
Qed.

Lemma skipWhiteSpace_trimEnd (text : string) :
  Passthrough.skipWhiteSpace (trimEnd text) = EmptyString
  <-> Passthrough.skipWhiteSpace text = EmptyString.
Proof.
  induction text as [|c t IH]; cbn [trimEnd Passthrough.skipWhiteSpace]; [tauto|].
  destruct (trimEnd t) as [|c' t'] eqn:Et.
  - cbn [Passthrough.skipWhiteSpace] in IH.
    destruct (Passthrough.isWhiteSpace c) eqn:Ec; cbn [Passthrough.skipWhiteSpace].
    + tauto.
    + rewrite Ec. split; discriminate.
  - cbn [Passthrough.skipWhiteSpace].
    destruct (Passthrough.isWhiteSpace c); [exact IH | split; discriminate].
Qed.

Lemma slice_one_line (n : nat) (a : list string) :
  joinLines (slice (Z.of_nat n) (Z.of_nat n + 1) a) = orEmpty (at_ (Z.of_nat n) a).
Proof.
  unfold slice, at_, relativeIndex.
  destruct (Z.ltb_spec (Z.of_nat n) 0) as [H|_]; [lia|].
  destruct (Z.ltb_spec (Z.of_nat n + 1) 0) as [H|_]; [lia|].
  rewrite Nat2Z.id. replace (Z.to_nat (Z.of_nat n + 1)) with (S n) by lia.
  destruct (Nat.lt_ge_cases n (length a)) as [Hlt|Hge].
  - replace (Nat.min (S n) (length a) - Nat.min n (length a)) with 1 by lia.
    replace (Nat.min n (length a)) with n by lia.
    destruct (nth_error a n) as [x|] eqn:Ex; [|apply nth_error_None in Ex; lia].
    apply nth_error_split in Ex. destruct Ex as (l1 & l2 & -> & <-).
    rewrite skipn_app, skipn_all, Nat.sub_diag. reflexivity.
  - replace (Nat.min (S n) (length a) - Nat.min n (length a)) with 0 by lia.
    cbn [firstn joinLines].
    destruct (nth_error a n) as [x|] eqn:Ex; [|reflexivity].
    assert (nth_error a n <> None) as Hn by congruence.
    apply nth_error_Some in Hn. lia.
Qed.

Lemma slice_two_lines (n : nat) (a : list string) :
  S n < length a ->
  joinLines (slice (Z.of_nat n) (Z.of_nat n + 1 + 1) a)
  = (orEmpty (at_ (Z.of_nat n) a) ++ NEWLINE ++ orEmpty (at_ (Z.of_nat n + 1) a))%string.
Proof.
  intros Hlt. unfold slice, at_, relativeIndex.
  destruct (Z.ltb_spec (Z.of_nat n) 0) as [H|_]; [lia|].
  destruct (Z.ltb_spec (Z.of_nat n + 1) 0) as [H|_]; [lia|].
  destruct (Z.ltb_spec (Z.of_nat n + 1 + 1) 0) as [H|_]; [lia|].
  rewrite Nat2Z.id. replace (Z.to_nat (Z.of_nat n + 1)) with (S n) by lia.
  replace (Z.to_nat (Z.of_nat n + 1 + 1)) with (S (S n)) by lia.
  replace (Nat.min (S (S n)) (length a) - Nat.min n (length a)) with 2 by lia.
  replace (Nat.min n (length a)) with n by lia.
  destruct (nth_error a n) as [x|] eqn:Ex; [|apply nth_error_None in Ex; lia].
  apply nth_error_split in Ex. destruct Ex as (l1 & l2 & -> & <-).
  rewrite length_app in Hlt. cbn [length] in Hlt.
  destruct l2 as [|y l2]; [cbn [length] in Hlt; lia|].
  rewrite skipn_app, skipn_all, Nat.sub_diag.
  replace (nth_error (l1 ++ x :: y :: l2) (S (length l1))) with (Some y).
  - reflexivity.
  - rewrite nth_error_app2 by lia. now replace (S (length l1) - length l1) with 1 by lia.
Qed.

(** X29. The text of a line is the text of its range: for every line
    number from zero on, in the document or past its end, [getText] on the
    range of [lineAt] gives the text of [lineAt]. On the range that
    includes the line break, [getText] gives the line and the whole of the
    line after it. A line is empty or white space exactly when it has no
    first character that is not white space, and otherwise the index of
    that character lies within the text. *)
Theorem text_of_a_line_is_the_text_of_its_range (line : Z) (doc : TextDocument.TextDocument) :
  (0 <= line)%Z ->
  TextDocument.getText (Some (range (lineAt line doc))) doc = text (lineAt line doc)
  /\ ((line + 1 < Z.of_nat (TextDocument.lineCount doc))%Z ->
      TextDocument.getText (Some (rangeIncludingLineBreak (lineAt line doc))) doc
      = (text (lineAt line doc) ++ NEWLINE ++ text (lineAt (line + 1) doc))%string)
  /\ (isEmptyOrWhitespace (lineAt line doc) = true
      <-> firstNonWhitespaceCharacterIndex (lineAt line doc) = (-1)%Z)
  /\ (isEmptyOrWhitespace (lineAt line doc) = false ->
      (0 <= firstNonWhitespaceCharacterIndex (lineAt line doc)
       < Z.of_nat (String.length (text (lineAt line doc))))%Z).
Proof.
  intros Hline.
  assert (Hiff : isEmptyOrWhitespace (lineAt line doc) = true
                 <-> firstNonWhitespaceCharacterIndex (lineAt line doc) = (-1)%Z).
  { cbn [isEmptyOrWhitespace firstNonWhitespaceCharacterIndex lineAt].
    rewrite Nat.eqb_eq, (search_none 0) by lia. unfold trim.
    rewrite <- skipWhiteSpace_trimEnd.
    destruct (Passthrough.skipWhiteSpace (trimEnd _)); cbn [String.length];
      split; (discriminate || reflexivity). }
  rewrite <- (Z2Nat.id line) by exact Hline.
  split; [|split; [|split]].
  - cbn [TextDocument.getText range lineAt Range.start Range.end_ Position.line text].
    apply slice_one_line.
  - intros Hlt.
    cbn [TextDocument.getText rangeIncludingLineBreak lineAt Range.start Range.end_
         Position.line text].
    apply slice_two_lines. unfold TextDocument.lineCount in Hlt. lia.
  - rewrite (Z2Nat.id line) by exact Hline. exact Hiff.
  - rewrite (Z2Nat.id line) by exact Hline. intros Hf.
    destruct (search_from 0 (text (lineAt line doc))) as [E|E]; [lia| |].
    + apply Hiff in E. congruence.
    + cbn [firstNonWhitespaceCharacterIndex lineAt text] in *. lia.
Qed.

End TextLines.

(** ** The properties on concrete values *)
Section ConcreteUses.
Import Reference Samples.

Lemma isBefore_is_a_strict_total_order_witness :
  Position.isBefore (Position.mkPosition 1 2) (Position.mkPosition 1 9) = true
  /\ Position.isBefore (Position.mkPosition 1 9) (Position.mkPosition 3 0) = true
  /\ Position.isBefore (Position.mkPosition 1 2) (Position.mkPosition 3 0) = true.
Proof.
  split; [reflexivity|]. split; [reflexivity|].
  apply (proj1 (proj2 isBefore_is_a_strict_total_order)
               (Position.mkPosition 1 2) (Position.mkPosition 1 9) (Position.mkPosition 3 0));
    reflexivity.
Defined.

Lemma union_is_the_least_range_over_both_witness :
  Range.ordered firstLines = true
  /\ Range.ordered nextLines = true
  /\ Range.contains (Range.union firstLines nextLines) (inr firstLines) = true
  /\ Range.contains (Range.union firstLines nextLines) (inr nextLines) = true
  /\ (Range.contains manyLines (inr firstLines) = true ->
      Range.contains manyLines (inr nextLines) = true ->
      Range.contains manyLines (inr (Range.union firstLines nextLines)) = true).
Proof.
  split; [reflexivity|]. split; [reflexivity|].
  apply (union_is_the_least_range_over_both firstLines nextLines manyLines); reflexivity.
Defined.

Lemma containment_of_ranges_is_containment_of_positions_witness :
  Range.ordered firstLines = true
  /\ (Range.contains manyLines (inr firstLines) = true
      <-> forall p, Range.containsPosition firstLines p = true ->
                    Range.containsPosition manyLines p = true)
  /\ Range.contains firstLines (inr firstLines) = true
  /\ (forall r3, Range.contains manyLines (inr firstLines) = true ->
                 Range.contains firstLines (inr r3) = true ->
                 Range.contains manyLines (inr r3) = true)
  /\ (Range.contains manyLines (inr firstLines) = true ->
      Range.contains firstLines (inr manyLines) = true ->
      Range.isEqual manyLines firstLines = true).
Proof.
  split; [reflexivity|].
  apply (containment_of_ranges_is_containment_of_positions manyLines firstLines); reflexivity.
Defined.

Lemma reversed_selection_contains_nothing_witness :
  Selection.isReversed backwards = true
  /\ Range.contains (Selection.toRange backwards) (inl (Selection.anchor backwards)) = false.
Proof.
  split; [reflexivity|].
  apply (reversed_selection_contains_nothing backwards (inl (Selection.anchor backwards)));
    reflexivity.
Defined.

Lemma contains_orders_the_kinds_witness :
  CodeActionKind.contains CodeActionKind.Refactor CodeActionKind.RefactorExtract = true
  /\ CodeActionKind.contains CodeActionKind.RefactorExtract
       (CodeActionKind.append CodeActionKind.RefactorExtract "method") = true
  /\ CodeActionKind.contains CodeActionKind.Refactor
       (CodeActionKind.append CodeActionKind.RefactorExtract "method") = true.
Proof.
  split; [reflexivity|]. split; [reflexivity|].
  apply (proj1 (proj2 contains_orders_the_kinds)
               CodeActionKind.Refactor CodeActionKind.RefactorExtract
               (CodeActionKind.append CodeActionKind.RefactorExtract "method"));
    reflexivity.
Defined.

Lemma set_replaces_the_edits_of_a_resource_witness :
  WorkspaceEdit.holdsArrays oneArray
  /\ 0 < length (WorkspaceEdit.arrays oneArray)
  /\ WorkspaceEdit.get (Uri.file "/b")
       (WorkspaceEdit.call
          (WorkspaceEdit.set (Uri.file "/b") 0 (WorkspaceEdit.set (Uri.file "/a") 0 oneArray))
          (WorkspaceEdit.Insert (Uri.file "/a") (Position.mkPosition 0 0) "x"))
     = [replaceInFirstLine; TextEdit.insert (Position.mkPosition 0 0) "x"].
Proof.
  assert (Hholds : WorkspaceEdit.holdsArrays oneArray) by (intros key array; discriminate).
  assert (Harray : 0 < length (WorkspaceEdit.arrays oneArray)) by (cbn; lia).
  split; [exact Hholds|]. split; [exact Harray|].
  exact (proj2 (proj2 (proj2 (proj2
           (set_replaces_the_edits_of_a_resource
              (Uri.file "/a") (Uri.file "/b") 0 oneArray
              (WorkspaceEdit.Insert (Uri.file "/a") (Position.mkPosition 0 0) "x")
              Hholds Harray)))) eq_refl).
Defined.

Lemma workspace_settings_shadow_global_ones_witness :
  JsObject.isPrototypeName
    (MockWorkspaceConfiguration.fullSection (Some "editor") "tabSize") = false
  /\ isNull (Number 8) = false
  /\ MockWorkspaceConfiguration.get isNull Builtin (Some "editor") "tabSize" None
       (MockWorkspaceConfiguration.update (Some "editor") "tabSize" (Some (Number 8))
                                          (Some MockWorkspaceConfiguration.Global)
                                          someSettings)
     = Some (Number 2)
  /\ MockWorkspaceConfiguration.get isNull Builtin (Some "editor") "tabSize" None
       (MockWorkspaceConfiguration.update (Some "editor") "tabSize" (Some (Number 8))
                                          (Some MockWorkspaceConfiguration.Workspace)
                                          someSettings)
     = Some (Number 8).
Proof.
  split; [reflexivity|]. split; [reflexivity|]. split.
  - exact (proj1 (workspace_settings_shadow_global_ones
                    isNull Builtin (Some "editor") "tabSize" (Number 8) None
                    (Some MockWorkspaceConfiguration.Global) someSettings eq_refl eq_refl)).
  - exact (proj1 (workspace_settings_shadow_global_ones
                    isNull Builtin (Some "editor") "tabSize" (Number 8) None
                    (Some MockWorkspaceConfiguration.Workspace) someSettings eq_refl eq_refl)).
Defined.

Lemma getAllConfig_agrees_with_get_witness :
  JsObject.isPrototypeName "editor.tabSize" = false
  /\ JsMap.get "editor.tabSize" (MockWorkspaceConfiguration.getAllConfig isNull Builtin someSettings)
     = MockWorkspaceConfiguration.get isNull Builtin None "editor.tabSize" None someSettings
  /\ MockWorkspaceConfiguration.get isNull Builtin None "toString" None someSettings
     = Some (Builtin "toString")
  /\ JsMap.get "toString" (MockWorkspaceConfiguration.getAllConfig isNull Builtin someSettings)
     = None.
Proof.
  split; [reflexivity|]. split.
  - exact (proj1 (getAllConfig_agrees_with_get isNull Builtin "editor.tabSize" someSettings)
                 eq_refl).
  - exact (proj2 (getAllConfig_agrees_with_get isNull Builtin "toString" someSettings)
                 eq_refl eq_refl eq_refl eq_refl).
Defined.

Lemma offsets_and_positions_convert_both_ways_witness :
  TextDocument.isPlace inSecondLine threeLines = true
  /\ TextDocument.offsetAt inSecondLine threeLines = 8%Z
  /\ TextDocument.positionAt (TextDocument.offsetAt inSecondLine threeLines) threeLines
     = inSecondLine
  /\ TextDocument.offsetAt (TextDocument.positionAt 12 threeLines) threeLines = 12%Z.
Proof.
  split; [reflexivity|]. split; [reflexivity|]. split.
  - exact (proj2 (proj1 (offsets_and_positions_convert_both_ways threeLines)
                        inSecondLine eq_refl)).
  - apply (proj2 (offsets_and_positions_convert_both_ways threeLines) 12%Z).
    vm_compute. split; discriminate.
Defined.

Lemma offsetAt_counts_the_text_before_the_position_witness :
  TextDocument.isPlace inSecondLine threeLines = true
  /\ Js.take (Z.to_nat (TextDocument.offsetAt inSecondLine threeLines))
             (TextDocument.content threeLines)
     = (JsArray.linesBefore (firstn 1 (TextDocument.lines threeLines))
        ++ Js.take 2 (nth 1 (TextDocument.lines threeLines) EmptyString))%string.
Proof.
  split; [reflexivity|].
  exact (proj1 (offsetAt_counts_the_text_before_the_position threeLines inSecondLine eq_refl)).
Defined.

Lemma edits_are_applied_at_their_places_witness :
  forallb (WorkspaceAPI.isEditOf threeLines) [replaceInFirstLine; joinLastLines] = true
  /\ WorkspaceAPI.apart
       (JsArray.sort WorkspaceAPI.compareEdits [replaceInFirstLine; joinLastLines]) = true
  /\ WorkspaceAPI.applyTextEdits (TextDocument.content threeLines)
                                 [replaceInFirstLine; joinLastLines]
     = fold_left (WorkspaceAPI.spliceAt threeLines)
                 (JsArray.sort WorkspaceAPI.compareEdits [replaceInFirstLine; joinLastLines])
                 (TextDocument.content threeLines).
Proof.
  split; [reflexivity|]. split; [reflexivity|].
  apply (edits_are_applied_at_their_places threeLines [replaceInFirstLine; joinLastLines]);
    reflexivity.
Defined.

Lemma insertions_at_one_place_come_out_reversed_witness :
  TextDocument.isPlace inSecondLine threeLines = true
  /\ WorkspaceAPI.applyTextEdits
       (TextDocument.content threeLines)
       [TextEdit.insert inSecondLine "A"; TextEdit.insert inSecondLine "B"]
     = WorkspaceAPI.replaceBetween 8 8 "BA" (TextDocument.content threeLines).
Proof.
  split; [reflexivity|].
  exact (insertions_at_one_place_come_out_reversed threeLines inSecondLine "A" "B" eq_refl).
Defined.

Lemma order_of_adding_edits_does_not_matter_witness :
  Permutation [replaceInFirstLine; joinLastLines] [joinLastLines; replaceInFirstLine]
  /\ NoDup (map (fun e => Range.start (TextEdit.range e)) [replaceInFirstLine; joinLastLines])
  /\ WorkspaceAPI.applyTextEdits (TextDocument.content threeLines)
                                 [replaceInFirstLine; joinLastLines]
     = WorkspaceAPI.applyTextEdits (TextDocument.content threeLines)
                                   [joinLastLines; replaceInFirstLine].
Proof.
  assert (Hp : Permutation [replaceInFirstLine; joinLastLines]
                           [joinLastLines; replaceInFirstLine]) by apply perm_swap.
  assert (Hn : NoDup (map (fun e => Range.start (TextEdit.range e))
                          [replaceInFirstLine; joinLastLines])).
  { repeat constructor; cbn; intuition discriminate. }
  split; [exact Hp|]. split; [exact Hn|].
  exact (order_of_adding_edits_does_not_matter
           (TextDocument.content threeLines) _ _ Hp Hn).
Defined.

Lemma instructions_list_every_error_witness :
  WelcomeMessage.valid twoErrors = false
  /\ WelcomeMessage.createConfigErrorInstructions "/home/me/.kilocode/config.json" twoErrors
     = [("Configuration Error: config.json is incomplete or invalid." ++ JsArray.NEWLINE)%string;
        "Errors found:";
        ("  " ++ WelcomeMessage.BULLET ++ " provider is missing")%string;
        ("  " ++ WelcomeMessage.BULLET ++ " apiKey is empty")%string;
        (JsArray.NEWLINE ++ "To fix this issue:")%string;
        "  1. Run: kilocode config";
        "  2. Or edit: /home/me/.kilocode/config.json";
        JsArray.NEWLINE;
        "The CLI will exit now. Please configure your Kilo Code and try again."]
  /\ nth_error (WelcomeMessage.createConfigErrorInstructions
                  "/home/me/.kilocode/config.json" twoErrors) (2 + 1)
     = Some ("  " ++ WelcomeMessage.BULLET ++ " apiKey is empty")%string.
Proof.
  split; [reflexivity|].
  pose proof (proj2 (instructions_list_every_error "/home/me/.kilocode/config.json" twoErrors)
                    eq_refl) as (Hall & _ & Hline).
  split; [exact Hall|].
  exact (Hline 1 "apiKey is empty" eq_refl).
Defined.

Lemma welcome_messages_have_different_ids_witness :
  (0 + N.of_nat (length [(@None unit, 1700000000000%Z); (None, 1700000000000%Z);
                         (None, 1699999999999%Z)])
   <= 9007199254740993)%N
  /\ NoDup (map WelcomeMessage.id
                (WelcomeMessage.createWelcomeMessages
                   [(@None unit, 1700000000000%Z); (None, 1700000000000%Z);
                    (None, 1699999999999%Z)] 0)).
Proof.
  assert (H : (0 + N.of_nat (length [(@None unit, 1700000000000%Z); (None, 1700000000000%Z);
                                     (None, 1699999999999%Z)])
               <= 9007199254740993)%N) by (vm_compute; discriminate).
  split; [exact H|].
  exact (welcome_messages_have_different_ids _ 0%N H).
Defined.


Lemma from_stops_at_the_first_throw_witness :
  Forall Disposable.alwaysReturns [counts]
  /\ Disposable.alwaysThrows breaks
  /\ (exists w', Disposable.from [counts] (0, [])
                 = (Vscode.Returned w', [] ++ map Disposable.identity [counts]))
  /\ (exists w', Disposable.from ([counts] ++ breaks :: [countsToo]) (0, [])
                 = (Vscode.Threw w',
                    [] ++ map Disposable.identity [counts] ++ [Disposable.identity breaks])).
Proof.
  assert (Hr : Forall Disposable.alwaysReturns [counts]).
  { repeat constructor. intros w. now exists (S w). }
  assert (Ht : Disposable.alwaysThrows breaks) by (intros w; now exists w).
  split; [exact Hr|]. split; [exact Ht|].
  exact (from_stops_at_the_first_throw [counts] [countsToo] breaks 0 [] Hr Ht).
Defined.

Lemma drag_is_delivered_as_one_paste_event_witness :
  isPasteRef (refs (initialState false)) = false
  /\ timersOk (initialState false)
  /\ renderedDragBuffer (rendered (initialState false)) = ""%string
  /\ forallb isPasteContent [Reference.quoteKey; Reference.letterA] = true
  /\ (isDragStart (sequence Reference.quoteKey)
      || isDraggingRef (refs (initialState false)))%bool = true
  /\ exists st1 st2 st3 id,
       run false (map Keypress [Reference.quoteKey; Reference.letterA]) (initialState false)
       = Some (tt, st1, [])
       /\ isDraggingRef (refs st1) = true
       /\ dragTimerRef (refs st1) = Some id
       /\ (exists st', fireTimer id st1 = Some (tt, st', [])
                       /\ isDraggingRef (refs st') = true)
       /\ render st1 = Some (tt, st2, [])
       /\ isDraggingRef (refs st2) = true
       /\ findTimer id (pending (timers st2)) = None
       /\ render st2
          = Some (tt, st3,
                  [Broadcast
                     (createPasteKey
                        (dragBuffer (atoms (initialState false))
                         ++ capturedText [Reference.quoteKey; Reference.letterA])%string)])
       /\ isDraggingRef (refs st3) = false
       /\ isDragMode (atoms st3) = false
       /\ dragTimerRef (refs st3) = None
       /\ dragBuffer (atoms st3) = ""%string.
Proof.
  assert (Hok : timersOk (initialState false)) by constructor.
  split; [reflexivity|]. split; [exact Hok|]. split; [reflexivity|].
  split; [reflexivity|]. split; [reflexivity|].
  apply (drag_is_delivered_as_one_paste_event
           false (initialState false) Reference.quoteKey [Reference.letterA]);
    [reflexivity | exact Hok | reflexivity | reflexivity | reflexivity | reflexivity].
Defined.

Lemma fire_reaches_the_listeners_that_stay_witness :
  Vscode.fire secondThrows 4 7 (Vscode.after [Vscode.Subscribe 1; Vscode.Subscribe 2; Vscode.Subscribe 3]) 0
  = Some (Vscode.mkFired (Vscode.Returned 24)
            (Vscode.after [Vscode.Subscribe 1; Vscode.Subscribe 2; Vscode.Subscribe 3])
            [1; 2; 3] [])
  /\ filter (fun fn =>
               (Subscription.isSubscribed
                  fn (Vscode.after [Vscode.Subscribe 1; Vscode.Subscribe 2; Vscode.Subscribe 3])
                && Subscription.staysSubscribed [] fn)%bool)
            [1; 2; 3]
     = filter (Subscription.staysSubscribed [])
              (Vscode.listeners
                 (Vscode.after [Vscode.Subscribe 1; Vscode.Subscribe 2; Vscode.Subscribe 3]))
  /\ (forall fn, In fn [1; 2; 3] ->
                 Subscription.isSubscribed
                   fn (Vscode.after [Vscode.Subscribe 1; Vscode.Subscribe 2; Vscode.Subscribe 3])
                 = true
                 \/ In (Vscode.Subscribe fn) [])
  /\ Vscode.Returned 24
     = Vscode.Returned (Subscription.stateAfterCalls secondThrows 7 [1; 2; 3] 0)
  /\ Vscode.after [Vscode.Subscribe 1; Vscode.Subscribe 2; Vscode.Subscribe 3]
     = fold_left Vscode.apply []
                 (Vscode.after [Vscode.Subscribe 1; Vscode.Subscribe 2; Vscode.Subscribe 3]).
Proof.
  split; [reflexivity|].
  apply (proj1 (proj2 (fire_reaches_the_listeners_that_stay
                         secondThrows
                         [Vscode.Subscribe 1; Vscode.Subscribe 2; Vscode.Subscribe 3] 7 0))
               4
               (Vscode.mkFired (Vscode.Returned 24)
                  (Vscode.after [Vscode.Subscribe 1; Vscode.Subscribe 2; Vscode.Subscribe 3])
                  [1; 2; 3] [])).
  reflexivity.
Defined.

Lemma text_of_a_line_is_the_text_of_its_range_witness :
  (0 <= 1)%Z
  /\ TextDocument.getText (Some (TextLine.range (TextLine.lineAt 1 threeLines))) threeLines
     = "world"
  /\ TextLine.firstNonWhitespaceCharacterIndex (TextLine.lineAt 1 threeLines) = 0%Z.
Proof.
  assert (H : (0 <= 1)%Z) by lia.
  split; [exact H|]. split; [|reflexivity].
  exact (proj1 (text_of_a_line_is_the_text_of_its_range 1 threeLines H)).
Defined.

End ConcreteUses.
